(** * Water-delivery ordering application: data access layer, booking cart
      and order lifecycle

    A shallow embedding of [src/services/database.ts] (the domain access
    functions over the hosted relational store), of the cart handlers of the
    booking form, of [updateStatus] and [loadOrders] of the vendor's
    order-management view (the [OrderManagement] component, kept as the
    second document of
    [.bolt/supabase_discarded_migrations/20250702224923_orange_dune.sql]),
    and of the tables of the SQL migration, together with the properties the
    specification states about them.  It goes on to the rest of the booking
    form ([loadInventory], [getCartQuantity], the buttons of an inventory
    card, [handleSubmit]) and to the two helper functions of the migration,
    with further properties of the access functions and of the form.

    Conventions of the embedding.
    - A table is the list of its rows in creation order; the bookkeeping
      columns [created_at] and [updated_at] are not represented, so
      [.order('created_at')] is list order and a descending order reverses it.
    - [uuid] primary keys are opaque; they are represented by numbers and
      [gen_random_uuid()] by a counter of the store.
    - Money ([decimal(10,2)]) is an integer number of hundredths; [integer]
      columns are [Z].  A sum of money the form computes in floating point
      is the exact sum here, which is what a [decimal(10,2)] column holds of
      it.
    - Text is UTF-8: a [string] is the list of the bytes of its characters.
    - A [date] or [timestamptz] column holds the text it was given; the
      store's own rendering of a [timestamptz] in a row it answers is not
      represented.
    - [.order('is_default')] names no second key, so the order among rows of
      equal flag is the store's to choose; the model lists them in creation
      order, and no property below states an order among them.
    - An update is answered from the rows it matched; what the store answers
      to an update whose payload is empty is not represented.
    - An [async] function is a state-and-exception computation over the
      [world]: the store, the authentication service, a logical clock that
      ticks once per remote call, and a script saying, for each remote call
      in turn, whether the call succeeds, comes back with an error result,
      or throws; past the end of the script every call succeeds.
    - Row-level policies are not represented: the session is one to which
      the policies show the rows it addresses.  Foreign keys, uniqueness
      and cascades are not enforced by the store of the model: a request the
      real store would refuse is a script entry that fails the call.
    - [console.error] calls have no effect on the computation and are
      dropped. *)

From Stdlib Require Import List ZArith NArith String Bool Lia Permutation.
Import ListNotations.

Local Open Scope string_scope.
Local Open Scope list_scope.

(** ** Values of the schema *)

Definition uuid := N.
Definition timestamp := nat.
Definition decimal := Z.

(** [user_type text CHECK (user_type IN ('customer', 'vendor'))], also the
    check on [order_messages.sender]. *)
Inductive party := customer | vendor.

(** [status text CHECK (status IN ('pending', ..., 'cancelled'))] of orders. *)
Inductive order_status :=
  pending | acknowledged | confirmed | in_transit | delivered | cancelled.

(** [status text CHECK (status IN ('draft', 'sent', 'paid'))] of invoices. *)
Inductive invoice_status := draft | sent | paid.

Definition is_delivered (s : order_status) : bool :=
  match s with delivered => true | _ => false end.

(** The object a failed call carries: a PostgREST error or a thrown value. *)
Record err := { code : string; message : string }.

Definition PGRST116 : err :=
  {| code := "PGRST116";
     message := "JSON object requested, multiple (or no) rows returned" |}.

Definition TypeError : err :=
  {| code := "TypeError"; message := "Cannot read properties of null" |}.

(** ** Rows of the tables (the migration's CREATE TABLE statements) *)

Record users_row := {
  u_id : uuid;
  u_user_id : string;
  u_name : string;
  u_phone : option string;
  u_user_type : party;
  u_area_id : option uuid;
  u_service_area : option string }.

Record service_areas_row := {
  sa_id : uuid;
  sa_name : string;
  sa_vendor_id : option uuid;
  sa_vendor_name : string }.

Record addresses_row := {
  a_id : uuid;
  a_user_id : option uuid;
  a_label : string;
  a_street : string;
  a_city : string;
  a_state : string;
  a_zip_code : string;
  a_is_default : bool;
  a_area_id : option uuid }.

Record inventory_items_row := {
  i_id : uuid;
  i_vendor_id : option uuid;
  i_name : string;
  i_description : string;
  i_price : decimal;
  i_stock : Z }.

Record orders_row := {
  o_id : uuid;
  o_customer_id : option uuid;
  o_customer_name : string;
  o_customer_phone : string;
  o_customer_user_id : string;
  o_vendor_id : option uuid;
  o_vendor_name : string;
  o_area_id : option uuid;
  o_address_id : option uuid;
  o_total : decimal;
  o_status : order_status;
  o_order_date : timestamp;
  o_delivery_date : string;
  o_preferred_time : string;
  o_invoice_id : option string }.

Record order_items_row := {
  oi_id : uuid;
  oi_order_id : option uuid;
  oi_inventory_item_id : option uuid;
  oi_name : string;
  oi_quantity : Z;
  oi_price : decimal }.

Record order_messages_row := {
  m_id : uuid;
  m_order_id : option uuid;
  m_sender : party;
  m_sender_name : string;
  m_message : string }.

Record invoices_row := {
  v_id : uuid;
  v_invoice_id : string;
  v_order_id : option uuid;
  v_amount : decimal;
  v_generated_date : timestamp;
  v_due_date : string;
  v_status : invoice_status }.

(** ** The store *)

Record database := {
  users : list users_row;
  service_areas : list service_areas_row;
  addresses : list addresses_row;
  inventory_items : list inventory_items_row;
  orders : list orders_row;
  order_items : list order_items_row;
  order_messages : list order_messages_row;
  invoices : list invoices_row;
  next_id : uuid }.

Definition empty_database : database :=
  {| users := []; service_areas := []; addresses := []; inventory_items := [];
     orders := []; order_items := []; order_messages := []; invoices := [];
     next_id := 1%N |}.

(** A table of the store: how to read its rows and how to replace them. *)
Record table (R : Type) := {
  rows : database -> list R;
  put_rows : list R -> database -> database }.

Arguments rows {R} _ _.
Arguments put_rows {R} _ _ _.

Definition users_t : table users_row :=
  {| rows := users;
     put_rows := fun l d =>
       {| users := l; service_areas := service_areas d; addresses := addresses d;
          inventory_items := inventory_items d; orders := orders d;
          order_items := order_items d; order_messages := order_messages d;
          invoices := invoices d; next_id := next_id d |} |}.

Definition service_areas_t : table service_areas_row :=
  {| rows := service_areas;
     put_rows := fun l d =>
       {| users := users d; service_areas := l; addresses := addresses d;
          inventory_items := inventory_items d; orders := orders d;
          order_items := order_items d; order_messages := order_messages d;
          invoices := invoices d; next_id := next_id d |} |}.

Definition addresses_t : table addresses_row :=
  {| rows := addresses;
     put_rows := fun l d =>
       {| users := users d; service_areas := service_areas d; addresses := l;
          inventory_items := inventory_items d; orders := orders d;
          order_items := order_items d; order_messages := order_messages d;
          invoices := invoices d; next_id := next_id d |} |}.

Definition inventory_items_t : table inventory_items_row :=
  {| rows := inventory_items;
     put_rows := fun l d =>
       {| users := users d; service_areas := service_areas d;
          addresses := addresses d; inventory_items := l; orders := orders d;
          order_items := order_items d; order_messages := order_messages d;
          invoices := invoices d; next_id := next_id d |} |}.

Definition orders_t : table orders_row :=
  {| rows := orders;
     put_rows := fun l d =>
       {| users := users d; service_areas := service_areas d;
          addresses := addresses d; inventory_items := inventory_items d;
          orders := l; order_items := order_items d;
          order_messages := order_messages d; invoices := invoices d;
          next_id := next_id d |} |}.

Definition order_items_t : table order_items_row :=
  {| rows := order_items;
     put_rows := fun l d =>
       {| users := users d; service_areas := service_areas d;
          addresses := addresses d; inventory_items := inventory_items d;
          orders := orders d; order_items := l;
          order_messages := order_messages d; invoices := invoices d;
          next_id := next_id d |} |}.

Definition order_messages_t : table order_messages_row :=
  {| rows := order_messages;
     put_rows := fun l d =>
       {| users := users d; service_areas := service_areas d;
          addresses := addresses d; inventory_items := inventory_items d;
          orders := orders d; order_items := order_items d;
          order_messages := l; invoices := invoices d; next_id := next_id d |} |}.

Definition invoices_t : table invoices_row :=
  {| rows := invoices;
     put_rows := fun l d =>
       {| users := users d; service_areas := service_areas d;
          addresses := addresses d; inventory_items := inventory_items d;
          orders := orders d; order_items := order_items d;
          order_messages := order_messages d; invoices := l;
          next_id := next_id d |} |}.

Definition set_next_id (n : uuid) (d : database) : database :=
  {| users := users d; service_areas := service_areas d; addresses := addresses d;
     inventory_items := inventory_items d; orders := orders d;
     order_items := order_items d; order_messages := order_messages d;
     invoices := invoices d; next_id := n |}.

(** ** Update payloads *)

(** The object handed to [.update(...)]: a column is written exactly when
    its key is present ([Some]); a nullable column can be written to NULL
    ([Some None]).  The primary key is never written. *)
Record users_patch := {
  set_u_user_id : option string;
  set_u_name : option string;
  set_u_phone : option (option string);
  set_u_user_type : option party;
  set_u_area_id : option (option uuid);
  set_u_service_area : option (option string) }.

Record service_areas_patch := {
  set_sa_name : option string;
  set_sa_vendor_id : option (option uuid);
  set_sa_vendor_name : option string }.

Record addresses_patch := {
  set_a_user_id : option (option uuid);
  set_a_label : option string;
  set_a_street : option string;
  set_a_city : option string;
  set_a_state : option string;
  set_a_zip_code : option string;
  set_a_is_default : option bool;
  set_a_area_id : option (option uuid) }.

Record inventory_items_patch := {
  set_i_vendor_id : option (option uuid);
  set_i_name : option string;
  set_i_description : option string;
  set_i_price : option decimal;
  set_i_stock : option Z }.

Record orders_patch := {
  set_o_customer_id : option (option uuid);
  set_o_customer_name : option string;
  set_o_customer_phone : option string;
  set_o_customer_user_id : option string;
  set_o_vendor_id : option (option uuid);
  set_o_vendor_name : option string;
  set_o_area_id : option (option uuid);
  set_o_address_id : option (option uuid);
  set_o_total : option decimal;
  set_o_status : option order_status;
  set_o_order_date : option timestamp;
  set_o_delivery_date : option string;
  set_o_preferred_time : option string;
  set_o_invoice_id : option (option string) }.

Record invoices_patch := {
  set_v_invoice_id : option string;
  set_v_order_id : option (option uuid);
  set_v_amount : option decimal;
  set_v_generated_date : option timestamp;
  set_v_due_date : option string;
  set_v_status : option invoice_status }.

(** A written column takes the payload's value, any other keeps its own. *)
Definition patched {A} (field : option A) (stored : A) : A :=
  match field with
  | Some v => v
  | None => stored
  end.

Definition apply_users_patch (p : users_patch) (r : users_row) : users_row :=
  {| u_id := u_id r;
     u_user_id := patched (set_u_user_id p) (u_user_id r);
     u_name := patched (set_u_name p) (u_name r);
     u_phone := patched (set_u_phone p) (u_phone r);
     u_user_type := patched (set_u_user_type p) (u_user_type r);
     u_area_id := patched (set_u_area_id p) (u_area_id r);
     u_service_area := patched (set_u_service_area p) (u_service_area r) |}.

Definition apply_service_areas_patch (p : service_areas_patch)
    (r : service_areas_row) : service_areas_row :=
  {| sa_id := sa_id r;
     sa_name := patched (set_sa_name p) (sa_name r);
     sa_vendor_id := patched (set_sa_vendor_id p) (sa_vendor_id r);
     sa_vendor_name := patched (set_sa_vendor_name p) (sa_vendor_name r) |}.

Definition apply_addresses_patch (p : addresses_patch) (r : addresses_row)
  : addresses_row :=
  {| a_id := a_id r;
     a_user_id := patched (set_a_user_id p) (a_user_id r);
     a_label := patched (set_a_label p) (a_label r);
     a_street := patched (set_a_street p) (a_street r);
     a_city := patched (set_a_city p) (a_city r);
     a_state := patched (set_a_state p) (a_state r);
     a_zip_code := patched (set_a_zip_code p) (a_zip_code r);
     a_is_default := patched (set_a_is_default p) (a_is_default r);
     a_area_id := patched (set_a_area_id p) (a_area_id r) |}.

Definition apply_inventory_items_patch (p : inventory_items_patch)
    (r : inventory_items_row) : inventory_items_row :=
  {| i_id := i_id r;
     i_vendor_id := patched (set_i_vendor_id p) (i_vendor_id r);
     i_name := patched (set_i_name p) (i_name r);
     i_description := patched (set_i_description p) (i_description r);
     i_price := patched (set_i_price p) (i_price r);
     i_stock := patched (set_i_stock p) (i_stock r) |}.

Definition apply_orders_patch (p : orders_patch) (r : orders_row) : orders_row :=
  {| o_id := o_id r;
     o_customer_id := patched (set_o_customer_id p) (o_customer_id r);
     o_customer_name := patched (set_o_customer_name p) (o_customer_name r);
     o_customer_phone := patched (set_o_customer_phone p) (o_customer_phone r);
     o_customer_user_id := patched (set_o_customer_user_id p) (o_customer_user_id r);
     o_vendor_id := patched (set_o_vendor_id p) (o_vendor_id r);
     o_vendor_name := patched (set_o_vendor_name p) (o_vendor_name r);
     o_area_id := patched (set_o_area_id p) (o_area_id r);
     o_address_id := patched (set_o_address_id p) (o_address_id r);
     o_total := patched (set_o_total p) (o_total r);
     o_status := patched (set_o_status p) (o_status r);
     o_order_date := patched (set_o_order_date p) (o_order_date r);
     o_delivery_date := patched (set_o_delivery_date p) (o_delivery_date r);
     o_preferred_time := patched (set_o_preferred_time p) (o_preferred_time r);
     o_invoice_id := patched (set_o_invoice_id p) (o_invoice_id r) |}.

Definition apply_invoices_patch (p : invoices_patch) (r : invoices_row)
  : invoices_row :=
  {| v_id := v_id r;
     v_invoice_id := patched (set_v_invoice_id p) (v_invoice_id r);
     v_order_id := patched (set_v_order_id p) (v_order_id r);
     v_amount := patched (set_v_amount p) (v_amount r);
     v_generated_date := patched (set_v_generated_date p) (v_generated_date r);
     v_due_date := patched (set_v_due_date p) (v_due_date r);
     v_status := patched (set_v_status p) (v_status r) |}.

(** ** The persistence gateway *)

(** The uniform result of a gateway call: [{ data, error }]; [None] is
    JavaScript's [null]. *)
Record reply (A : Type) := { data : option A; error : option err }.

Arguments data {A} _.
Arguments error {A} _.

Definition ok {A} (a : A) : reply A := {| data := Some a; error := None |}.
Definition failed {A} (e : err) : reply A := {| data := None; error := Some e |}.

(** A request against the store, evaluated at the current time. *)
Definition query (A : Type) := timestamp -> database -> reply A * database.

Section Queries.
Context {R : Type} (t : table R).

(** [.select('*')] with its filters. *)
Definition select (p : R -> bool) : query (list R) :=
  fun _ d => (ok (filter p (rows t d)), d).

(** The rows an [insert] creates: each gets the next free identifier. *)
Fixpoint fresh_rows (mks : list (uuid -> timestamp -> R)) (next : uuid)
    (now : timestamp) : list R :=
  match mks with
  | [] => []
  | mk :: rest => mk next now :: fresh_rows rest (N.succ next) now
  end.

(** [.insert(values)]; the columns the values leave out take their
    defaults inside the constructors. *)
Definition insert (mks : list (uuid -> timestamp -> R)) : query (list R) :=
  fun now d =>
    let created := fresh_rows mks (next_id d) now in
    (ok created,
     set_next_id (next_id d + N.of_nat (List.length mks))%N
       (put_rows t (rows t d ++ created) d)).

(** [.update(values)] with its filters; answers the rows as updated. *)
Definition update (p : R -> bool) (f : R -> R) : query (list R) :=
  fun _ d =>
    (ok (map f (filter p (rows t d))),
     put_rows t (map (fun r => if p r then f r else r) (rows t d)) d).

(** [.delete()] with its filters. *)
Definition delete (p : R -> bool) : query (list R) :=
  fun _ d =>
    (ok (filter p (rows t d)),
     put_rows t (filter (fun r => negb (p r)) (rows t d)) d).
End Queries.

(** [.single()]: exactly one row is demanded.  Any other count is the
    error PGRST116 and the request has no effect on the store. *)
Definition single {R} (q : query (list R)) : query R :=
  fun now d =>
    let (r, d') := q now d in
    match data r with
    | Some [x] => (ok x, d')
    | _ => (failed PGRST116, d)
    end.

(** A write that is not followed by [.select()] answers no rows. *)
Definition minimal {R} (q : query (list R)) : query unit :=
  fun now d =>
    let (r, d') := q now d in ({| data := None; error := error r |}, d').

(** [.order(column, { ascending: false })] on creation time. *)
Definition newest_first {R} (q : query (list R)) : query (list R) :=
  fun now d =>
    let (r, d') := q now d in
    ({| data := option_map (@rev R) (data r); error := error r |}, d').

(** [.order('is_default', { ascending: false })]: the true rows first.
    The query names no second key; the creation order the model keeps among
    rows of equal flag is one of the orders the store may answer. *)
Definition true_first {R} (key : R -> bool) (q : query (list R)) : query (list R) :=
  fun now d =>
    let (r, d') := q now d in
    ({| data := option_map
                  (fun l => filter key l ++ filter (fun x => negb (key x)) l)
                  (data r);
        error := error r |}, d').

(** ** The authentication service *)

Record auth_user := { au_email : string }.

Record auth_state := {
  accounts : list (string * string);
  session : option auth_user }.

(** ** Asynchronous computations *)

(** What the environment does to one remote call. *)
Inductive fault :=
| NoFault
| RetErr (e : err)      (* the call comes back with [{ data: null, error }] *)
| Throw (e : err).      (* the call rejects: [await] throws *)

Record world := {
  db : database;
  auth : auth_state;
  now : timestamp;
  script : list fault }.

Inductive outcome (A : Type) :=
| Returned (a : A)
| Thrown (e : err).

Arguments Returned {A} _.
Arguments Thrown {A} _.

Definition async (A : Type) := world -> outcome A * world.

Definition ret {A} (a : A) : async A := fun w => (Returned a, w).

Definition bind {A B} (m : async A) (k : A -> async B) : async B :=
  fun w =>
    match m w with
    | (Returned a, w') => k a w'
    | (Thrown e, w') => (Thrown e, w')
    end.

Definition throw {A} (e : err) : async A := fun w => (Thrown e, w).

(** [try { body } catch (err) { handler }]. *)
Definition try_catch {A} (body : async A) (handler : err -> async A) : async A :=
  fun w =>
    match body w with
    | (Returned a, w') => (Returned a, w')
    | (Thrown e, w') => handler e w'
    end.

Declare Scope async_scope.
Delimit Scope async_scope with async.
Notation "x <- m ;; k" := (bind m (fun x => k))
  (at level 61, m at next level, right associativity) : async_scope.
Notation "m ;;; k" := (bind m (fun _ => k))
  (at level 61, right associativity) : async_scope.
Local Open Scope async_scope.

(** The world after one remote call: the clock has ticked and the script
    has moved on. *)
Definition after_call (w : world) (d : database) (a : auth_state) : world :=
  {| db := d; auth := a; now := S (now w); script := tl (script w) |}.

(** The fault the next remote call meets. *)
Definition next_fault (w : world) : fault := hd NoFault (script w).

(** [await supabase.from(...)...]: one remote call.  A call that fails in
    either way leaves the store as it was. *)
Definition await {A} (q : query A) : async (reply A) :=
  fun w =>
    match next_fault w with
    | NoFault =>
        let (r, d') := q (now w) (db w) in
        (Returned r, after_call w d' (auth w))
    | RetErr e => (Returned (failed e), after_call w (db w) (auth w))
    | Throw e => (Thrown e, after_call w (db w) (auth w))
    end.

(** [await supabase.auth....]: one call to the authentication service. *)
Definition await_auth {A} (op : auth_state -> reply A * auth_state)
  : async (reply A) :=
  fun w =>
    match next_fault w with
    | NoFault =>
        let (r, a') := op (auth w) in
        (Returned r, after_call w (db w) a')
    | RetErr e => (Returned (failed e), after_call w (db w) (auth w))
    | Throw e => (Thrown e, after_call w (db w) (auth w))
    end.

(** [await Promise.all(list.map(async x => ...))]: the calls only read, so
    running them one after the other gives the joined results. *)
Fixpoint promise_all_map {A B} (f : A -> async B) (l : list A) : async (list B) :=
  match l with
  | [] => ret []
  | x :: rest =>
      y <- f x ;;
      ys <- promise_all_map f rest ;;
      ret (y :: ys)
  end.

(** ** The application's entity types *)

(** Modelled from the spec: the declarations of [../types] (User, Address,
    ServiceArea, InventoryItem, OrderItem, Order, OrderMessage, Invoice) are
    not among the sources.  Each record has the fields the data model of the
    specification lists and the access functions read; an optional or absent
    field ([undefined]) is [None]. *)
Module NewUser.
Record t := {
  userId : string; name : string; phone : option string; type : party;
  areaId : option uuid; serviceArea : option string }.
End NewUser.

Module PartialUser.
Record t := {
  id : option uuid; userId : option string; name : option string;
  phone : option string; type : option party; areaId : option uuid;
  serviceArea : option string }.
End PartialUser.

Module NewServiceArea.
Record t := { name : string; vendorId : uuid; vendorName : string }.
End NewServiceArea.

Module PartialServiceArea.
Record t := {
  id : option uuid; name : option string; vendorId : option uuid;
  vendorName : option string }.
End PartialServiceArea.

Module Address.
Record t := {
  id : uuid; label : string; street : string; city : string;
  state : string; zipCode : string; isDefault : bool;
  areaId : option uuid }.
End Address.

Module NewAddress.
Record t := {
  userId : uuid; label : string; street : string; city : string;
  state : string; zipCode : string; isDefault : bool;
  areaId : option uuid }.
End NewAddress.

Module PartialAddress.
Record t := {
  id : option uuid; label : option string; street : option string;
  city : option string; state : option string; zipCode : option string;
  isDefault : option bool; areaId : option uuid }.
End PartialAddress.

Module InventoryItem.
Record t := {
  id : uuid; name : string; price : decimal; stock : Z;
  description : string; vendorId : option uuid }.
End InventoryItem.

Module NewInventoryItem.
Record t := {
  vendorId : uuid; name : string; price : decimal; stock : Z;
  description : option string }.
End NewInventoryItem.

Module PartialInventoryItem.
Record t := {
  id : option uuid; vendorId : option uuid; name : option string;
  price : option decimal; stock : option Z; description : option string }.
End PartialInventoryItem.

Module OrderItem.
Record t := { id : uuid; name : string; quantity : Z; price : decimal }.
End OrderItem.

Module NewOrder.
Record t := {
  customerId : uuid; customerName : string; customerPhone : string;
  customerUserId : string; vendorId : uuid; vendorName : string;
  areaId : option uuid; address : Address.t; total : decimal;
  status : order_status; deliveryDate : string; preferredTime : string;
  invoiceId : option string; items : list OrderItem.t }.
End NewOrder.

Module NewOrderMessage.
Record t := {
  orderId : uuid; sender : party; senderName : string; message : string }.
End NewOrderMessage.

Module NewInvoice.
Record t := {
  id : string; orderId : uuid; amount : decimal; dueDate : string;
  status : invoice_status }.
End NewInvoice.


Module User.
Record t := { id : uuid; name : string; phone : option string; userId : string }.
End User.

Module OrderMessage.
Record t := { id : uuid; sender : party; senderName : string; message : string }.
End OrderMessage.

(** An order as the views hold it.  The placeholder the order-management
    view builds for an order without address ([label: 'Unknown'], every
    other field empty) is [None]. *)
Module Order.
Record t := {
  id : uuid; customerId : option uuid; customerName : string;
  customerPhone : string; customerUserId : string; vendorId : option uuid;
  vendorName : string; areaId : option uuid; address : option Address.t;
  items : list OrderItem.t; total : decimal; status : order_status;
  orderDate : timestamp; deliveryDate : string; preferredTime : string;
  invoiceId : option string; messages : list OrderMessage.t }.
End Order.

(** ** JavaScript idioms *)

(** [x || null] on an optional string: the empty string is falsy. *)
Definition or_null (x : option string) : option string :=
  match x with
  | Some "" => None
  | other => other
  end.

(** [x || fallback] on an optional string. *)
Definition or_else (x : option string) (fallback : string) : string :=
  match x with
  | None | Some "" => fallback
  | Some v => v
  end.

(** [row.column = value] on a nullable [uuid] column; NULL matches nothing. *)
Definition is_id (column : option uuid) (value : uuid) : bool :=
  match column with
  | Some x => N.eqb x value
  | None => false
  end.

(** The object answered by the functions that return [{ error }] only. *)
Record error_reply := { error_only : option err }.

(** [catch (err) { ...; return { data: null, error: err }; }] *)
Definition caught {A} (e : err) : async (reply A) :=
  ret {| data := None; error := Some e |}.

(** [catch (err) { ...; return { error: err }; }] *)
Definition caught_error (e : err) : async error_reply :=
  ret {| error_only := Some e |}.

(** ** Auth functions *)

Definition already_registered : err :=
  {| code := "user_already_exists"; message := "User already registered" |}.

Definition invalid_credentials : err :=
  {| code := "invalid_credentials"; message := "Invalid login credentials" |}.

Definition auth_signUp (email password : string)
  : auth_state -> reply auth_user * auth_state :=
  fun a =>
    if existsb (fun acc => String.eqb (fst acc) email) (accounts a)
    then (failed already_registered, a)
    else (ok {| au_email := email |},
          {| accounts := accounts a ++ [(email, password)];
             session := Some {| au_email := email |} |}).

Definition auth_signInWithPassword (email password : string)
  : auth_state -> reply auth_user * auth_state :=
  fun a =>
    if existsb (fun acc => String.eqb (fst acc) email && String.eqb (snd acc) password)
         (accounts a)
    then (ok {| au_email := email |},
          {| accounts := accounts a; session := Some {| au_email := email |} |})
    else (failed invalid_credentials, a).

Definition auth_signOut : auth_state -> reply unit * auth_state :=
  fun a => ({| data := None; error := None |},
            {| accounts := accounts a; session := None |}).

(** [getUser] answers [{ data: { user }, error }]; the [data] of the reply
    is the [user] member, [null] without a session. *)
Definition auth_getUser : auth_state -> reply (option auth_user) * auth_state :=
  fun a => (ok (session a), a).

Definition signUp (email password : string) : async (reply auth_user) :=
  try_catch
    (r <- await_auth (auth_signUp email password) ;;
     ret {| data := data r; error := error r |})
    caught.

Definition signIn (email password : string) : async (reply auth_user) :=
  try_catch
    (r <- await_auth (auth_signInWithPassword email password) ;;
     ret {| data := data r; error := error r |})
    caught.

Definition signOut : async error_reply :=
  try_catch
    (r <- await_auth auth_signOut ;;
     ret {| error_only := error r |})
    caught_error.

(** Returns the user or [null], not a pair. *)
Definition getCurrentUser : async (option auth_user) :=
  try_catch
    (r <- await_auth auth_getUser ;;
     ret (match data r with Some user => user | None => None end))
    (fun _ => ret None).

(** ** The older copy of the module *)

(** The sources hold a second, older copy of the module.  Where the
    properties below look, it differs from [database.ts] in its four auth
    functions, which are not wrapped in [try]/[catch]. *)
Module EarlierCopy.
Definition signUp (email password : string) : async (reply auth_user) :=
  r <- await_auth (auth_signUp email password) ;;
  ret {| data := data r; error := error r |}.

Definition signIn (email password : string) : async (reply auth_user) :=
  r <- await_auth (auth_signInWithPassword email password) ;;
  ret {| data := data r; error := error r |}.

Definition signOut : async error_reply :=
  r <- await_auth auth_signOut ;;
  ret {| error_only := error r |}.

Definition getCurrentUser : async (option auth_user) :=
  r <- await_auth auth_getUser ;;
  ret (match data r with Some user => user | None => None end).
End EarlierCopy.

(** ** User functions *)

Definition createUser (userData : NewUser.t) : async (reply users_row) :=
  try_catch
    (r <- await (single (insert users_t
            [fun id _ =>
               {| u_id := id;
                  u_user_id := NewUser.userId userData;
                  u_name := NewUser.name userData;
                  u_phone := or_null (NewUser.phone userData);
                  u_user_type := NewUser.type userData;
                  u_area_id := NewUser.areaId userData;
                  u_service_area := or_null (NewUser.serviceArea userData) |}])) ;;
     match error r with
     | Some e => ret {| data := None; error := Some e |}
     | None => ret {| data := data r; error := None |}
     end)
    caught.

Definition getUserByUserId (userId : string) : async (reply users_row) :=
  try_catch
    (r <- await (single (select users_t
            (fun row => String.eqb (u_user_id row) userId))) ;;
     ret {| data := data r; error := error r |})
    caught.

(** The payload [updateUser] builds: a key is set only under
    [if (updates.field !== undefined)]. *)
Definition updateUser_updateData (updates : PartialUser.t) : users_patch :=
  {| set_u_user_id := None;
     set_u_name := PartialUser.name updates;
     set_u_phone := option_map Some (PartialUser.phone updates);
     set_u_user_type := None;
     set_u_area_id := option_map Some (PartialUser.areaId updates);
     set_u_service_area := option_map Some (PartialUser.serviceArea updates) |}.

(** What the store answers when [updateData] is left empty is not
    represented: the model answers from the row the key matches. *)
Definition updateUser (id : uuid) (updates : PartialUser.t)
  : async (reply users_row) :=
  try_catch
    (let updateData := updateUser_updateData updates in
     r <- await (single (update users_t (fun row => N.eqb (u_id row) id)
                           (apply_users_patch updateData))) ;;
     ret {| data := data r; error := error r |})
    caught.

Definition deleteUser (id : uuid) : async error_reply :=
  try_catch
    (r <- await (minimal (delete users_t (fun row => N.eqb (u_id row) id))) ;;
     ret {| error_only := error r |})
    caught_error.

(** ** Service Area functions *)

Definition getServiceAreas : async (reply (list service_areas_row)) :=
  try_catch
    (r <- await (newest_first (select service_areas_t (fun _ => true))) ;;
     ret {| data := data r; error := error r |})
    caught.

Definition createServiceArea (areaData : NewServiceArea.t)
  : async (reply service_areas_row) :=
  try_catch
    (r <- await (single (insert service_areas_t
            [fun id _ =>
               {| sa_id := id;
                  sa_name := NewServiceArea.name areaData;
                  sa_vendor_id := Some (NewServiceArea.vendorId areaData);
                  sa_vendor_name := NewServiceArea.vendorName areaData |}])) ;;
     ret {| data := data r; error := error r |})
    caught.

Definition updateServiceArea_updateData (updates : PartialServiceArea.t)
  : service_areas_patch :=
  {| set_sa_name := PartialServiceArea.name updates;
     set_sa_vendor_id := option_map Some (PartialServiceArea.vendorId updates);
     set_sa_vendor_name := PartialServiceArea.vendorName updates |}.

Definition updateServiceArea (id : uuid) (updates : PartialServiceArea.t)
  : async (reply service_areas_row) :=
  try_catch
    (let updateData := updateServiceArea_updateData updates in
     r <- await (single (update service_areas_t
            (fun row => N.eqb (sa_id row) id)
            (apply_service_areas_patch updateData))) ;;
     ret {| data := data r; error := error r |})
    caught.

Definition deleteServiceArea (vendorId : uuid) : async error_reply :=
  try_catch
    (r <- await (minimal (delete service_areas_t
            (fun row => is_id (sa_vendor_id row) vendorId))) ;;
     ret {| error_only := error r |})
    caught_error.

(** ** Address functions *)

Definition getUserAddresses (userId : uuid) : async (reply (list addresses_row)) :=
  try_catch
    (r <- await (true_first a_is_default
            (select addresses_t (fun row => is_id (a_user_id row) userId))) ;;
     ret {| data := data r; error := error r |})
    caught.

(** [{ is_default: false }] *)
Definition unset_default : addresses_patch :=
  {| set_a_user_id := None; set_a_label := None; set_a_street := None;
     set_a_city := None; set_a_state := None; set_a_zip_code := None;
     set_a_is_default := Some false; set_a_area_id := None |}.

Definition createAddress (addressData : NewAddress.t) : async (reply addresses_row) :=
  try_catch
    ((* If this is set as default, unset all other defaults first *)
     (if NewAddress.isDefault addressData
      then _ <- await (minimal (update addresses_t
                  (fun row => is_id (a_user_id row) (NewAddress.userId addressData))
                  (apply_addresses_patch unset_default))) ;;
           ret tt
      else ret tt) ;;;
     r <- await (single (insert addresses_t
            [fun id _ =>
               {| a_id := id;
                  a_user_id := Some (NewAddress.userId addressData);
                  a_label := NewAddress.label addressData;
                  a_street := NewAddress.street addressData;
                  a_city := NewAddress.city addressData;
                  a_state := NewAddress.state addressData;
                  a_zip_code := NewAddress.zipCode addressData;
                  a_is_default := NewAddress.isDefault addressData;
                  a_area_id := NewAddress.areaId addressData |}])) ;;
     ret {| data := data r; error := error r |})
    caught.

Definition updateAddress_updateData (updates : PartialAddress.t) : addresses_patch :=
  {| set_a_user_id := None;
     set_a_label := PartialAddress.label updates;
     set_a_street := PartialAddress.street updates;
     set_a_city := PartialAddress.city updates;
     set_a_state := PartialAddress.state updates;
     set_a_zip_code := PartialAddress.zipCode updates;
     set_a_is_default := PartialAddress.isDefault updates;
     set_a_area_id := option_map Some (PartialAddress.areaId updates) |}.

Definition updateAddress (id : uuid) (updates : PartialAddress.t)
  : async (reply addresses_row) :=
  try_catch
    ((* If setting as default, unset all other defaults first *)
     (match PartialAddress.isDefault updates with
      | Some true =>
          found <- await (single (select addresses_t
                     (fun row => N.eqb (a_id row) id))) ;;
          match data found with
          | Some address =>
              match a_user_id address with
              | Some owner =>
                  _ <- await (minimal (update addresses_t
                         (fun row => is_id (a_user_id row) owner)
                         (apply_addresses_patch unset_default))) ;;
                  ret tt
              | None =>
                  (* [.eq('user_id', null)] matches no row *)
                  _ <- await (minimal (update addresses_t (fun _ => false)
                         (apply_addresses_patch unset_default))) ;;
                  ret tt
              end
          | None => ret tt
          end
      | _ => ret tt
      end) ;;;
     let updateData := updateAddress_updateData updates in
     r <- await (single (update addresses_t (fun row => N.eqb (a_id row) id)
                           (apply_addresses_patch updateData))) ;;
     ret {| data := data r; error := error r |})
    caught.

Definition deleteAddress (id : uuid) : async error_reply :=
  try_catch
    (r <- await (minimal (delete addresses_t (fun row => N.eqb (a_id row) id))) ;;
     ret {| error_only := error r |})
    caught_error.

(** ** Inventory functions *)

Definition getInventoryByVendor (vendorId : uuid)
  : async (reply (list inventory_items_row)) :=
  try_catch
    (r <- await (newest_first (select inventory_items_t
            (fun row => is_id (i_vendor_id row) vendorId))) ;;
     ret {| data := data r; error := error r |})
    caught.

Definition getInventoryByArea (areaId : uuid)
  : async (reply (list inventory_items_row)) :=
  try_catch
    ((* First get the vendor for this area *)
     found <- await (single (select service_areas_t
                (fun row => N.eqb (sa_id row) areaId))) ;;
     match error found, data found with
     | Some areaError, _ => ret {| data := None; error := Some areaError |}
     | None, None => ret {| data := None; error := None |}
     | None, Some area =>
         (* Then get inventory for that vendor *)
         r <- await (select inventory_items_t
                (fun row =>
                   match sa_vendor_id area with
                   | Some v => is_id (i_vendor_id row) v
                   | None => false
                   end)) ;;
         ret {| data := data r; error := error r |}
     end)
    caught.

Definition createInventoryItem (itemData : NewInventoryItem.t)
  : async (reply inventory_items_row) :=
  try_catch
    (r <- await (single (insert inventory_items_t
            [fun id _ =>
               {| i_id := id;
                  i_vendor_id := Some (NewInventoryItem.vendorId itemData);
                  i_name := NewInventoryItem.name itemData;
                  i_description := or_else (NewInventoryItem.description itemData) "";
                  i_price := NewInventoryItem.price itemData;
                  i_stock := NewInventoryItem.stock itemData |}])) ;;
     ret {| data := data r; error := error r |})
    caught.

Definition updateInventoryItem_updateData (updates : PartialInventoryItem.t)
  : inventory_items_patch :=
  {| set_i_vendor_id := None;
     set_i_name := PartialInventoryItem.name updates;
     set_i_description := PartialInventoryItem.description updates;
     set_i_price := PartialInventoryItem.price updates;
     set_i_stock := PartialInventoryItem.stock updates |}.

Definition updateInventoryItem (id : uuid) (updates : PartialInventoryItem.t)
  : async (reply inventory_items_row) :=
  try_catch
    (let updateData := updateInventoryItem_updateData updates in
     r <- await (single (update inventory_items_t
            (fun row => N.eqb (i_id row) id)
            (apply_inventory_items_patch updateData))) ;;
     ret {| data := data r; error := error r |})
    caught.

Definition deleteInventoryItem (id : uuid) : async error_reply :=
  try_catch
    (r <- await (minimal (delete inventory_items_t
            (fun row => N.eqb (i_id row) id))) ;;
     ret {| error_only := error r |})
    caught_error.

(** ** Order functions *)

(** An order joined with its items, its messages and its address:
    [{ ...order, order_items, order_messages, address }]. *)
Module Details.
Record t := {
  order : orders_row;
  order_items : list order_items_row;
  order_messages : list order_messages_row;
  address : option addresses_row }.
End Details.

(** [result.data || []] *)
Definition or_empty {A} (x : option (list A)) : list A :=
  match x with
  | Some l => l
  | None => []
  end.

(** The three sub-reads of one order and their join. *)
Definition with_details (order : orders_row) : async Details.t :=
  itemsResult <- await (select order_items_t
                   (fun row => is_id (oi_order_id row) (o_id order))) ;;
  messagesResult <- await (select order_messages_t
                      (fun row => is_id (m_order_id row) (o_id order))) ;;
  addressResult <- await (single (select addresses_t
                     (fun row =>
                        match o_address_id order with
                        | Some a => N.eqb (a_id row) a
                        | None => false
                        end))) ;;
  ret {| Details.order := order;
         Details.order_items := or_empty (data itemsResult);
         Details.order_messages := or_empty (data messagesResult);
         Details.address := data addressResult |}.

(** The part the two composite reads share, after the orders query. *)
Definition join_orders (r : reply (list orders_row)) : async (reply (list Details.t)) :=
  match error r with
  | Some ordersError => ret {| data := None; error := Some ordersError |}
  | None =>
      match data r with
      | None | Some [] => ret {| data := Some []; error := None |}
      | Some orders =>
          (* Get order items, messages, and addresses for each order *)
          ordersWithDetails <- promise_all_map with_details orders ;;
          ret {| data := Some ordersWithDetails; error := None |}
      end
  end.

Definition getOrdersByCustomer (customerId : uuid) : async (reply (list Details.t)) :=
  try_catch
    (r <- await (newest_first (select orders_t
            (fun row => is_id (o_customer_id row) customerId))) ;;
     join_orders r)
    caught.

Definition getOrdersByVendor (vendorId : uuid) : async (reply (list Details.t)) :=
  try_catch
    (r <- await (newest_first (select orders_t
            (fun row => is_id (o_vendor_id row) vendorId))) ;;
     join_orders r)
    caught.

(** The row [createOrder] inserts; [status] and [order_date] are left to
    their defaults ['pending'] and [now()], [invoice_id] to NULL. *)
Definition new_order_row (orderData : NewOrder.t) (vendor : option users_row)
    (id : uuid) (now : timestamp) : orders_row :=
  {| o_id := id;
     o_customer_id := Some (NewOrder.customerId orderData);
     o_customer_name := NewOrder.customerName orderData;
     o_customer_phone := NewOrder.customerPhone orderData;
     o_customer_user_id := NewOrder.customerUserId orderData;
     o_vendor_id := Some (NewOrder.vendorId orderData);
     o_vendor_name := or_else (option_map u_name vendor) "Unknown Vendor";
     o_area_id := NewOrder.areaId orderData;
     o_address_id := Some (Address.id (NewOrder.address orderData));
     o_total := NewOrder.total orderData;
     o_status := pending;
     o_order_date := now;
     o_delivery_date := NewOrder.deliveryDate orderData;
     o_preferred_time := NewOrder.preferredTime orderData;
     o_invoice_id := None |}.

(** One element of [orderData.items.map(item => ({ order_id: order.id, ... }))]. *)
Definition new_order_item_row (order : orders_row) (item : OrderItem.t)
    (id : uuid) (_ : timestamp) : order_items_row :=
  {| oi_id := id;
     oi_order_id := Some (o_id order);
     oi_inventory_item_id := Some (OrderItem.id item);
     oi_name := OrderItem.name item;
     oi_quantity := OrderItem.quantity item;
     oi_price := OrderItem.price item |}.

Definition createOrder (orderData : NewOrder.t) : async (reply orders_row) :=
  try_catch
    ((* Get vendor name from vendor ID *)
     found <- await (single (select users_t
                (fun row => N.eqb (u_id row) (NewOrder.vendorId orderData)))) ;;
     let vendor := data found in
     r <- await (single (insert orders_t [new_order_row orderData vendor])) ;;
     match error r with
     | Some orderError => ret {| data := None; error := Some orderError |}
     | None =>
         (* Insert order items *)
         if (0 <? List.length (NewOrder.items orderData))%nat
         then
           match data r with
           | None => throw TypeError
           | Some order =>
               let orderItems :=
                 map (new_order_item_row order) (NewOrder.items orderData) in
               ir <- await (minimal (insert order_items_t orderItems)) ;;
               match error ir with
               | Some itemsError => ret {| data := None; error := Some itemsError |}
               | None => ret {| data := Some order; error := None |}
               end
           end
         else ret {| data := data r; error := None |}
     end)
    caught.

(** [{ status }] *)
Definition status_only (status : order_status) : orders_patch :=
  {| set_o_customer_id := None; set_o_customer_name := None;
     set_o_customer_phone := None; set_o_customer_user_id := None;
     set_o_vendor_id := None; set_o_vendor_name := None; set_o_area_id := None;
     set_o_address_id := None; set_o_total := None; set_o_status := Some status;
     set_o_order_date := None; set_o_delivery_date := None;
     set_o_preferred_time := None; set_o_invoice_id := None |}.

(** [{ invoice_id: invoiceId }] *)
Definition invoice_id_only (invoiceId : string) : orders_patch :=
  {| set_o_customer_id := None; set_o_customer_name := None;
     set_o_customer_phone := None; set_o_customer_user_id := None;
     set_o_vendor_id := None; set_o_vendor_name := None; set_o_area_id := None;
     set_o_address_id := None; set_o_total := None; set_o_status := None;
     set_o_order_date := None; set_o_delivery_date := None;
     set_o_preferred_time := None; set_o_invoice_id := Some (Some invoiceId) |}.

Definition updateOrderStatus (id : uuid) (status : order_status)
  : async (reply orders_row) :=
  try_catch
    (r <- await (single (update orders_t (fun row => N.eqb (o_id row) id)
                           (apply_orders_patch (status_only status)))) ;;
     ret {| data := data r; error := error r |})
    caught.

Definition updateOrderInvoiceId (id : uuid) (invoiceId : string)
  : async (reply orders_row) :=
  try_catch
    (r <- await (single (update orders_t (fun row => N.eqb (o_id row) id)
                           (apply_orders_patch (invoice_id_only invoiceId)))) ;;
     ret {| data := data r; error := error r |})
    caught.

(** ** Order Messages functions *)

Definition createOrderMessage (messageData : NewOrderMessage.t)
  : async (reply order_messages_row) :=
  try_catch
    (r <- await (single (insert order_messages_t
            [fun id _ =>
               {| m_id := id;
                  m_order_id := Some (NewOrderMessage.orderId messageData);
                  m_sender := NewOrderMessage.sender messageData;
                  m_sender_name := NewOrderMessage.senderName messageData;
                  m_message := NewOrderMessage.message messageData |}])) ;;
     ret {| data := data r; error := error r |})
    caught.

(** ** Invoice functions *)

(** [.select('*, orders!inner(vendor_id)').eq('orders.vendor_id', vendorId)]:
    the invoices whose order exists and belongs to the vendor. *)
Definition invoices_of_vendor (vendorId : uuid) : query (list invoices_row) :=
  fun now d =>
    select invoices_t
      (fun row =>
         existsb (fun o => is_id (v_order_id row) (o_id o)
                           && is_id (o_vendor_id o) vendorId)
           (orders d))
      now d.

(** The objects the query answers also carry the [orders] member of the
    join ([orders!inner(vendor_id)]), which is not represented. *)
Definition getInvoicesByVendor (vendorId : uuid) : async (reply (list invoices_row)) :=
  try_catch
    (r <- await (newest_first (invoices_of_vendor vendorId)) ;;
     ret {| data := data r; error := error r |})
    caught.

(** [due_date] is kept as the text given; the store answers a
    [timestamptz] in its own rendering, which is not represented. *)
Definition createInvoice (invoiceData : NewInvoice.t) : async (reply invoices_row) :=
  try_catch
    (r <- await (single (insert invoices_t
            [fun id now =>
               {| v_id := id;
                  v_invoice_id := NewInvoice.id invoiceData;
                  v_order_id := Some (NewInvoice.orderId invoiceData);
                  v_amount := NewInvoice.amount invoiceData;
                  v_generated_date := now;
                  v_due_date := NewInvoice.dueDate invoiceData;
                  v_status := NewInvoice.status invoiceData |}])) ;;
     ret {| data := data r; error := error r |})
    caught.

Definition invoice_status_only (status : invoice_status) : invoices_patch :=
  {| set_v_invoice_id := None; set_v_order_id := None; set_v_amount := None;
     set_v_generated_date := None; set_v_due_date := None;
     set_v_status := Some status |}.

Definition updateInvoiceStatus (id : uuid) (status : invoice_status)
  : async (reply invoices_row) :=
  try_catch
    (r <- await (single (update invoices_t (fun row => N.eqb (v_id row) id)
                           (apply_invoices_patch (invoice_status_only status)))) ;;
     ret {| data := data r; error := error r |})
    caught.

(** ** The booking form's cart *)

(** The two pieces of component state the cart handlers read: the cart and
    the inventory as loaded by [loadInventory]. *)
Record BookingForm := {
  cart : list OrderItem.t;
  inventory : list InventoryItem.t }.

Definition setCart (c : list OrderItem.t) (s : BookingForm) : BookingForm :=
  {| cart := c; inventory := inventory s |}.

(** [{ ...cartItem, quantity }] *)
Definition with_quantity (cartItem : OrderItem.t) (quantity : Z) : OrderItem.t :=
  {| OrderItem.id := OrderItem.id cartItem;
     OrderItem.name := OrderItem.name cartItem;
     OrderItem.quantity := quantity;
     OrderItem.price := OrderItem.price cartItem |}.

Definition addToCart (item : InventoryItem.t) (s : BookingForm) : BookingForm :=
  if (InventoryItem.stock item =? 0)%Z then s
  else
    match find (fun cartItem => N.eqb (OrderItem.id cartItem) (InventoryItem.id item))
            (cart s) with
    | Some existingItem =>
        if (OrderItem.quantity existingItem <? InventoryItem.stock item)%Z
        then setCart
               (map (fun cartItem =>
                       if N.eqb (OrderItem.id cartItem) (InventoryItem.id item)
                       then with_quantity cartItem (OrderItem.quantity cartItem + 1)
                       else cartItem)
                  (cart s)) s
        else s
    | None =>
        setCart
          (cart s ++ [ {| OrderItem.id := InventoryItem.id item;
                          OrderItem.name := InventoryItem.name item;
                          OrderItem.quantity := 1;
                          OrderItem.price := InventoryItem.price item |} ]) s
    end.

Definition updateCartQuantity (itemId : uuid) (quantity : Z) (s : BookingForm)
  : BookingForm :=
  match find (fun item => N.eqb (InventoryItem.id item) itemId) (inventory s) with
  | None => s
  | Some inventoryItem =>
      if (quantity <=? 0)%Z
      then setCart
             (filter (fun item => negb (N.eqb (OrderItem.id item) itemId)) (cart s)) s
      else if (quantity <=? InventoryItem.stock inventoryItem)%Z
      then setCart
             (map (fun item =>
                     if N.eqb (OrderItem.id item) itemId
                     then with_quantity item quantity
                     else item)
                (cart s)) s
      else s
  end.

(** [cart.reduce((total, item) => total + item.price * item.quantity, 0)],
    as the exact sum: the script folds floating-point numbers, whose sum is
    this one only once rounded to the two decimals of the column. *)
Definition getTotalPrice (s : BookingForm) : decimal :=
  fold_left (fun total item => (total + OrderItem.price item * OrderItem.quantity item)%Z)
    (cart s) 0%Z.

(** A user action on the cart; an add is a click on one of the rendered
    inventory cards. *)
Inductive cart_action :=
| AddToCart (item : InventoryItem.t)
| UpdateCartQuantity (itemId : uuid) (quantity : Z).

Definition cart_step (s : BookingForm) (a : cart_action) : BookingForm :=
  match a with
  | AddToCart item => addToCart item s
  | UpdateCartQuantity itemId quantity => updateCartQuantity itemId quantity s
  end.

Definition cart_run (actions : list cart_action) (s : BookingForm) : BookingForm :=
  fold_left cart_step actions s.

(** The inventory as the store holds it: unique keys, stock not negative. *)
Definition inventory_loaded (inv : list InventoryItem.t) : Prop :=
  NoDup (map InventoryItem.id inv) /\
  Forall (fun item => (0 <= InventoryItem.stock item)%Z) inv.

(** Every add is a click on an item of the loaded inventory. *)
Definition actions_on (inv : list InventoryItem.t) (actions : list cart_action) : Prop :=
  Forall (fun a => match a with
                   | AddToCart item => In item inv
                   | UpdateCartQuantity _ _ => True
                   end) actions.

(** The cart invariant: one entry per item, each between 1 and the stock
    of its inventory item. *)
Definition cart_ok (s : BookingForm) : Prop :=
  NoDup (map OrderItem.id (cart s)) /\
  Forall (fun entry =>
            exists item,
              In item (inventory s) /\
              InventoryItem.id item = OrderItem.id entry /\
              (1 <= OrderItem.quantity entry <= InventoryItem.stock item)%Z)
    (cart s).

(** How one action may change the sequence of cart keys: not at all, by a
    new key at the end, or by dropping one key; the keys that stay keep
    their relative order. *)
Definition order_kept (before after : list uuid) : Prop :=
  after = before \/
  (exists k, ~ In k before /\ after = before ++ [k]) \/
  (exists k, after = filter (fun x => negb (N.eqb x k)) before).

(** ** The order-management view *)

(** [{ stock: value }] *)
Definition stock_only (value : Z) : PartialInventoryItem.t :=
  {| PartialInventoryItem.id := None; PartialInventoryItem.vendorId := None;
     PartialInventoryItem.name := None; PartialInventoryItem.price := None;
     PartialInventoryItem.stock := Some value;
     PartialInventoryItem.description := None |}.

(** [for (const x of list) { await f(x) }] *)
Fixpoint for_each {A} (f : A -> async unit) (l : list A) : async unit :=
  match l with
  | [] => ret tt
  | x :: rest => f x ;;; for_each f rest
  end.

(** The two pieces of component state [updateStatus] reads or sets: the
    order list as last loaded, and the loading flag. *)
Module OrderManagement.
Record t := { orders : list Order.t; loading : bool }.

Definition setOrders (l : list Order.t) (s : t) : t :=
  {| orders := l; loading := loading s |}.

Definition setLoading (v : bool) (s : t) : t :=
  {| orders := orders s; loading := v |}.
End OrderManagement.

(** The transformation of [loadOrders], for one item, one message, the
    address and the order: [id: item.inventory_item_id || item.id].  The
    [timestamp] of a message ([created_at]) is not represented, and
    [orderDate] is [order_date], which every order row of the model has. *)
Definition to_order_item (item : order_items_row) : OrderItem.t :=
  {| OrderItem.id := match oi_inventory_item_id item with
                     | Some k => k
                     | None => oi_id item
                     end;
     OrderItem.name := oi_name item;
     OrderItem.quantity := oi_quantity item;
     OrderItem.price := oi_price item |}.

Definition to_order_message (msg : order_messages_row) : OrderMessage.t :=
  {| OrderMessage.id := m_id msg;
     OrderMessage.sender := m_sender msg;
     OrderMessage.senderName := m_sender_name msg;
     OrderMessage.message := m_message msg |}.

Definition to_address (row : addresses_row) : Address.t :=
  {| Address.id := a_id row; Address.label := a_label row;
     Address.street := a_street row; Address.city := a_city row;
     Address.state := a_state row; Address.zipCode := a_zip_code row;
     Address.isDefault := a_is_default row; Address.areaId := a_area_id row |}.

Definition to_order (order : Details.t) : Order.t :=
  {| Order.id := o_id (Details.order order);
     Order.customerId := o_customer_id (Details.order order);
     Order.customerName := o_customer_name (Details.order order);
     Order.customerPhone := o_customer_phone (Details.order order);
     Order.customerUserId := o_customer_user_id (Details.order order);
     Order.vendorId := o_vendor_id (Details.order order);
     Order.vendorName := o_vendor_name (Details.order order);
     Order.areaId := o_area_id (Details.order order);
     Order.address := option_map to_address (Details.address order);
     Order.items := map to_order_item (Details.order_items order);
     Order.total := o_total (Details.order order);
     Order.status := o_status (Details.order order);
     Order.orderDate := o_order_date (Details.order order);
     Order.deliveryDate := o_delivery_date (Details.order order);
     Order.preferredTime := o_preferred_time (Details.order order);
     Order.invoiceId := o_invoice_id (Details.order order);
     Order.messages := map to_order_message (Details.order_messages order) |}.

(** [sort((a, b) => new Date(b.orderDate) - new Date(a.orderDate))]: the
    latest order date first; the sort is stable. *)
Fixpoint insert_by_date (o : Order.t) (l : list Order.t) : list Order.t :=
  match l with
  | [] => [o]
  | x :: rest =>
      if Nat.leb (Order.orderDate x) (Order.orderDate o)
      then o :: l
      else x :: insert_by_date o rest
  end.

Definition latest_first (l : list Order.t) : list Order.t :=
  fold_right insert_by_date [] l.

Definition loadOrders (user : option User.t) (s : OrderManagement.t)
  : async OrderManagement.t :=
  match user with
  | None => ret s
  | Some user =>
      try_catch
        (r <- getOrdersByVendor (User.id user) ;;
         match error r, data r with
         | None, Some orderData =>
             (* Transform database orders to application format *)
             ret (OrderManagement.setOrders
                    (latest_first (map to_order orderData)) s)
         | _, _ => ret s
         end)
        (fun _ => ret s)
  end.

(** The body of the loop of [updateStatus] over the items of the order,
    against the inventory read before the loop. *)
Definition updateStock (inventoryData : list inventory_items_row)
    (orderItem : OrderItem.t) : async unit :=
  match find (fun item => N.eqb (i_id item) (OrderItem.id orderItem)) inventoryData with
  | Some inventoryItem =>
      let newStock := Z.max 0 (i_stock inventoryItem - OrderItem.quantity orderItem) in
      _ <- updateInventoryItem (i_id inventoryItem) (stock_only newStock) ;;
      ret tt
  | None => ret tt
  end.

(** [updateStatus(orderId, status)] of the order-management view.  [user!.id]
    on a missing user is a [TypeError], which the function's own [catch]
    takes. *)
Definition updateStatus (user : option User.t) (orderId : uuid)
    (status : order_status) (s : OrderManagement.t) : async OrderManagement.t :=
  let s := OrderManagement.setLoading true s in
  done <-
    try_catch
      (r <- updateOrderStatus orderId status ;;
       match error r with
       | Some _ => ret s
       | None =>
           (* If marking as delivered, decrease inventory *)
           (if is_delivered status
            then
              match find (fun o => N.eqb (Order.id o) orderId)
                      (OrderManagement.orders s) with
              | Some order =>
                  match user with
                  | None => throw TypeError
                  | Some user =>
                      (* Get current inventory *)
                      inv <- getInventoryByVendor (User.id user) ;;
                      match data inv with
                      | Some inventoryData =>
                          (* Update stock for each item *)
                          for_each (updateStock inventoryData) (Order.items order)
                      | None => ret tt
                      end
                  end
              | None => ret tt
              end
            else ret tt) ;;;
           loadOrders user s
       end)
      (fun _ => ret s) ;;
  (* finally *)
  ret (OrderManagement.setLoading false done).

(** A status change requested in the view. *)
Record transition := {
  t_order : uuid;
  t_status : order_status }.

(** A sequence of status changes, one after the other, each from the state
    the one before left. *)
Fixpoint transitions (user : option User.t) (ts : list transition)
    (s : OrderManagement.t) : async OrderManagement.t :=
  match ts with
  | [] => ret s
  | t :: rest =>
      s' <- updateStatus user (t_order t) (t_status t) s ;;
      transitions user rest s'
  end.

Definition stock_not_negative (d : database) : Prop :=
  Forall (fun row => (0 <= i_stock row)%Z) (inventory_items d).

(** Two inventory rows that differ at most in [stock], the later stock
    being the earlier one or not negative. *)
Definition same_or_clamped (before after : inventory_items_row) : Prop :=
  i_id after = i_id before /\
  i_vendor_id after = i_vendor_id before /\
  i_name after = i_name before /\
  i_description after = i_description before /\
  i_price after = i_price before /\
  (i_stock after = i_stock before \/ (0 <= i_stock after)%Z).

(** What the delivery of [items] does to one inventory row, given the
    vendor whose inventory was read: the last item that names the row
    decides, and its quantity is taken off the stock as read. *)
Definition delivered_row (vendorId : uuid) (items : list OrderItem.t)
    (row : inventory_items_row) : inventory_items_row :=
  if is_id (i_vendor_id row) vendorId
  then match find (fun item => N.eqb (OrderItem.id item) (i_id row)) (rev items) with
       | Some item =>
           {| i_id := i_id row; i_vendor_id := i_vendor_id row; i_name := i_name row;
              i_description := i_description row; i_price := i_price row;
              i_stock := Z.max 0 (i_stock row - OrderItem.quantity item) |}
       | None => row
       end
  else row.

(** No remote call is disturbed. *)
Definition undisturbed (w : world) : Prop :=
  Forall (fun f => f = NoFault) (script w).

(** ** Sample data *)

Definition demo_inventory : list InventoryItem.t :=
  [ {| InventoryItem.id := 1%N; InventoryItem.name := "20L can";
       InventoryItem.price := 2000%Z; InventoryItem.stock := 2%Z;
       InventoryItem.description := "spring"; InventoryItem.vendorId := Some 9%N |};
    {| InventoryItem.id := 2%N; InventoryItem.name := "10L can";
       InventoryItem.price := 1200%Z; InventoryItem.stock := 0%Z;
       InventoryItem.description := "mineral"; InventoryItem.vendorId := Some 9%N |} ].

Definition demo_can : InventoryItem.t :=
  {| InventoryItem.id := 1%N; InventoryItem.name := "20L can";
     InventoryItem.price := 2000%Z; InventoryItem.stock := 2%Z;
     InventoryItem.description := "spring"; InventoryItem.vendorId := Some 9%N |}.

(** An inventory item loaded with a stock below zero: the [stock] column is
    an [integer] with no check, and no access function refuses the value. *)
Definition overdrawn_can : InventoryItem.t :=
  {| InventoryItem.id := 9%N; InventoryItem.vendorId := Some 1%N;
     InventoryItem.name := "20L can"; InventoryItem.price := 2000%Z;
     InventoryItem.stock := (-1)%Z; InventoryItem.description := "" |}.

(** Three clicks on a can with stock 2, then the minus button twice. *)
Definition demo_actions : list cart_action :=
  [ AddToCart demo_can; AddToCart demo_can; AddToCart demo_can;
    UpdateCartQuantity 1%N 3%Z; UpdateCartQuantity 1%N 1%Z ].

(** ** Frames of the writes *)

(** Two order rows that differ at most in [status]. *)
Definition same_but_status (before after : orders_row) : Prop :=
  o_id after = o_id before /\
  o_customer_id after = o_customer_id before /\
  o_customer_name after = o_customer_name before /\
  o_customer_phone after = o_customer_phone before /\
  o_customer_user_id after = o_customer_user_id before /\
  o_vendor_id after = o_vendor_id before /\
  o_vendor_name after = o_vendor_name before /\
  o_area_id after = o_area_id before /\
  o_address_id after = o_address_id before /\
  o_total after = o_total before /\
  o_order_date after = o_order_date before /\
  o_delivery_date after = o_delivery_date before /\
  o_preferred_time after = o_preferred_time before /\
  o_invoice_id after = o_invoice_id before.

(** Every table but [orders] is the same in both stores. *)
Definition same_but_orders (d d' : database) : Prop :=
  users d' = users d /\ service_areas d' = service_areas d /\
  addresses d' = addresses d /\ inventory_items d' = inventory_items d /\
  order_items d' = order_items d /\ order_messages d' = order_messages d /\
  invoices d' = invoices d.

(** A column keeps its stored value when the input leaves its field out. *)
Definition kept {A B} (input : option A) (before after : B) : Prop :=
  input = None -> after = before.

(** A key is in the payload only if the input has the field. *)
Definition written_only_if_present {A B} (payload : option B) (input : option A) : Prop :=
  payload <> None -> input <> None.

Definition updateUser_payload (updates : PartialUser.t) (p : users_patch) : Prop :=
  set_u_user_id p = None /\ set_u_user_type p = None /\
  written_only_if_present (set_u_name p) (PartialUser.name updates) /\
  written_only_if_present (set_u_phone p) (PartialUser.phone updates) /\
  written_only_if_present (set_u_area_id p) (PartialUser.areaId updates) /\
  written_only_if_present (set_u_service_area p) (PartialUser.serviceArea updates).

Definition updateUser_keeps (updates : PartialUser.t) (before after : users_row) : Prop :=
  u_id after = u_id before /\
  u_user_id after = u_user_id before /\
  u_user_type after = u_user_type before /\
  kept (PartialUser.name updates) (u_name before) (u_name after) /\
  kept (PartialUser.phone updates) (u_phone before) (u_phone after) /\
  kept (PartialUser.areaId updates) (u_area_id before) (u_area_id after) /\
  kept (PartialUser.serviceArea updates) (u_service_area before) (u_service_area after).

Definition updateServiceArea_payload (updates : PartialServiceArea.t)
    (p : service_areas_patch) : Prop :=
  written_only_if_present (set_sa_name p) (PartialServiceArea.name updates) /\
  written_only_if_present (set_sa_vendor_id p) (PartialServiceArea.vendorId updates) /\
  written_only_if_present (set_sa_vendor_name p) (PartialServiceArea.vendorName updates).

Definition updateServiceArea_keeps (updates : PartialServiceArea.t)
    (before after : service_areas_row) : Prop :=
  sa_id after = sa_id before /\
  kept (PartialServiceArea.name updates) (sa_name before) (sa_name after) /\
  kept (PartialServiceArea.vendorId updates) (sa_vendor_id before) (sa_vendor_id after) /\
  kept (PartialServiceArea.vendorName updates) (sa_vendor_name before)
    (sa_vendor_name after).

Definition updateAddress_payload (updates : PartialAddress.t) (p : addresses_patch)
  : Prop :=
  set_a_user_id p = None /\
  written_only_if_present (set_a_label p) (PartialAddress.label updates) /\
  written_only_if_present (set_a_street p) (PartialAddress.street updates) /\
  written_only_if_present (set_a_city p) (PartialAddress.city updates) /\
  written_only_if_present (set_a_state p) (PartialAddress.state updates) /\
  written_only_if_present (set_a_zip_code p) (PartialAddress.zipCode updates) /\
  written_only_if_present (set_a_is_default p) (PartialAddress.isDefault updates) /\
  written_only_if_present (set_a_area_id p) (PartialAddress.areaId updates).

Definition updateAddress_keeps (updates : PartialAddress.t)
    (before after : addresses_row) : Prop :=
  a_id after = a_id before /\
  a_user_id after = a_user_id before /\
  kept (PartialAddress.label updates) (a_label before) (a_label after) /\
  kept (PartialAddress.street updates) (a_street before) (a_street after) /\
  kept (PartialAddress.city updates) (a_city before) (a_city after) /\
  kept (PartialAddress.state updates) (a_state before) (a_state after) /\
  kept (PartialAddress.zipCode updates) (a_zip_code before) (a_zip_code after) /\
  kept (PartialAddress.isDefault updates) (a_is_default before) (a_is_default after) /\
  kept (PartialAddress.areaId updates) (a_area_id before) (a_area_id after).

Definition updateInventoryItem_payload (updates : PartialInventoryItem.t)
    (p : inventory_items_patch) : Prop :=
  set_i_vendor_id p = None /\
  written_only_if_present (set_i_name p) (PartialInventoryItem.name updates) /\
  written_only_if_present (set_i_description p)
    (PartialInventoryItem.description updates) /\
  written_only_if_present (set_i_price p) (PartialInventoryItem.price updates) /\
  written_only_if_present (set_i_stock p) (PartialInventoryItem.stock updates).

Definition updateInventoryItem_keeps (updates : PartialInventoryItem.t)
    (before after : inventory_items_row) : Prop :=
  i_id after = i_id before /\
  i_vendor_id after = i_vendor_id before /\
  kept (PartialInventoryItem.name updates) (i_name before) (i_name after) /\
  kept (PartialInventoryItem.description updates) (i_description before)
    (i_description after) /\
  kept (PartialInventoryItem.price updates) (i_price before) (i_price after) /\
  kept (PartialInventoryItem.stock updates) (i_stock before) (i_stock after).

(** A small store: vendor 1, customer 2, service area 3, the customer's
    default address 4, inventory item 5 (stock 10, price 20.00) and order 6
    of the customer with the vendor, with one OrderItem 7 of quantity 4. *)
Definition demo_store : database :=
  {| users :=
       [ {| u_id := 1%N; u_user_id := "aqua"; u_name := "Aqua Supplies";
            u_phone := None; u_user_type := vendor; u_area_id := None;
            u_service_area := Some "North" |};
         {| u_id := 2%N; u_user_id := "maya"; u_name := "Maya";
            u_phone := Some "555-0100"; u_user_type := customer;
            u_area_id := Some 3%N; u_service_area := None |} ];
     service_areas :=
       [ {| sa_id := 3%N; sa_name := "North"; sa_vendor_id := Some 1%N;
            sa_vendor_name := "Aqua Supplies" |} ];
     addresses :=
       [ {| a_id := 4%N; a_user_id := Some 2%N; a_label := "Home";
            a_street := "1 Well Lane"; a_city := "Springfield"; a_state := "KA";
            a_zip_code := "560001"; a_is_default := true; a_area_id := Some 3%N |} ];
     inventory_items :=
       [ {| i_id := 5%N; i_vendor_id := Some 1%N; i_name := "20L can";
            i_description := "spring"; i_price := 2000%Z; i_stock := 10%Z |} ];
     orders :=
       [ {| o_id := 6%N; o_customer_id := Some 2%N; o_customer_name := "Maya";
            o_customer_phone := "555-0100"; o_customer_user_id := "maya";
            o_vendor_id := Some 1%N; o_vendor_name := "Aqua Supplies";
            o_area_id := Some 3%N; o_address_id := Some 4%N; o_total := 8000%Z;
            o_status := pending; o_order_date := 0; o_delivery_date := "2025-07-04";
            o_preferred_time := "Morning"; o_invoice_id := None |} ];
     order_items :=
       [ {| oi_id := 7%N; oi_order_id := Some 6%N; oi_inventory_item_id := Some 5%N;
            oi_name := "20L can"; oi_quantity := 4%Z; oi_price := 2000%Z |} ];
     order_messages := [];
     invoices := [];
     next_id := 8%N |}.

(** The small store under a given script of faults. *)
Definition demo_world (faults : list fault) : world :=
  {| db := demo_store;
     auth := {| accounts := []; session := None |};
     now := 1;
     script := faults |}.

Definition fetch_failed : err :=
  {| code := "ETIMEDOUT"; message := "fetch failed" |}.

Definition demo_address : Address.t :=
  {| Address.id := 4%N; Address.label := "Home"; Address.street := "1 Well Lane";
     Address.city := "Springfield"; Address.state := "KA";
     Address.zipCode := "560001"; Address.isDefault := true;
     Address.areaId := Some 3%N |}.

(** An order of two line items, as the booking form submits it. *)
Definition demo_order : NewOrder.t :=
  {| NewOrder.customerId := 2%N; NewOrder.customerName := "Maya";
     NewOrder.customerPhone := "555-0100"; NewOrder.customerUserId := "maya";
     NewOrder.vendorId := 1%N; NewOrder.vendorName := "";
     NewOrder.areaId := Some 3%N; NewOrder.address := demo_address;
     NewOrder.total := 6000%Z; NewOrder.status := pending;
     NewOrder.deliveryDate := "2025-07-05"; NewOrder.preferredTime := "8pm";
     NewOrder.invoiceId := None;
     NewOrder.items :=
       [ {| OrderItem.id := 5%N; OrderItem.name := "20L can";
            OrderItem.quantity := 2%Z; OrderItem.price := 2000%Z |};
         {| OrderItem.id := 5%N; OrderItem.name := "20L can (extra)";
            OrderItem.quantity := 1%Z; OrderItem.price := 2000%Z |} ] |}.

(** ** Later changes of the inventory *)

(** A sequence of [updateInventoryItem] calls, e.g. later price changes. *)
Fixpoint inventory_updates (l : list (uuid * PartialInventoryItem.t)) : async unit :=
  match l with
  | [] => ret tt
  | (id, updates) :: rest =>
      updateInventoryItem id updates ;;; inventory_updates rest
  end.

(** The OrderItem rows of the store refer to orders whose key has been
    issued: no row refers to a key the counter has yet to give out. *)
Definition order_items_refer_to_issued_keys (d : database) : Prop :=
  Forall (fun row => forall k, oi_order_id row = Some k -> (k < next_id d)%N)
    (order_items d).

(** The OrderItem rows of an order. *)
Definition items_of_order (id : uuid) (d : database) : list order_items_row :=
  filter (fun row => is_id (oi_order_id row) id) (order_items d).

(** The vendor doubles the price of inventory item 5 and then renames it. *)
Definition demo_price_changes : list (uuid * PartialInventoryItem.t) :=
  [ (5%N, {| PartialInventoryItem.id := None; PartialInventoryItem.vendorId := None;
             PartialInventoryItem.name := None;
             PartialInventoryItem.price := Some 4000%Z;
             PartialInventoryItem.stock := None;
             PartialInventoryItem.description := None |});
    (5%N, {| PartialInventoryItem.id := None; PartialInventoryItem.vendorId := None;
             PartialInventoryItem.name := Some "20L can (new)";
             PartialInventoryItem.price := None;
             PartialInventoryItem.stock := None;
             PartialInventoryItem.description := None |}) ].

(** Order 6 of the small store as the vendor's order list shows it. *)
Definition demo_details : Details.t :=
  {| Details.order :=
       {| o_id := 6%N; o_customer_id := Some 2%N; o_customer_name := "Maya";
          o_customer_phone := "555-0100"; o_customer_user_id := "maya";
          o_vendor_id := Some 1%N; o_vendor_name := "Aqua Supplies";
          o_area_id := Some 3%N; o_address_id := Some 4%N; o_total := 8000%Z;
          o_status := pending; o_order_date := 0; o_delivery_date := "2025-07-04";
          o_preferred_time := "Morning"; o_invoice_id := None |};
     Details.order_items :=
       [ {| oi_id := 7%N; oi_order_id := Some 6%N; oi_inventory_item_id := Some 5%N;
            oi_name := "20L can"; oi_quantity := 4%Z; oi_price := 2000%Z |} ];
     Details.order_messages := [];
     Details.address := None |}.

(** The vendor of the small store, signed in to the order-management view,
    and the view once it has loaded the vendor's orders. *)
Definition demo_vendor : User.t :=
  {| User.id := 1%N; User.name := "Aqua Supplies"; User.phone := None;
     User.userId := "aqua" |}.

Definition demo_held_order : Order.t :=
  {| Order.id := 6%N; Order.customerId := Some 2%N; Order.customerName := "Maya";
     Order.customerPhone := "555-0100"; Order.customerUserId := "maya";
     Order.vendorId := Some 1%N; Order.vendorName := "Aqua Supplies";
     Order.areaId := Some 3%N;
     Order.address :=
       Some {| Address.id := 4%N; Address.label := "Home";
               Address.street := "1 Well Lane"; Address.city := "Springfield";
               Address.state := "KA"; Address.zipCode := "560001";
               Address.isDefault := true; Address.areaId := Some 3%N |};
     Order.items :=
       [ {| OrderItem.id := 5%N; OrderItem.name := "20L can";
            OrderItem.quantity := 4%Z; OrderItem.price := 2000%Z |} ];
     Order.total := 8000%Z; Order.status := pending; Order.orderDate := 0;
     Order.deliveryDate := "2025-07-04"; Order.preferredTime := "Morning";
     Order.invoiceId := None; Order.messages := [] |}.

Definition demo_view : OrderManagement.t :=
  {| OrderManagement.orders := [demo_held_order];
     OrderManagement.loading := false |}.

Definition deliver_demo : transition :=
  {| t_order := 6%N; t_status := delivered |}.

Definition confirm_demo : transition :=
  {| t_order := 6%N; t_status := confirmed |}.

(** The view holding order 6 with two lines on inventory item 5, of
    quantities 4 and 3. *)
Definition two_lines_view : OrderManagement.t :=
  {| OrderManagement.orders :=
       [ to_order
           {| Details.order := Details.order demo_details;
              Details.order_items :=
                [ {| oi_id := 7%N; oi_order_id := Some 6%N;
                     oi_inventory_item_id := Some 5%N;
                     oi_name := "20L can"; oi_quantity := 4%Z; oi_price := 2000%Z |};
                  {| oi_id := 8%N; oi_order_id := Some 6%N;
                     oi_inventory_item_id := Some 5%N;
                     oi_name := "20L can"; oi_quantity := 3%Z; oi_price := 2000%Z |} ];
              Details.order_messages := [];
              Details.address := None |} ];
     OrderManagement.loading := false |}.

(** An inventory item entered with a stock below zero, which neither
    [createInventoryItem] nor the column (an [integer] with no check) refuses,
    and the small store with it. *)
Definition overdrawn_item : NewInventoryItem.t :=
  {| NewInventoryItem.vendorId := 1%N; NewInventoryItem.name := "5L bottle";
     NewInventoryItem.price := 500%Z; NewInventoryItem.stock := (-1)%Z;
     NewInventoryItem.description := None |}.

Definition overdrawn_world : world :=
  snd (createInventoryItem overdrawn_item (demo_world [])).

(** ** Default addresses *)

(** The addresses of a user that are marked default. *)
Definition defaults_of (userId : uuid) (l : list addresses_row) : list addresses_row :=
  filter (fun row => is_id (a_user_id row) userId && a_is_default row) l.

Definition at_most_one_default (d : database) : Prop :=
  forall userId, List.length (defaults_of userId (addresses d)) <= 1.

(** The addresses after the defaults of [owner] are cleared. *)
Definition clear_defaults (owner : uuid) (l : list addresses_row) : list addresses_row :=
  map (fun r => if is_id (a_user_id r) owner
                then apply_addresses_patch unset_default r else r) l.

(** A call of one of the two address writers. *)
Inductive address_call :=
| CreateAddress (addressData : NewAddress.t)
| UpdateAddress (id : uuid) (updates : PartialAddress.t).

(** A sequence of address writes, one after the other. *)
Fixpoint address_calls (calls : list address_call) : async unit :=
  match calls with
  | [] => ret tt
  | CreateAddress addressData :: rest =>
      createAddress addressData ;;; address_calls rest
  | UpdateAddress id updates :: rest =>
      updateAddress id updates ;;; address_calls rest
  end.

(** No remote call comes back with an error result; calls may still throw,
    and [.single()] may still refuse a row count. *)
Definition no_error_results (w : world) : Prop :=
  Forall (fun f => forall e, f <> RetErr e) (script w).

(** A second default address for the customer of the small store. *)
Definition demo_new_address : NewAddress.t :=
  {| NewAddress.userId := 2%N; NewAddress.label := "Office";
     NewAddress.street := "2 Tank Road"; NewAddress.city := "Springfield";
     NewAddress.state := "KA"; NewAddress.zipCode := "560002";
     NewAddress.isDefault := true; NewAddress.areaId := Some 3%N |}.

(** [{ isDefault: true }] *)
Definition make_default : PartialAddress.t :=
  {| PartialAddress.id := None; PartialAddress.label := None;
     PartialAddress.street := None; PartialAddress.city := None;
     PartialAddress.state := None; PartialAddress.zipCode := None;
     PartialAddress.isDefault := Some true; PartialAddress.areaId := None |}.

(** A new default address, then the first address made default again. *)
Definition demo_address_calls : list address_call :=
  [ CreateAddress demo_new_address; UpdateAddress 4%N make_default ].

(** ** Composite reads under failing sub-reads *)

(** No remote call throws; calls may still come back with an error result. *)
Definition no_throws (w : world) : Prop :=
  Forall (fun f => forall e, f <> Throw e) (script w).

(** The join of one order when its three sub-reads meet the faults [f1]
    (items), [f2] (messages) and [f3] (address): a sub-read that succeeds
    gives the stored rows, one that fails gives the empty list, or null for
    the address. *)
Definition degraded (d : database) (o : orders_row) (f1 f2 f3 : fault) : Details.t :=
  {| Details.order := o;
     Details.order_items :=
       match f1 with
       | NoFault => filter (fun row => is_id (oi_order_id row) (o_id o)) (order_items d)
       | _ => []
       end;
     Details.order_messages :=
       match f2 with
       | NoFault => filter (fun row => is_id (m_order_id row) (o_id o)) (order_messages d)
       | _ => []
       end;
     Details.address :=
       match f3 with
       | NoFault =>
           match filter (fun row => match o_address_id o with
                                    | Some a => N.eqb (a_id row) a
                                    | None => false
                                    end) (addresses d) with
           | [x] => Some x
           | _ => None
           end
       | _ => None
       end |}.

(** The joined list for the orders a query answered, when the sub-reads
    meet the faults of [s] in turn, three per order. *)
Fixpoint join_with_failures (d : database) (os : list orders_row) (s : list fault)
  : list Details.t :=
  match os with
  | [] => []
  | o :: rest =>
      degraded d o (nth 0 s NoFault) (nth 1 s NoFault) (nth 2 s NoFault)
      :: join_with_failures d rest (skipn 3 s)
  end.

(** ** The access functions as one interface *)

(** A call of one of the functions [database.ts] exports. *)
Inductive call :=
| SignUp (email password : string)
| SignIn (email password : string)
| SignOut
| GetCurrentUser
| CreateUser (userData : NewUser.t)
| GetUserByUserId (userId : string)
| UpdateUser (id : uuid) (updates : PartialUser.t)
| DeleteUser (id : uuid)
| GetServiceAreas
| CreateServiceArea (areaData : NewServiceArea.t)
| UpdateServiceArea (id : uuid) (updates : PartialServiceArea.t)
| DeleteServiceArea (vendorId : uuid)
| GetUserAddresses (userId : uuid)
| CreateAddressCall (addressData : NewAddress.t)
| UpdateAddressCall (id : uuid) (updates : PartialAddress.t)
| DeleteAddress (id : uuid)
| GetInventoryByVendor (vendorId : uuid)
| GetInventoryByArea (areaId : uuid)
| CreateInventoryItem (itemData : NewInventoryItem.t)
| UpdateInventoryItem (id : uuid) (updates : PartialInventoryItem.t)
| DeleteInventoryItem (id : uuid)
| GetOrdersByCustomer (customerId : uuid)
| GetOrdersByVendor (vendorId : uuid)
| CreateOrder (orderData : NewOrder.t)
| UpdateOrderStatus (id : uuid) (status : order_status)
| UpdateOrderInvoiceId (id : uuid) (invoiceId : string)
| CreateOrderMessage (messageData : NewOrderMessage.t)
| GetInvoicesByVendor (vendorId : uuid)
| CreateInvoice (invoiceData : NewInvoice.t)
| UpdateInvoiceStatus (id : uuid) (status : invoice_status).

(** The three shapes of what the functions return. *)
Inductive answer :=
| Pair {A : Type} (r : reply A)          (* [{ data, error }] *)
| ErrorOnly (r : error_reply)            (* [{ error }] *)
| UserOrNull (u : option auth_user).     (* [user] or [null] *)

Definition answering {A} (shape : A -> answer) (m : async A) : async answer :=
  a <- m ;; ret (shape a).

Definition perform (c : call) : async answer :=
  match c with
  | SignUp email password => answering Pair (signUp email password)
  | SignIn email password => answering Pair (signIn email password)
  | SignOut => answering ErrorOnly signOut
  | GetCurrentUser => answering UserOrNull getCurrentUser
  | CreateUser userData => answering Pair (createUser userData)
  | GetUserByUserId userId => answering Pair (getUserByUserId userId)
  | UpdateUser id updates => answering Pair (updateUser id updates)
  | DeleteUser id => answering ErrorOnly (deleteUser id)
  | GetServiceAreas => answering Pair getServiceAreas
  | CreateServiceArea areaData => answering Pair (createServiceArea areaData)
  | UpdateServiceArea id updates => answering Pair (updateServiceArea id updates)
  | DeleteServiceArea vendorId => answering ErrorOnly (deleteServiceArea vendorId)
  | GetUserAddresses userId => answering Pair (getUserAddresses userId)
  | CreateAddressCall addressData => answering Pair (createAddress addressData)
  | UpdateAddressCall id updates => answering Pair (updateAddress id updates)
  | DeleteAddress id => answering ErrorOnly (deleteAddress id)
  | GetInventoryByVendor vendorId => answering Pair (getInventoryByVendor vendorId)
  | GetInventoryByArea areaId => answering Pair (getInventoryByArea areaId)
  | CreateInventoryItem itemData => answering Pair (createInventoryItem itemData)
  | UpdateInventoryItem id updates => answering Pair (updateInventoryItem id updates)
  | DeleteInventoryItem id => answering ErrorOnly (deleteInventoryItem id)
  | GetOrdersByCustomer customerId => answering Pair (getOrdersByCustomer customerId)
  | GetOrdersByVendor vendorId => answering Pair (getOrdersByVendor vendorId)
  | CreateOrder orderData => answering Pair (createOrder orderData)
  | UpdateOrderStatus id status => answering Pair (updateOrderStatus id status)
  | UpdateOrderInvoiceId id invoiceId => answering Pair (updateOrderInvoiceId id invoiceId)
  | CreateOrderMessage messageData => answering Pair (createOrderMessage messageData)
  | GetInvoicesByVendor vendorId => answering Pair (getInvoicesByVendor vendorId)
  | CreateInvoice invoiceData => answering Pair (createInvoice invoiceData)
  | UpdateInvoiceStatus id status => answering Pair (updateInvoiceStatus id status)
  end.

(** The answer carries the failure [e]: [{ data: null, error: e }], or
    [{ error: e }]; [getCurrentUser] has no error field and answers [null]. *)
Definition carries (ans : answer) (e : err) : Prop :=
  match ans with
  | Pair r => data r = None /\ error r = Some e
  | ErrorOnly r => error_only r = Some e
  | UserOrNull u => u = None
  end.

(** The composite reads, whose sub-reads follow the orders query. *)
Definition is_composite (c : call) : bool :=
  match c with
  | GetOrdersByCustomer _ | GetOrdersByVendor _ => true
  | _ => false
  end.

(** None of the first [n] remote calls under the script [s] throws. *)
Definition clean (s : list fault) (n : nat) : Prop :=
  forall k e, k < n -> nth k s NoFault <> Throw e.

(** ** Predicates on computations *)

(** [m] keeps [I]: from a world in [I] it ends in a world in [I], whether it
    returns or throws. *)
Definition keeps {A} (I : world -> Prop) (m : async A) : Prop :=
  forall w, I w -> I (snd (m w)).

(** [m] makes its remote calls in script order and stops at the first one
    that throws: if it ends after [n] calls, none of the first [n] threw
    when it returns, and when it throws [e] either none threw (the throw is
    the function's own) or the last one threw [e] and none before it. *)
Definition traced {A} (m : async A) : Prop :=
  forall w o w',
    m w = (o, w') ->
    exists n,
      now w' = now w + n /\
      script w' = skipn n (script w) /\
      match o with
      | Returned _ => clean (script w) n
      | Thrown e =>
          clean (script w) n \/
          exists j, n = S j /\ clean (script w) j /\
                    nth j (script w) NoFault = Throw e
      end.

(** ** Requests that only read *)

(** A request that leaves the store as it finds it. *)
Definition read_only {A} (q : query A) : Prop :=
  forall t d, snd (q t d) = d.

(** ** Sample inputs for the further properties *)

Definition demo_new_user : NewUser.t :=
  {| NewUser.userId := "ravi"; NewUser.name := "Ravi"; NewUser.phone := Some "";
     NewUser.type := customer; NewUser.areaId := Some 3%N;
     NewUser.serviceArea := None |}.

(** [{ name: 'Maya R' }] *)
Definition rename_user : PartialUser.t :=
  {| PartialUser.id := None; PartialUser.userId := None;
     PartialUser.name := Some "Maya R"; PartialUser.phone := None;
     PartialUser.type := None; PartialUser.areaId := None;
     PartialUser.serviceArea := None |}.

(** ** The rest of the booking form *)

(** [setInventory(inventoryItems)] *)
Definition setInventory (items : list InventoryItem.t) (s : BookingForm) : BookingForm :=
  {| cart := cart s; inventory := items |}.

(** One element of [data.map(item => ({ id: item.id, ..., vendorId: item.vendor_id }))]. *)
Definition to_inventory_item (item : inventory_items_row) : InventoryItem.t :=
  {| InventoryItem.id := i_id item;
     InventoryItem.name := i_name item;
     InventoryItem.price := i_price item;
     InventoryItem.stock := i_stock item;
     InventoryItem.description := i_description item;
     InventoryItem.vendorId := i_vendor_id item |}.

Definition loadInventory (areaId : uuid) (s : BookingForm) : async BookingForm :=
  try_catch
    (r <- getInventoryByArea areaId ;;
     match error r, data r with
     | None, Some items => ret (setInventory (map to_inventory_item items) s)
     | _, _ => ret s
     end)
    (fun _ => ret s).

(** [cartItem?.quantity || 0] *)
Definition getCartQuantity (itemId : uuid) (s : BookingForm) : Z :=
  match find (fun item => N.eqb (OrderItem.id item) itemId) (cart s) with
  | Some cartItem =>
      if (OrderItem.quantity cartItem =? 0)%Z then 0%Z else OrderItem.quantity cartItem
  | None => 0%Z
  end.

(** The sum of a list of amounts. *)
Definition sumZ (l : list Z) : Z := fold_right Z.add 0%Z l.

(** Every cart entry carries the price and the name of the inventory item
    it was added from. *)
Definition cart_priced (s : BookingForm) : Prop :=
  Forall (fun entry =>
            exists item,
              In item (inventory s) /\
              InventoryItem.id item = OrderItem.id entry /\
              InventoryItem.price item = OrderItem.price entry /\
              InventoryItem.name item = OrderItem.name entry)
    (cart s).




(** ** Submitting the booking *)

(** The component state of the booking form: the cart and the inventory,
    and the other pieces [handleSubmit] reads or sets. *)
Record Booking := {
  form : BookingForm;
  selectedAddress : option Address.t;
  deliveryDate : string;
  preferredTime : string;
  showCelebration : bool;
  loading : bool }.

Definition setLoading (v : bool) (b : Booking) : Booking :=
  {| form := form b; selectedAddress := selectedAddress b;
     deliveryDate := deliveryDate b; preferredTime := preferredTime b;
     showCelebration := showCelebration b; loading := v |}.

Definition setShowCelebration (v : bool) (b : Booking) : Booking :=
  {| form := form b; selectedAddress := selectedAddress b;
     deliveryDate := deliveryDate b; preferredTime := preferredTime b;
     showCelebration := v; loading := loading b |}.

Definition setPreferredTime (v : string) (b : Booking) : Booking :=
  {| form := form b; selectedAddress := selectedAddress b;
     deliveryDate := deliveryDate b; preferredTime := v;
     showCelebration := showCelebration b; loading := loading b |}.

Definition setForm (f : BookingForm -> BookingForm) (b : Booking) : Booking :=
  {| form := f (form b); selectedAddress := selectedAddress b;
     deliveryDate := deliveryDate b; preferredTime := preferredTime b;
     showCelebration := showCelebration b; loading := loading b |}.

(** The white space and line terminators [String.prototype.trim] strips,
    in UTF-8.  One byte: U+0009 to U+000D and U+0020. *)
Definition is_white (c : Ascii.ascii) : bool :=
  match Ascii.N_of_ascii c with
  | 9%N | 10%N | 11%N | 12%N | 13%N | 32%N => true
  | _ => false
  end.

(** Two bytes: U+00A0 (C2 A0). *)
Definition is_white2 (a b : Ascii.ascii) : bool :=
  match Ascii.N_of_ascii a, Ascii.N_of_ascii b with
  | 194%N, 160%N => true
  | _, _ => false
  end.

(** Three bytes: U+1680 (E1 9A 80); U+2000 to U+200A, U+2028, U+2029 and
    U+202F (E2 80 80 to 8A, A8, A9, AF); U+205F (E2 81 9F); U+3000
    (E3 80 80); U+FEFF (EF BB BF). *)
Definition is_white3 (a b c : Ascii.ascii) : bool :=
  match Ascii.N_of_ascii a, Ascii.N_of_ascii b, Ascii.N_of_ascii c with
  | 225%N, 154%N, 128%N => true
  | 226%N, 128%N, k =>
      (N.leb 128 k && N.leb k 138) || N.eqb k 168 || N.eqb k 169 || N.eqb k 175
  | 226%N, 129%N, 159%N => true
  | 227%N, 128%N, 128%N => true
  | 239%N, 187%N, 191%N => true
  | _, _, _ => false
  end.

(** The string without the white characters at its start, a character
    being one, two or three bytes as [w1], [w2] and [w3] say. *)
Fixpoint strip (w1 : Ascii.ascii -> bool) (w2 : Ascii.ascii -> Ascii.ascii -> bool)
    (w3 : Ascii.ascii -> Ascii.ascii -> Ascii.ascii -> bool) (s : string) : string :=
  match s with
  | EmptyString => EmptyString
  | String a r1 =>
      if w1 a then strip w1 w2 w3 r1
      else
        match r1 with
        | EmptyString => s
        | String b r2 =>
            if w2 a b then strip w1 w2 w3 r2
            else
              match r2 with
              | EmptyString => s
              | String c r3 => if w3 a b c then strip w1 w2 w3 r3 else s
              end
        end
  end.

Definition reverse (s : string) : string :=
  string_of_list_ascii (rev (list_ascii_of_string s)).

Definition trim_start (s : string) : string := strip is_white is_white2 is_white3 s.

(** From the end, the bytes of a character come last byte first. *)
Definition trim_end (s : string) : string :=
  reverse (strip is_white (fun a b => is_white2 b a) (fun a b c => is_white3 c b a)
             (reverse s)).

Definition trim (s : string) : string := trim_end (trim_start s).

(** A no-break space (U+00A0), an ideographic space (U+3000) and a byte
    order mark (U+FEFF). *)
Definition no_break_space : string :=
  String (Ascii.ascii_of_nat 194) (String (Ascii.ascii_of_nat 160) "").

Definition ideographic_space : string :=
  String (Ascii.ascii_of_nat 227)
    (String (Ascii.ascii_of_nat 128) (String (Ascii.ascii_of_nat 128) "")).

Definition byte_order_mark : string :=
  String (Ascii.ascii_of_nat 239)
    (String (Ascii.ascii_of_nat 187) (String (Ascii.ascii_of_nat 191) "")).

(** [inventory[0]?.vendorId] *)
Definition first_vendor (inv : list InventoryItem.t) : option uuid :=
  match inv with
  | [] => None
  | item :: _ => InventoryItem.vendorId item
  end.

(** The argument of [createOrder] in [handleSubmit]. *)
Definition order_of_booking (user : User.t) (address : Address.t) (vendorId : uuid)
    (b : Booking) : NewOrder.t :=
  {| NewOrder.customerId := User.id user;
     NewOrder.customerName := User.name user;
     NewOrder.customerPhone := or_else (User.phone user) "";
     NewOrder.customerUserId := User.userId user;
     NewOrder.vendorId := vendorId;
     NewOrder.vendorName := "";
     NewOrder.areaId := Address.areaId address;
     NewOrder.address := address;
     NewOrder.total := getTotalPrice (form b);
     NewOrder.status := pending;
     NewOrder.deliveryDate := deliveryDate b;
     NewOrder.preferredTime := preferredTime b;
     NewOrder.invoiceId := None;
     NewOrder.items := cart (form b) |}.

Definition failed_to_create : string := "Failed to create order. Please try again.".

(** [handleSubmit]: the form state it leaves and the alerts it raises.  The
    timer that hides the celebration again after three seconds is not
    represented. *)
Definition handleSubmit (user : option User.t) (b : Booking)
  : async (Booking * list string) :=
  match selectedAddress b, cart (form b) with
  | None, _ | Some _, [] =>
      ret (b, ["Please select an address and add items to cart"])
  | Some address, _ :: _ =>
      match trim (preferredTime b) with
      | EmptyString => ret (b, ["Please enter your preferred delivery time"])
      | _ =>
          match user with
          | None => ret (b, [])
          | Some user =>
              let b := setLoading true b in
              done <-
                try_catch
                  ((* Find vendor from inventory *)
                   match first_vendor (inventory (form b)) with
                   | None =>
                       ret (setLoading false b, ["No vendor found for this area"])
                   | Some vendorId =>
                       (* Create order *)
                       r <- createOrder (order_of_booking user address vendorId b) ;;
                       match error r with
                       | Some orderError =>
                           ret (setLoading false b, [failed_to_create])
                       | None =>
                           (* celebration animation, then clear form *)
                           ret (setPreferredTime ""
                                  (setForm (setCart [])
                                     (setShowCelebration true b)), [])
                       end
                   end)
                  (fun _ => ret (b, [failed_to_create])) ;;
              (* finally *)
              ret (setLoading false (fst done), snd done)
          end
      end
  end.

(** A booking ready to submit, and its customer. *)
Definition demo_user : User.t :=
  {| User.id := 2%N; User.name := "Maya"; User.phone := Some "555-0100";
     User.userId := "maya" |}.

Definition demo_booking : Booking :=
  {| form := cart_run demo_actions {| cart := []; inventory := demo_inventory |};
     selectedAddress := Some demo_address;
     deliveryDate := "2025-07-04";
     preferredTime := " Morning ";
     showCelebration := false;
     loading := false |}.

(** The form as first rendered over the small inventory. *)
Definition demo_form : BookingForm := {| cart := []; inventory := demo_inventory |}.

(** The form before anything is loaded. *)
Definition empty_form : BookingForm := {| cart := []; inventory := [] |}.

(** The booking of a cart, with the other fields as first rendered. *)
Definition booking_of (s : BookingForm) (address : Address.t) (date time : string)
  : Booking :=
  {| form := s; selectedAddress := Some address; deliveryDate := date;
     preferredTime := time; showCelebration := false; loading := false |}.

(** Two clicks on the stored can. *)
Definition demo_clicks : list cart_action :=
  [ AddToCart {| InventoryItem.id := 5%N; InventoryItem.name := "20L can";
                 InventoryItem.price := 2000%Z; InventoryItem.stock := 10%Z;
                 InventoryItem.description := "spring";
                 InventoryItem.vendorId := Some 1%N |};
    UpdateCartQuantity 5%N 2%Z ].

(** ** Which tables a call may write *)

Inductive table_name :=
| Users | ServiceAreas | Addresses | InventoryItems
| Orders | OrderItems | OrderMessages | Invoices.

(** The named table holds the same rows in both stores. *)
Definition same_table (n : table_name) (d d' : database) : Prop :=
  match n with
  | Users => users d' = users d
  | ServiceAreas => service_areas d' = service_areas d
  | Addresses => addresses d' = addresses d
  | InventoryItems => inventory_items d' = inventory_items d
  | Orders => orders d' = orders d
  | OrderItems => order_items d' = order_items d
  | OrderMessages => order_messages d' = order_messages d
  | Invoices => invoices d' = invoices d
  end.

(** The tables a call addresses with a write.  The delete of a user row
    cascades, by the foreign keys of the migration, to the service areas,
    addresses, inventory items and orders that refer to it, and from the
    orders to their items, messages and invoices; cascades are not
    represented, so all of these are listed for [deleteUser].  The other
    references are not cascading. *)
Definition written (c : call) : list table_name :=
  match c with
  | SignUp _ _ | SignIn _ _ | SignOut | GetCurrentUser => []
  | GetUserByUserId _ | GetServiceAreas | GetUserAddresses _
  | GetInventoryByVendor _ | GetInventoryByArea _
  | GetOrdersByCustomer _ | GetOrdersByVendor _ | GetInvoicesByVendor _ => []
  | CreateUser _ | UpdateUser _ _ => [Users]
  | DeleteUser _ =>
      [Users; ServiceAreas; Addresses; InventoryItems;
       Orders; OrderItems; OrderMessages; Invoices]
  | CreateServiceArea _ | UpdateServiceArea _ _ | DeleteServiceArea _ => [ServiceAreas]
  | CreateAddressCall _ | UpdateAddressCall _ _ | DeleteAddress _ => [Addresses]
  | CreateInventoryItem _ | UpdateInventoryItem _ _ | DeleteInventoryItem _ =>
      [InventoryItems]
  | CreateOrder _ => [Orders; OrderItems]
  | UpdateOrderStatus _ _ | UpdateOrderInvoiceId _ _ => [Orders]
  | CreateOrderMessage _ => [OrderMessages]
  | CreateInvoice _ | UpdateInvoiceStatus _ _ => [Invoices]
  end.

(** A sequence of calls, one after the other. *)
Fixpoint perform_all (calls : list call) : async unit :=
  match calls with
  | [] => ret tt
  | c :: rest => perform c ;;; perform_all rest
  end.

(** Two order rows that differ at most in [invoice_id]. *)
Definition same_but_invoice_id (before after : orders_row) : Prop :=
  o_id after = o_id before /\
  o_customer_id after = o_customer_id before /\
  o_customer_name after = o_customer_name before /\
  o_customer_phone after = o_customer_phone before /\
  o_customer_user_id after = o_customer_user_id before /\
  o_vendor_id after = o_vendor_id before /\
  o_vendor_name after = o_vendor_name before /\
  o_area_id after = o_area_id before /\
  o_address_id after = o_address_id before /\
  o_total after = o_total before /\
  o_status after = o_status before /\
  o_order_date after = o_order_date before /\
  o_delivery_date after = o_delivery_date before /\
  o_preferred_time after = o_preferred_time before.

(** Two invoice rows that differ at most in [status]. *)
Definition same_but_invoice_status (before after : invoices_row) : Prop :=
  v_id after = v_id before /\
  v_invoice_id after = v_invoice_id before /\
  v_order_id after = v_order_id before /\
  v_amount after = v_amount before /\
  v_generated_date after = v_generated_date before /\
  v_due_date after = v_due_date before.

(** A first call that creates a user and a second that delivers an order. *)
Definition demo_calls : list call :=
  [ CreateUser demo_new_user; UpdateOrderStatus 6%N delivered ].

(** ** The helper functions of the migration *)

(** [replace(s, from, to)]: every occurrence of [from], left to right and
    without overlap, gives way to [to]; [skip] counts the characters of an
    occurrence still to pass over.  An empty [from] changes nothing. *)
Fixpoint replace_from (skip : nat) (s from to : string) : string :=
  match s with
  | EmptyString => EmptyString
  | String c rest =>
      match skip with
      | S k => replace_from k rest from to
      | O =>
          if String.prefix from s
          then to ++ replace_from (String.length from - 1) rest from to
          else String c (replace_from O rest from to)
      end
  end.

Definition replace (s from to : string) : string :=
  match from with
  | EmptyString => s
  | _ => replace_from 0 s from to
  end.

(** [get_user_id_from_auth()], over the email of the session
    ([auth.email()], NULL without one).  [SELECT id INTO user_uuid] takes
    the first row the query gives and leaves NULL when it gives none. *)
Definition get_user_id_from_auth (email : option string) (d : database)
  : option uuid :=
  match email with
  | None => None
  | Some user_email =>
      (* Extract user_id from email (remove @aquaflow.local) *)
      let user_id_text := replace user_email "@aquaflow.local" "" in
      (* Find the user's UUID from the users table *)
      option_map u_id
        (find (fun row => String.eqb (u_user_id row) user_id_text) (users d))
  end.

(** [check_user_id_exists(user_id_param)] *)
Definition check_user_id_exists (user_id_param : string) (d : database) : bool :=
  existsb (fun row => String.eqb (u_user_id row) user_id_param) (users d).

(** The characters of a string. *)
Fixpoint characters (s : string) : list Ascii.ascii :=
  match s with
  | EmptyString => []
  | String c rest => c :: characters rest
  end.

Definition at_sign : Ascii.ascii := Ascii.ascii_of_nat 64.

(** ** Messages and invoices read back *)

(** A joined order with one more message at the end of its thread. *)
Definition with_message (row : order_messages_row) (details : Details.t) : Details.t :=
  {| Details.order := Details.order details;
     Details.order_items := Details.order_items details;
     Details.order_messages := Details.order_messages details ++ [row];
     Details.address := Details.address details |}.

Definition demo_message : NewOrderMessage.t :=
  {| NewOrderMessage.orderId := 6%N; NewOrderMessage.sender := customer;
     NewOrderMessage.senderName := "Maya";
     NewOrderMessage.message := "Please ring the bell" |}.

Definition demo_invoice : NewInvoice.t :=
  {| NewInvoice.id := "INV-001"; NewInvoice.orderId := 6%N;
     NewInvoice.amount := 8000%Z; NewInvoice.dueDate := "2025-08-01";
     NewInvoice.status := sent |}.

Definition demo_item : NewInventoryItem.t :=
  {| NewInventoryItem.vendorId := 1%N; NewInventoryItem.name := "5L bottle";
     NewInventoryItem.price := 700%Z; NewInventoryItem.stock := 25%Z;
     NewInventoryItem.description := None |}.

(** The columns of an invoice row other than its dates: the key, the
    invoice number, the order, the amount and the status. *)
Definition invoice_columns (row : invoices_row)
  : uuid * string * option uuid * decimal * invoice_status :=
  (v_id row, v_invoice_id row, v_order_id row, v_amount row, v_status row).

(** * Properties *)

(** ** List facts *)

Lemma find_none_not_in {A} (key : A -> uuid) (k : uuid) (l : list A) :
  find (fun x => N.eqb (key x) k) l = None -> ~ In k (map key l).
Proof.
  induction l as [|x l IH]; simpl; intros Hf Hin; [exact Hin|].
  destruct (N.eqb_spec (key x) k) as [E|E]; [discriminate|].
  destruct Hin as [Hx|Hin]; [contradiction|]. exact (IH Hf Hin).
Qed.

Lemma find_some_in {A} (p : A -> bool) (l : list A) (x : A) :
  find p l = Some x -> In x l /\ p x = true.
Proof. apply find_some. Qed.

Lemma nodup_key_eq {A} (key : A -> uuid) (l : list A) (x y : A) :
  NoDup (map key l) -> In x l -> In y l -> key x = key y -> x = y.
Proof.
  induction l as [|z l IH]; simpl; intros Hnd Hx Hy E; [contradiction|].
  inversion Hnd as [|? ? Hz Hnd']; subst.
  destruct Hx as [Hx|Hx], Hy as [Hy|Hy]; subst.
  - reflexivity.
  - exfalso. apply Hz. rewrite E. apply in_map. exact Hy.
  - exfalso. apply Hz. rewrite <- E. apply in_map. exact Hx.
  - apply IH; assumption.
Qed.

Lemma map_key_preserved {A} (key : A -> uuid) (f : A -> A) (l : list A) :
  (forall x, key (f x) = key x) -> map key (map f l) = map key l.
Proof.
  intros Hf. rewrite map_map. apply map_ext. exact Hf.
Qed.

Lemma map_filter_key {A} (key : A -> uuid) (p : uuid -> bool) (l : list A) :
  map key (filter (fun x => p (key x)) l) = filter p (map key l).
Proof.
  induction l as [|x l IH]; simpl; [reflexivity|].
  destruct (p (key x)); simpl; rewrite IH; reflexivity.
Qed.

Lemma nodup_filter {A} (p : A -> bool) (l : list A) :
  NoDup l -> NoDup (filter p l).
Proof. apply NoDup_filter. Qed.

(** ** The cart *)

Section Cart.
Variable inv : list InventoryItem.t.
Hypothesis Hinv : inventory_loaded inv.

Lemma addToCart_inventory item s : inventory (addToCart item s) = inventory s.
Proof.
  unfold addToCart.
  destruct (InventoryItem.stock item =? 0)%Z; [reflexivity|].
  destruct (find _ (cart s)); [|reflexivity].
  destruct (_ <? _)%Z; reflexivity.
Qed.

Lemma updateCartQuantity_inventory k q s :
  inventory (updateCartQuantity k q s) = inventory s.
Proof.
  unfold updateCartQuantity.
  destruct (find _ (inventory s)); [|reflexivity].
  destruct (q <=? 0)%Z; [reflexivity|].
  destruct (q <=? _)%Z; reflexivity.
Qed.

Lemma addToCart_ok item s :
  inventory s = inv -> In item inv -> cart_ok s -> cart_ok (addToCart item s).
Proof.
  intros Hs Hitem [Hnd Hall]. destruct Hinv as [Hkeys Hstock].
  assert (Hnonneg : (0 <= InventoryItem.stock item)%Z).
  { rewrite Forall_forall in Hstock. apply Hstock, Hitem. }
  unfold addToCart.
  destruct (Z.eqb_spec (InventoryItem.stock item) 0) as [Hz|Hz];
    [split; assumption|].
  destruct (find _ (cart s)) as [existing|] eqn:Hfind.
  - apply find_some_in in Hfind. destruct Hfind as [Hex Hid].
    apply N.eqb_eq in Hid.
    destruct (Z.ltb_spec (OrderItem.quantity existing) (InventoryItem.stock item))
      as [Hlt|Hge]; [|split; assumption].
    unfold cart_ok, setCart; simpl. split.
    + rewrite map_key_preserved; [exact Hnd|].
      intros x. destruct (N.eqb _ _); reflexivity.
    + rewrite Forall_forall in *. intros entry Hin.
      apply in_map_iff in Hin. destruct Hin as [old [Hold Hin]].
      destruct (N.eqb_spec (OrderItem.id old) (InventoryItem.id item)) as [E|E].
      * assert (old = existing).
        { apply (nodup_key_eq OrderItem.id (cart s)); try assumption. congruence. }
        subst old entry. exists item. rewrite Hs. simpl.
        destruct (Hall existing Hex) as [it [_ [_ Hq]]].
        repeat split; try assumption; try congruence; lia.
      * subst entry. apply Hall, Hin.
  - unfold cart_ok, setCart; simpl. split.
    + rewrite map_app. simpl.
      apply find_none_not_in in Hfind.
      apply NoDup_app; [exact Hnd|repeat constructor; simpl; tauto|].
      intros a Ha [Hb|[]]. subst. exact (Hfind Ha).
    + apply Forall_app. split; [exact Hall|].
      constructor; [|constructor].
      exists item. rewrite Hs. simpl. repeat split; try assumption; lia.
Qed.

Lemma updateCartQuantity_ok k q s :
  inventory s = inv -> cart_ok s -> cart_ok (updateCartQuantity k q s).
Proof.
  intros Hs [Hnd Hall]. unfold updateCartQuantity.
  destruct (find _ (inventory s)) as [found|] eqn:Hfind; [|split; assumption].
  apply find_some_in in Hfind. destruct Hfind as [Hfound Hid].
  apply N.eqb_eq in Hid.
  destruct (Z.leb_spec q 0) as [Hq|Hq].
  - unfold cart_ok, setCart; simpl. split.
    + rewrite (map_filter_key OrderItem.id (fun x => negb (N.eqb x k))).
      apply nodup_filter, Hnd.
    + rewrite Forall_forall in *. intros entry Hin.
      apply filter_In in Hin. apply Hall, Hin.
  - destruct (Z.leb_spec q (InventoryItem.stock found)) as [Hle|Hgt];
      [|split; assumption].
    unfold cart_ok, setCart; simpl. split.
    + rewrite map_key_preserved; [exact Hnd|].
      intros x. destruct (N.eqb _ _); reflexivity.
    + rewrite Forall_forall in *. intros entry Hin.
      apply in_map_iff in Hin. destruct Hin as [old [Hold Hin]].
      destruct (N.eqb_spec (OrderItem.id old) k) as [E|E].
      * subst entry. exists found. simpl.
        repeat split; try assumption; try congruence; lia.
      * subst entry. apply Hall, Hin.
Qed.

Lemma cart_step_order_kept s a :
  order_kept (map OrderItem.id (cart s)) (map OrderItem.id (cart (cart_step s a))).
Proof.
  destruct a as [item|k q]; simpl.
  - unfold addToCart.
    destruct (InventoryItem.stock item =? 0)%Z; [left; reflexivity|].
    destruct (find _ (cart s)) as [existing|] eqn:Hfind.
    + destruct (_ <? _)%Z; [|left; reflexivity].
      left. simpl. apply map_key_preserved.
      intros x. destruct (N.eqb _ _); reflexivity.
    + right; left. exists (InventoryItem.id item). split.
      * apply find_none_not_in with (key := OrderItem.id). exact Hfind.
      * simpl. rewrite map_app. reflexivity.
  - unfold updateCartQuantity.
    destruct (find _ (inventory s)); [|left; reflexivity].
    destruct (q <=? 0)%Z.
    + right; right. exists k. simpl.
      apply (map_filter_key OrderItem.id (fun x => negb (N.eqb x k))).
    + destruct (q <=? _)%Z; [|left; reflexivity].
      left. simpl. apply map_key_preserved.
      intros x. destruct (N.eqb _ _); reflexivity.
Qed.

Lemma cart_run_ok actions :
  forall s, inventory s = inv -> actions_on inv actions -> cart_ok s ->
            inventory (cart_run actions s) = inv /\ cart_ok (cart_run actions s).
Proof.
  induction actions as [|a rest IH]; intros s Hs Hacts Hok; [split; assumption|].
  apply Forall_cons_iff in Hacts. destruct Hacts as [Ha Hrest]. simpl.
  destruct a as [item|k q]; simpl.
  - apply IH; [rewrite addToCart_inventory; exact Hs|exact Hrest|].
    apply addToCart_ok; assumption.
  - apply IH; [rewrite updateCartQuantity_inventory; exact Hs|exact Hrest|].
    apply updateCartQuantity_ok; assumption.
Qed.
End Cart.

(** C9, as stated, fails: the stock as loaded can be negative, [addToCart]
    refuses a stock of 0 only, and a click on an item loaded with stock -1
    puts it in the cart with quantity 1, above its stock. *)
Lemma negative_stock_enters_the_cart :
  let s := cart_run [AddToCart overdrawn_can]
             {| cart := []; inventory := [overdrawn_can] |} in
  actions_on [overdrawn_can] [AddToCart overdrawn_can] /\
  map (fun entry => (OrderItem.id entry, OrderItem.quantity entry)) (cart s)
  = [(9%N, 1%Z)] /\
  (InventoryItem.stock overdrawn_can < 1)%Z /\
  ~ cart_ok s.
Proof.
  split; [repeat constructor|]. split; [reflexivity|]. split; [reflexivity|].
  intros [_ H]. simpl in H. inversion H as [|? ? [item [Hin [_ Hq]]] _]; subst.
  destruct Hin as [E|[]]. subst item. simpl in Hq. lia.
Qed.

(** C9, amended.  Starting from the empty cart over a loaded inventory whose
    stocks are not negative (and whose keys are unique, as those of a
    primary key are), after any sequence of [addToCart] clicks on inventory
    items and [updateCartQuantity] calls: the cart has at most one entry per
    inventory item, and every entry's quantity is at least 1 and at most the
    stock of its inventory item as loaded; an update to a quantity of zero
    or less removes the entry; and any further action leaves the order of
    the entries as first added (it changes no key, appends one new key at
    the end, or drops one key). *)
Theorem cart_within_stock_and_ordered :
  forall inv actions,
    inventory_loaded inv ->
    actions_on inv actions ->
    let s := cart_run actions {| cart := []; inventory := inv |} in
    cart_ok s /\
    inventory s = inv /\
    (forall k q, In k (map InventoryItem.id inv) -> (q <= 0)%Z ->
                 ~ In k (map OrderItem.id (cart (updateCartQuantity k q s)))) /\
    (forall a, order_kept (map OrderItem.id (cart s))
                 (map OrderItem.id (cart (cart_step s a)))).
Proof.
  intros inv actions Hinv Hacts s.
  destruct (cart_run_ok inv Hinv actions {| cart := []; inventory := inv |})
    as [Hs Hok]; try assumption; try reflexivity.
  { split; simpl; constructor. }
  fold s in Hs, Hok. repeat split; try apply Hok; try exact Hs.
  - intros k q Hk Hq. unfold updateCartQuantity. rewrite Hs.
    destruct (find _ inv) as [found|] eqn:Hfind.
    + destruct (Z.leb_spec q 0); [|lia]. simpl.
      rewrite (map_filter_key OrderItem.id (fun x => negb (N.eqb x k))).
      intros Hin. apply filter_In in Hin. destruct Hin as [_ Hne].
      rewrite N.eqb_refl in Hne. discriminate.
    + exfalso. apply (find_none_not_in InventoryItem.id k inv Hfind Hk).
  - apply cart_step_order_kept.
Qed.

Example demo_cart_run :
  map (fun e => (OrderItem.id e, OrderItem.quantity e))
    (cart (cart_run demo_actions {| cart := []; inventory := demo_inventory |}))
  = [(1%N, 1%Z)].
Proof. reflexivity. Qed.

Lemma cart_within_stock_and_ordered_witness :
  inventory_loaded demo_inventory /\
  actions_on demo_inventory demo_actions /\
  cart_ok (cart_run demo_actions {| cart := []; inventory := demo_inventory |}).
Proof.
  assert (H1 : inventory_loaded demo_inventory).
  { split; simpl.
    - repeat constructor; simpl; intuition discriminate.
    - repeat constructor; simpl; lia. }
  assert (H2 : actions_on demo_inventory demo_actions).
  { unfold actions_on, demo_actions, demo_inventory, demo_can.
    repeat constructor. }
  split; [exact H1|]. split; [exact H2|].
  apply (cart_within_stock_and_ordered demo_inventory demo_actions H1 H2).
Defined.

(** ** Remote calls and the shape of the access functions *)

Lemma Forall2_map_self {A} (R : A -> A -> Prop) (f : A -> A) (l : list A) :
  (forall x, R x (f x)) -> Forall2 R l (map f l).
Proof.
  intros H. induction l as [|x l IH]; simpl; constructor; auto.
Qed.

Lemma Forall2_same {A} (R : A -> A -> Prop) (l : list A) :
  (forall x, R x x) -> Forall2 R l l.
Proof.
  intros H. induction l as [|x l IH]; constructor; auto.
Qed.

(** A function of the common shape
    [try { const r = await call; return g(r) } catch (err) { ... }]
    leaves the world as its one remote call leaves it. *)
Lemma one_call_world {A B} (m : async A) (g : A -> B) (h : err -> async B) w :
  (forall e w0, snd (h e w0) = w0) ->
  snd (try_catch (r <- m ;; ret (g r)) h w) = snd (m w).
Proof.
  intros Hh. unfold try_catch, bind, ret.
  destruct (m w) as [[a|e] w']; simpl; [reflexivity|apply Hh].
Qed.

Lemma caught_world {A} e w : snd (@caught A e w) = w.
Proof. reflexivity. Qed.

(** What one awaited update-by-filter does to the store: nothing (the call
    failed, or [.single()] refused the row count), or the update. *)
Lemma await_single_update_db {R} (t : table R) (p : R -> bool) (f : R -> R) w :
  let w' := snd (await (single (update t p f)) w) in
  db w' = db w \/
  db w' = put_rows t (map (fun r => if p r then f r else r) (rows t (db w))) (db w).
Proof.
  unfold await, single, update. destruct (next_fault w); simpl; auto.
  destruct (map f (filter p (rows t (db w)))) as [|x [|y l]]; simpl; auto.
Qed.

(** ** [updateOrderStatus] *)

Lemma status_only_same_but_status status row :
  same_but_status row (apply_orders_patch (status_only status) row).
Proof. unfold same_but_status; simpl; repeat split. Qed.

Lemma same_but_status_refl row : same_but_status row row.
Proof. unfold same_but_status; repeat split. Qed.

(** C10.  [updateOrderStatus] writes the [status] column only, and only in
    the order with the given id: whatever the status and whatever happens to
    the remote call, every other table is left as it was, an order with
    another id is left as it was, and the order with the given id keeps its
    total, customer and vendor references, area and address references,
    invoice reference, dates and preferred time; its status is the old one or
    the one supplied. *)
Theorem updateOrderStatus_writes_status_only :
  forall id status w,
    let w' := snd (updateOrderStatus id status w) in
    same_but_orders (db w) (db w') /\
    Forall2
      (fun before after =>
         same_but_status before after /\
         (o_id before <> id -> after = before) /\
         (o_status after = o_status before \/ o_status after = status))
      (orders (db w)) (orders (db w')).
Proof.
  intros id status w w'. subst w'. unfold updateOrderStatus.
  rewrite one_call_world by (intros; apply caught_world).
  destruct (await_single_update_db orders_t (fun row => N.eqb (o_id row) id)
              (apply_orders_patch (status_only status)) w) as [H|H];
    rewrite H; simpl.
  - split; [repeat split|].
    apply Forall2_same. intros x.
    split; [apply same_but_status_refl|]. split; auto.
  - split; [repeat split|].
    apply Forall2_map_self. intros x.
    destruct (N.eqb_spec (o_id x) id) as [E|E].
    + split; [apply status_only_same_but_status|].
      split; [intros Hne; contradiction|]. right. reflexivity.
    + split; [apply same_but_status_refl|]. split; auto.
Qed.

Example updateOrderStatus_run :
  let '(result, w') := updateOrderStatus 6%N delivered (demo_world []) in
  option_map o_status (match result with Returned r => data r | Thrown _ => None end)
  = Some delivered /\
  map (fun row => (o_id row, o_status row, o_total row)) (orders (db w'))
  = [ (6%N, delivered, 8000%Z) ] /\
  fst (updateOrderStatus 99%N delivered (demo_world []))
  = Returned (failed PGRST116).
Proof. repeat split. Qed.

(** ** Properties kept by every step of a computation *)

Section Keeps.
Variable I : world -> Prop.

Lemma keeps_ret {A} (a : A) : keeps I (ret a).
Proof. intros w H. exact H. Qed.

Lemma keeps_bind {A B} (m : async A) (k : A -> async B) :
  keeps I m -> (forall a, keeps I (k a)) -> keeps I (bind m k).
Proof.
  intros Hm Hk w H. unfold bind. specialize (Hm w H).
  destruct (m w) as [[a|e] w']; simpl in *; [apply Hk; exact Hm|exact Hm].
Qed.

Lemma keeps_try_catch {A} (body : async A) (h : err -> async A) :
  keeps I body -> (forall e, keeps I (h e)) -> keeps I (try_catch body h).
Proof.
  intros Hb Hh w H. unfold try_catch. specialize (Hb w H).
  destruct (body w) as [[a|e] w']; simpl in *; [exact Hb|apply Hh; exact Hb].
Qed.

Lemma keeps_caught {A} e : keeps I (@caught A e).
Proof. apply keeps_ret. Qed.

Lemma keeps_await {A} (q : query A) :
  (forall w, I w -> I (after_call w (db w) (auth w))) ->
  (forall w, I w -> next_fault w = NoFault ->
             I (after_call w (snd (q (now w) (db w))) (auth w))) ->
  keeps I (await q).
Proof.
  intros Hsame Hq w H. unfold await.
  destruct (next_fault w) eqn:Hf; simpl; try (apply Hsame; exact H).
  specialize (Hq w H Hf). destruct (q (now w) (db w)); exact Hq.
Qed.

Lemma keeps_for_each {A} (f : A -> async unit) (l : list A) :
  (forall x, keeps I (f x)) -> keeps I (for_each f l).
Proof.
  intros Hf. induction l as [|x l IH]; simpl; [apply keeps_ret|].
  apply keeps_bind; [apply Hf|]. intros _. exact IH.
Qed.
End Keeps.

(** A property of the store alone is kept by a remote call as soon as the
    request keeps it. *)
Lemma keeps_await_db {A} (J : database -> Prop) (q : query A) :
  (forall t d, J d -> J (snd (q t d))) ->
  keeps (fun w => J (db w)) (await q).
Proof.
  intros Hq. apply keeps_await; intros w H; simpl; auto.
Qed.

Lemma single_db {R} (J : database -> Prop) (q : query (list R)) :
  (forall t d, J d -> J (snd (q t d))) ->
  forall t d, J d -> J (snd (single q t d)).
Proof.
  intros Hq t d H. unfold single. specialize (Hq t d H).
  destruct (q t d) as [r d']. destruct (data r) as [[|x [|y l]]|]; simpl; auto.
Qed.

Lemma minimal_db {R} (J : database -> Prop) (q : query (list R)) :
  (forall t d, J d -> J (snd (q t d))) ->
  forall t d, J d -> J (snd (minimal q t d)).
Proof.
  intros Hq t d H. unfold minimal. specialize (Hq t d H).
  destruct (q t d) as [r d']. exact Hq.
Qed.

Lemma newest_first_db {R} (J : database -> Prop) (q : query (list R)) :
  (forall t d, J d -> J (snd (q t d))) ->
  forall t d, J d -> J (snd (newest_first q t d)).
Proof.
  intros Hq t d H. unfold newest_first. specialize (Hq t d H).
  destruct (q t d) as [r d']. exact Hq.
Qed.

Lemma select_db {R} (J : database -> Prop) (t : table R) p :
  forall n d, J d -> J (snd (select t p n d)).
Proof. intros n d H. exact H. Qed.

(** ** Partial updates *)

Lemma updateUser_step_keeps updates x y :
  updateUser_keeps updates x y ->
  updateUser_keeps updates x (apply_users_patch (updateUser_updateData updates) y).
Proof.
  unfold updateUser_keeps, kept. intros H. simpl.
  repeat match goal with H : _ /\ _ |- _ => destruct H end.
  repeat split; try assumption; intros E; rewrite E; simpl; auto.
Qed.

Lemma updateServiceArea_step_keeps updates x y :
  updateServiceArea_keeps updates x y ->
  updateServiceArea_keeps updates x
    (apply_service_areas_patch (updateServiceArea_updateData updates) y).
Proof.
  unfold updateServiceArea_keeps, kept. intros H. simpl.
  repeat match goal with H : _ /\ _ |- _ => destruct H end.
  repeat split; try assumption; intros E; rewrite E; simpl; auto.
Qed.

Lemma updateInventoryItem_step_keeps updates x y :
  updateInventoryItem_keeps updates x y ->
  updateInventoryItem_keeps updates x
    (apply_inventory_items_patch (updateInventoryItem_updateData updates) y).
Proof.
  unfold updateInventoryItem_keeps, kept. intros H. simpl.
  repeat match goal with H : _ /\ _ |- _ => destruct H end.
  repeat split; try assumption; intros E; rewrite E; simpl; auto.
Qed.

Lemma updateAddress_step_keeps updates x y :
  updateAddress_keeps updates x y ->
  updateAddress_keeps updates x
    (apply_addresses_patch (updateAddress_updateData updates) y).
Proof.
  unfold updateAddress_keeps, kept. intros H. simpl.
  repeat match goal with H : _ /\ _ |- _ => destruct H end.
  repeat split; try assumption; intros E; rewrite E; simpl; auto.
Qed.

Lemma updateAddress_unset_keeps updates x y :
  PartialAddress.isDefault updates <> None ->
  updateAddress_keeps updates x y ->
  updateAddress_keeps updates x (apply_addresses_patch unset_default y).
Proof.
  unfold updateAddress_keeps, kept. intros Hd H. simpl.
  repeat match goal with H : _ /\ _ |- _ => destruct H end.
  repeat split; try assumption. intros E. contradiction.
Qed.

Lemma Forall2_update_step {R} (Rel : R -> R -> Prop) (p : R -> bool) (f : R -> R)
    (l0 l : list R) :
  (forall x y, Rel x y -> Rel x (f y)) ->
  Forall2 Rel l0 l ->
  Forall2 Rel l0 (map (fun r => if p r then f r else r) l).
Proof.
  intros Hf H. induction H as [|x y l0 l Hxy _ IH]; simpl; constructor; auto.
  destruct (p y); auto.
Qed.

Lemma updateUser_keeps_refl updates x : updateUser_keeps updates x x.
Proof. unfold updateUser_keeps, kept. repeat split. Qed.

Lemma updateServiceArea_keeps_refl updates x : updateServiceArea_keeps updates x x.
Proof. unfold updateServiceArea_keeps, kept. repeat split. Qed.

Lemma updateAddress_keeps_refl updates x : updateAddress_keeps updates x x.
Proof. unfold updateAddress_keeps, kept. repeat split. Qed.

Lemma updateInventoryItem_keeps_refl updates x : updateInventoryItem_keeps updates x x.
Proof. unfold updateInventoryItem_keeps, kept. repeat split. Qed.

Lemma option_map_present {A} (x : option A) : option_map Some x <> None -> x <> None.
Proof. destruct x; simpl; congruence. Qed.

Lemma updateUser_frame id updates w :
  Forall2 (updateUser_keeps updates) (users (db w))
    (users (db (snd (updateUser id updates w)))).
Proof.
  unfold updateUser. rewrite one_call_world by (intros; apply caught_world).
  destruct (await_single_update_db users_t (fun row => N.eqb (u_id row) id)
              (apply_users_patch (updateUser_updateData updates)) w) as [H|H];
    rewrite H; simpl.
  - apply Forall2_same, updateUser_keeps_refl.
  - apply Forall2_update_step; [apply updateUser_step_keeps|].
    apply Forall2_same, updateUser_keeps_refl.
Qed.

Lemma updateServiceArea_frame id updates w :
  Forall2 (updateServiceArea_keeps updates) (service_areas (db w))
    (service_areas (db (snd (updateServiceArea id updates w)))).
Proof.
  unfold updateServiceArea. rewrite one_call_world by (intros; apply caught_world).
  destruct (await_single_update_db service_areas_t (fun row => N.eqb (sa_id row) id)
              (apply_service_areas_patch (updateServiceArea_updateData updates)) w)
    as [H|H]; rewrite H; simpl.
  - apply Forall2_same, updateServiceArea_keeps_refl.
  - apply Forall2_update_step; [apply updateServiceArea_step_keeps|].
    apply Forall2_same, updateServiceArea_keeps_refl.
Qed.

Lemma updateInventoryItem_frame id updates w :
  Forall2 (updateInventoryItem_keeps updates) (inventory_items (db w))
    (inventory_items (db (snd (updateInventoryItem id updates w)))).
Proof.
  unfold updateInventoryItem. rewrite one_call_world by (intros; apply caught_world).
  destruct (await_single_update_db inventory_items_t (fun row => N.eqb (i_id row) id)
              (apply_inventory_items_patch (updateInventoryItem_updateData updates)) w)
    as [H|H]; rewrite H; simpl.
  - apply Forall2_same, updateInventoryItem_keeps_refl.
  - apply Forall2_update_step; [apply updateInventoryItem_step_keeps|].
    apply Forall2_same, updateInventoryItem_keeps_refl.
Qed.

Lemma updateAddress_keeps_frame id updates l0 :
  keeps (fun w => Forall2 (updateAddress_keeps updates) l0 (addresses (db w)))
    (updateAddress id updates).
Proof.
  set (J := fun d => Forall2 (updateAddress_keeps updates) l0 (addresses d)).
  change (keeps (fun w => J (db w)) (updateAddress id updates)).
  unfold updateAddress.
  apply keeps_try_catch; [|intros e; apply keeps_caught].
  apply keeps_bind.
  - destruct (PartialAddress.isDefault updates) as [[|]|] eqn:Hd;
      try apply keeps_ret.
    apply keeps_bind.
    + apply keeps_await_db. apply single_db. apply select_db.
    + intros found. destruct (data found) as [address|]; [|apply keeps_ret].
      destruct (a_user_id address) as [owner|];
        (apply keeps_bind; [|intros; apply keeps_ret]);
        apply keeps_await_db; apply minimal_db; intros t d H;
        unfold J in *; simpl;
        [ apply Forall2_update_step; [|exact H];
          intros x y; apply updateAddress_unset_keeps; congruence
        | rewrite map_id; exact H ].
  - intros _. apply keeps_bind; [|intros; apply keeps_ret].
    apply keeps_await_db. apply single_db. intros t d H.
    unfold J in *; simpl.
    apply Forall2_update_step; [|exact H].
    intros x y. apply updateAddress_step_keeps.
Qed.

Lemma updateAddress_frame id updates w :
  Forall2 (updateAddress_keeps updates) (addresses (db w))
    (addresses (db (snd (updateAddress id updates w)))).
Proof.
  apply (updateAddress_keeps_frame id updates (addresses (db w)) w).
  apply Forall2_same, updateAddress_keeps_refl.
Qed.

(** C6.  Each update function ([updateUser], [updateServiceArea],
    [updateAddress], [updateInventoryItem]), for every partial input, puts a
    key in the payload it writes only if the input has the field, and after
    the call every row of the table still has its stored value in each
    column whose field the input leaves out: an absent field is never
    overwritten, with null or otherwise. *)
Theorem partial_updates_keep_absent_fields :
  (forall id updates w,
      updateUser_payload updates (updateUser_updateData updates) /\
      Forall2 (updateUser_keeps updates) (users (db w))
        (users (db (snd (updateUser id updates w))))) /\
  (forall id updates w,
      updateServiceArea_payload updates (updateServiceArea_updateData updates) /\
      Forall2 (updateServiceArea_keeps updates) (service_areas (db w))
        (service_areas (db (snd (updateServiceArea id updates w))))) /\
  (forall id updates w,
      updateAddress_payload updates (updateAddress_updateData updates) /\
      Forall2 (updateAddress_keeps updates) (addresses (db w))
        (addresses (db (snd (updateAddress id updates w))))) /\
  (forall id updates w,
      updateInventoryItem_payload updates (updateInventoryItem_updateData updates) /\
      Forall2 (updateInventoryItem_keeps updates) (inventory_items (db w))
        (inventory_items (db (snd (updateInventoryItem id updates w))))).
Proof.
  repeat split;
    unfold written_only_if_present; simpl;
    try apply option_map_present; try (intros H; exact H);
    first [ apply updateUser_frame | apply updateServiceArea_frame
          | apply updateAddress_frame | apply updateInventoryItem_frame ].
Qed.

(** ** Composite reads *)

(** C7.  When the orders query succeeds and matches no row,
    [getOrdersByVendor] answers [{ data: [], error: null }]: an empty list,
    not null and not an error; and likewise [getOrdersByCustomer]. *)
Theorem no_orders_is_empty_list :
  forall w,
    next_fault w = NoFault ->
    (forall vendorId,
        filter (fun row => is_id (o_vendor_id row) vendorId) (orders (db w)) = [] ->
        getOrdersByVendor vendorId w
        = (Returned {| data := Some []; error := None |},
           after_call w (db w) (auth w))) /\
    (forall customerId,
        filter (fun row => is_id (o_customer_id row) customerId) (orders (db w)) = [] ->
        getOrdersByCustomer customerId w
        = (Returned {| data := Some []; error := None |},
           after_call w (db w) (auth w))).
Proof.
  intros w Hf. split; intros k Hnone;
    [unfold getOrdersByVendor | unfold getOrdersByCustomer];
    unfold try_catch, bind, await, newest_first, select; rewrite Hf; simpl;
    rewrite Hnone; reflexivity.
Qed.

Lemma no_orders_is_empty_list_witness :
  next_fault (demo_world []) = NoFault /\
  filter (fun row => is_id (o_vendor_id row) 2%N) (orders (db (demo_world []))) = [] /\
  getOrdersByVendor 2%N (demo_world [])
  = (Returned {| data := Some []; error := None |},
     after_call (demo_world []) (db (demo_world [])) (auth (demo_world []))).
Proof.
  split; [reflexivity|]. split; [reflexivity|].
  apply (proj1 (no_orders_is_empty_list (demo_world []) eq_refl) 2%N).
  reflexivity.
Defined.

(** ** [createOrder] *)

(** C4.  When the vendor-name lookup does not throw, the Order insert
    succeeds and the OrderItem insert then fails (with an error result or by
    throwing), [createOrder] answers [{ data: null, error }] with that error,
    and the store holds the inserted Order row at the end of [orders] and no
    new OrderItem: nothing deletes the row again. *)
Theorem createOrder_keeps_order_when_items_fail :
  forall orderData w f0 f2 e rest,
    script w = f0 :: NoFault :: f2 :: rest ->
    (forall e0, f0 <> Throw e0) ->
    f2 = RetErr e \/ f2 = Throw e ->
    NewOrder.items orderData <> [] ->
    exists vendor w',
      createOrder orderData w
      = (Returned {| data := None; error := Some e |}, w') /\
      orders (db w')
      = orders (db w)
          ++ [new_order_row orderData vendor (next_id (db w)) (S (now w))] /\
      order_items (db w') = order_items (db w).
Proof.
  intros orderData [d a n s] f0 f2 e rest Hs Hf0 Hf2 Hitems.
  simpl in Hs. subst s.
  destruct (NewOrder.items orderData) as [|item items] eqn:Hi; [contradiction|].
  unfold createOrder, try_catch, bind, await, next_fault, after_call; simpl.
  destruct f0 as [|e0|e0]; [| |exfalso; exact (Hf0 e0 eq_refl)]; simpl.
  - unfold single at 1, select; simpl.
    destruct (filter _ (users d)) as [|v [|v' l]] eqn:Hv; simpl;
      rewrite Hi; simpl;
      destruct Hf2 as [Hf2|Hf2]; subst f2; simpl;
      eexists _, _; (split; [reflexivity|split; reflexivity]).
  - rewrite Hi; simpl.
    destruct Hf2 as [Hf2|Hf2]; subst f2; simpl;
      eexists _, _; (split; [reflexivity|split; reflexivity]).
Qed.

Example createOrder_items_fail_run :
  let '(result, w') :=
    createOrder demo_order (demo_world [NoFault; NoFault; RetErr fetch_failed]) in
  result = Returned {| data := None; error := Some fetch_failed |} /\
  map o_id (orders (db w')) = [6%N; 8%N] /\
  map oi_id (order_items (db w')) = [7%N].
Proof. repeat split. Qed.

Lemma createOrder_keeps_order_when_items_fail_witness :
  script (demo_world [NoFault; NoFault; RetErr fetch_failed])
  = NoFault :: NoFault :: RetErr fetch_failed :: [] /\
  NewOrder.items demo_order <> [] /\
  exists vendor w',
    createOrder demo_order (demo_world [NoFault; NoFault; RetErr fetch_failed])
    = (Returned {| data := None; error := Some fetch_failed |}, w') /\
    orders (db w')
    = orders demo_store ++ [new_order_row demo_order vendor 8%N 2] /\
    order_items (db w') = order_items demo_store.
Proof.
  split; [reflexivity|]. split; [discriminate|].
  apply (createOrder_keeps_order_when_items_fail demo_order
           (demo_world [NoFault; NoFault; RetErr fetch_failed])
           NoFault (RetErr fetch_failed) fetch_failed []).
  - reflexivity.
  - discriminate.
  - left; reflexivity.
  - discriminate.
Defined.

(** ** Running a computation backwards *)

Lemma ret_inv {A} (a : A) w o w' :
  ret a w = (o, w') -> o = Returned a /\ w' = w.
Proof. unfold ret. intros H. inversion H. auto. Qed.

Lemma throw_inv {A} e w (o : outcome A) w' :
  throw e w = (o, w') -> o = Thrown e /\ w' = w.
Proof. unfold throw. intros H. inversion H. auto. Qed.

Lemma bind_inv {A B} (m : async A) (k : A -> async B) w o w' :
  bind m k w = (o, w') ->
  (exists a w1, m w = (Returned a, w1) /\ k a w1 = (o, w')) \/
  (exists e, m w = (Thrown e, w') /\ o = Thrown e).
Proof.
  unfold bind. destruct (m w) as [[a|e] w1]; intros H.
  - left. eauto.
  - right. inversion H. eauto.
Qed.

Lemma try_catch_inv {A} (body : async A) (h : err -> async A) w o w' :
  try_catch body h w = (o, w') ->
  (exists a, body w = (Returned a, w') /\ o = Returned a) \/
  (exists e w1, body w = (Thrown e, w1) /\ h e w1 = (o, w')).
Proof.
  unfold try_catch. destruct (body w) as [[a|e] w1]; intros H.
  - left. inversion H. eauto.
  - right. eauto.
Qed.

Lemma await_inv {A} (q : query A) w o w' :
  await q w = (o, w') ->
  (exists r d', next_fault w = NoFault /\ q (now w) (db w) = (r, d') /\
                o = Returned r /\ w' = after_call w d' (auth w)) \/
  (exists e, next_fault w = RetErr e /\ o = Returned (failed e) /\
             w' = after_call w (db w) (auth w)) \/
  (exists e, next_fault w = Throw e /\ o = Thrown e /\
             w' = after_call w (db w) (auth w)).
Proof.
  unfold await. destruct (next_fault w) as [|e|e]; intros H.
  - left. destruct (q (now w) (db w)) as [r d']. inversion H. eauto 8.
  - right; left. inversion H. eauto.
  - right; right. inversion H. eauto.
Qed.

(** The requests, evaluated. *)
Lemma single_select_eq {R} (t : table R) p n d :
  single (select t p) n d
  = (match filter p (rows t d) with
     | [x] => ok x
     | _ => failed PGRST116
     end, d).
Proof.
  unfold single, select; simpl.
  destruct (filter p (rows t d)) as [|x [|y l]]; reflexivity.
Qed.

Lemma single_insert_eq {R} (t : table R) mk n d :
  single (insert t [mk]) n d
  = (ok (mk (next_id d) n),
     set_next_id (next_id d + 1)%N
       (put_rows t (rows t d ++ [mk (next_id d) n]) d)).
Proof. reflexivity. Qed.

Lemma minimal_insert_eq {R} (t : table R) mks n d :
  minimal (insert t mks) n d
  = ({| data := None; error := None |},
     set_next_id (next_id d + N.of_nat (List.length mks))%N
       (put_rows t (rows t d ++ fresh_rows mks (next_id d) n) d)).
Proof. reflexivity. Qed.

Lemma minimal_update_eq {R} (t : table R) p f n d :
  minimal (update t p f) n d
  = ({| data := None; error := None |},
     put_rows t (map (fun r => if p r then f r else r) (rows t d)) d).
Proof. reflexivity. Qed.

Lemma single_update_eq {R} (t : table R) p f n d :
  single (update t p f) n d
  = match map f (filter p (rows t d)) with
    | [x] => (ok x, put_rows t (map (fun r => if p r then f r else r) (rows t d)) d)
    | _ => (failed PGRST116, d)
    end.
Proof.
  unfold single, update; simpl.
  destruct (map f (filter p (rows t d))) as [|x [|y l]]; reflexivity.
Qed.

Lemma newest_first_select_eq {R} (t : table R) p n d :
  newest_first (select t p) n d = (ok (rev (filter p (rows t d))), d).
Proof. reflexivity. Qed.

Lemma select_eq {R} (t : table R) p n d :
  select t p n d = (ok (filter p (rows t d)), d).
Proof. reflexivity. Qed.

Create Rewrite HintDb requests.

#[local] Hint Rewrite @single_select_eq @single_insert_eq @minimal_insert_eq
  @minimal_update_eq @single_update_eq @newest_first_select_eq @select_eq
  : requests.

Ltac inv_pair H := inversion H; clear H; subst.

Ltac inv_run :=
  repeat
    (match goal with
     | H : ret _ _ = (_, _) |- _ =>
         apply ret_inv in H; destruct H as [? ?]; subst
     | H : caught _ _ = (_, _) |- _ =>
         apply ret_inv in H; destruct H as [? ?]; subst
     | H : caught_error _ _ = (_, _) |- _ =>
         apply ret_inv in H; destruct H as [? ?]; subst
     | H : throw _ _ = (_, _) |- _ =>
         apply throw_inv in H; destruct H as [? ?]; subst
     | H : bind _ _ _ = (_, _) |- _ =>
         apply bind_inv in H; destruct H as [[? [? [? ?]]]|[? [? ?]]]
     | H : try_catch _ _ _ = (_, _) |- _ =>
         apply try_catch_inv in H; destruct H as [[? [? ?]]|[? [? [? ?]]]]
     | H : await _ _ = (_, _) |- _ =>
         apply await_inv in H;
         destruct H as [[? [? [? [? [? ?]]]]]|[[? [? [? ?]]]|[? [? [? ?]]]]]
     | H : Returned _ = Returned _ |- _ => inv_pair H
     | H : Thrown _ = Thrown _ |- _ => inv_pair H
     | H : Returned _ = Thrown _ |- _ => discriminate H
     | H : Thrown _ = Returned _ |- _ => discriminate H
     | H : (_, _) = (_, _) |- _ => inv_pair H
     | H : (match ?x with _ => _ end) _ = (_, _) |- _ => destruct x eqn:?
     | H : (if ?b then _ else _) _ = (_, _) |- _ => destruct b eqn:?
     | H : match ?x with _ => _ end = (_, _) |- _ => destruct x eqn:?
     end; autorewrite with requests in *; simpl in * ).

(** ** [createOrder]: rows and prices *)

Lemma fresh_rows_items order items k t :
  map oi_price (fresh_rows (map (new_order_item_row order) items) k t)
  = map OrderItem.price items /\
  Forall (fun row => oi_order_id row = Some (o_id order))
    (fresh_rows (map (new_order_item_row order) items) k t).
Proof.
  revert k. induction items as [|i items IH]; intros k; simpl.
  - split; [reflexivity|constructor].
  - destruct (IH (N.succ k)) as [Hp Ho]. split.
    + rewrite Hp. reflexivity.
    + constructor; [reflexivity|exact Ho].
Qed.

Lemma filter_all {A} (p : A -> bool) (l : list A) :
  Forall (fun x => p x = true) l -> filter p l = l.
Proof.
  induction 1 as [|x l Hx _ IH]; simpl; [reflexivity|].
  rewrite Hx, IH. reflexivity.
Qed.

Lemma filter_none {A} (p : A -> bool) (l : list A) :
  Forall (fun x => p x = false) l -> filter p l = [].
Proof.
  induction 1 as [|x l Hx _ IH]; simpl; [reflexivity|].
  rewrite Hx, IH. reflexivity.
Qed.

(** A successful [createOrder] gives the order the next key and appends one
    row per line item to [order_items]. *)
Lemma createOrder_success orderData w order w' :
  createOrder orderData w = (Returned {| data := Some order; error := None |}, w') ->
  o_id order = next_id (db w) /\
  exists k t,
    order_items (db w')
    = order_items (db w)
        ++ fresh_rows (map (new_order_item_row order) (NewOrder.items orderData)) k t.
Proof.
  unfold createOrder. intros H. inv_run.
  all: try discriminate.
  all: split; [reflexivity|].
  all: try (eexists _, _; reflexivity).
  all: destruct (NewOrder.items orderData); [|discriminate].
  all: exists 0%N, 0; simpl; rewrite app_nil_r; reflexivity.
Qed.

Lemma updateInventoryItem_keeps_order_items id updates l :
  keeps (fun w => order_items (db w) = l) (updateInventoryItem id updates).
Proof.
  unfold updateInventoryItem.
  apply keeps_try_catch; [|intros e; apply keeps_caught].
  apply keeps_bind; [|intros; apply keeps_ret].
  apply (keeps_await_db (fun d => order_items d = l)).
  apply (single_db (fun d => order_items d = l)). intros t d H. exact H.
Qed.

Lemma inventory_updates_keep_order_items later l :
  keeps (fun w => order_items (db w) = l) (inventory_updates later).
Proof.
  induction later as [|[id updates] later IH]; simpl; [apply keeps_ret|].
  apply keeps_bind; [apply updateInventoryItem_keeps_order_items|].
  intros _. exact IH.
Qed.

(** C3.  After a successful [createOrder] with N line items, on a store
    whose OrderItem rows refer to issued order keys only, the created order
    has exactly N OrderItem rows, and their prices are, in order, the prices
    carried in the input items; this stays so after any later sequence of
    [updateInventoryItem] calls, so a later change of an inventory price
    does not reach them. *)
Theorem createOrder_rows_and_prices :
  forall orderData w order w' later,
    order_items_refer_to_issued_keys (db w) ->
    createOrder orderData w
    = (Returned {| data := Some order; error := None |}, w') ->
    let rows :=
      items_of_order (o_id order) (db (snd (inventory_updates later w'))) in
    List.length rows = List.length (NewOrder.items orderData) /\
    map oi_price rows = map OrderItem.price (NewOrder.items orderData).
Proof.
  intros orderData w order w' later Hkeys Hrun rows.
  destruct (createOrder_success orderData w order w' Hrun) as [Hid [k [t Hrows]]].
  assert (Hlater : order_items (db (snd (inventory_updates later w')))
                   = order_items (db w')).
  { apply (inventory_updates_keep_order_items later (order_items (db w')) w').
    reflexivity. }
  assert (Hprices : map oi_price rows
                    = map OrderItem.price (NewOrder.items orderData)).
  { subst rows. unfold items_of_order. rewrite Hlater, Hrows, filter_app.
    destruct (fresh_rows_items order (NewOrder.items orderData) k t) as [Hp Ho].
    rewrite filter_none, filter_all; [exact Hp| |].
    - eapply Forall_impl; [|exact Ho]. intros row Hrow. simpl.
      rewrite Hrow. simpl. apply N.eqb_refl.
    - eapply Forall_impl; [|exact Hkeys]. intros row Hrow. simpl.
      destruct (oi_order_id row) as [k0|] eqn:Hk; simpl; [|reflexivity].
      apply N.eqb_neq. specialize (Hrow k0 Hk). rewrite Hid. lia. }
  split; [|exact Hprices].
  rewrite <- (length_map oi_price rows), Hprices. apply length_map.
Qed.

Example createOrder_then_price_change_run :
  let w1 := snd (createOrder demo_order (demo_world [])) in
  let w2 := snd (inventory_updates demo_price_changes w1) in
  map i_price (inventory_items (db w2)) = [4000%Z] /\
  map (fun row => (oi_order_id row, oi_quantity row, oi_price row))
    (order_items (db w2))
  = [ (Some 6%N, 4%Z, 2000%Z); (Some 8%N, 2%Z, 2000%Z); (Some 8%N, 1%Z, 2000%Z) ] /\
  map (fun row => (o_id row, o_vendor_name row, o_status row)) (orders (db w2))
  = [ (6%N, "Aqua Supplies", pending); (8%N, "Aqua Supplies", pending) ].
Proof. repeat split. Qed.

Lemma createOrder_rows_and_prices_witness :
  let order := new_order_row demo_order (nth_error (users demo_store) 0) 8%N 2 in
  let w' := snd (createOrder demo_order (demo_world [])) in
  order_items_refer_to_issued_keys (db (demo_world [])) /\
  createOrder demo_order (demo_world [])
  = (Returned {| data := Some order; error := None |}, w') /\
  List.length (items_of_order (o_id order)
                 (db (snd (inventory_updates demo_price_changes w')))) = 2 /\
  map oi_price (items_of_order (o_id order)
                  (db (snd (inventory_updates demo_price_changes w'))))
  = [2000%Z; 2000%Z].
Proof.
  intros order w'.
  assert (Hkeys : order_items_refer_to_issued_keys (db (demo_world []))).
  { unfold order_items_refer_to_issued_keys. simpl.
    repeat constructor. intros k Hk. inversion Hk. reflexivity. }
  assert (Hrun : createOrder demo_order (demo_world [])
                 = (Returned {| data := Some order; error := None |}, w')).
  { reflexivity. }
  split; [exact Hkeys|]. split; [exact Hrun|].
  apply (createOrder_rows_and_prices demo_order (demo_world []) order w'
           demo_price_changes Hkeys Hrun).
Defined.

(** ** Undisturbed worlds *)

Lemma undisturbed_next w : undisturbed w -> next_fault w = NoFault.
Proof.
  unfold undisturbed, next_fault. destruct (script w) as [|f s]; simpl.
  - reflexivity.
  - intros H. inversion H. assumption.
Qed.

Lemma undisturbed_after_call w d a : undisturbed w -> undisturbed (after_call w d a).
Proof.
  unfold undisturbed, after_call; simpl. destruct (script w) as [|f s]; simpl.
  - intros _. constructor.
  - intros H. inversion H. assumption.
Qed.

Lemma await_undisturbed {A} (q : query A) w :
  undisturbed w ->
  await q w = (Returned (fst (q (now w) (db w))),
               after_call w (snd (q (now w) (db w))) (auth w)).
Proof.
  intros H. unfold await. rewrite (undisturbed_next w H).
  destruct (q (now w) (db w)); reflexivity.
Qed.

(** ** The delivery transition *)

Lemma filter_unique_key {A} (key : A -> uuid) (l : list A) (x : A) :
  NoDup (map key l) -> In x l ->
  filter (fun r => N.eqb (key r) (key x)) l = [x].
Proof.
  induction l as [|y l IH]; simpl; intros Hnd Hin; [contradiction|].
  inversion Hnd as [|? ? Hy Hnd']; subst.
  destruct Hin as [E|Hin].
  - subst y. rewrite N.eqb_refl. f_equal.
    apply filter_none. apply Forall_forall. intros z Hz.
    apply N.eqb_neq. intros E. apply Hy. rewrite <- E. apply in_map. exact Hz.
  - destruct (N.eqb_spec (key y) (key x)) as [E|E].
    + exfalso. apply Hy. rewrite E. apply in_map. exact Hin.
    + apply IH; assumption.
Qed.

(** The access functions the view calls, in an undisturbed world. *)
Lemma getInventoryByVendor_undisturbed vendorId w :
  undisturbed w ->
  getInventoryByVendor vendorId w
  = (Returned (ok (rev (filter (fun row => is_id (i_vendor_id row) vendorId)
                          (inventory_items (db w))))),
     after_call w (db w) (auth w)).
Proof.
  intros H. unfold getInventoryByVendor, try_catch, bind.
  rewrite (await_undisturbed _ w H). reflexivity.
Qed.

Lemma updateInventoryItem_undisturbed id updates w :
  undisturbed w ->
  exists r,
    updateInventoryItem id updates w
    = (Returned r, after_call w (snd (single (update inventory_items_t
                                   (fun row => N.eqb (i_id row) id)
                                   (apply_inventory_items_patch
                                      (updateInventoryItem_updateData updates)))
                                 (now w) (db w))) (auth w)).
Proof.
  intros H. unfold updateInventoryItem, try_catch, bind.
  rewrite (await_undisturbed _ w H). eexists. reflexivity.
Qed.

Lemma updateOrderStatus_undisturbed id status row w :
  undisturbed w ->
  filter (fun r => N.eqb (o_id r) id) (orders (db w)) = [row] ->
  exists r w',
    updateOrderStatus id status w = (Returned r, w') /\
    error r = None /\
    undisturbed w' /\
    inventory_items (db w') = inventory_items (db w) /\
    orders (db w')
    = map (fun r => if N.eqb (o_id r) id
                    then apply_orders_patch (status_only status) r else r)
        (orders (db w)).
Proof.
  intros H Hrow. unfold updateOrderStatus, try_catch, bind.
  rewrite (await_undisturbed _ w H). eexists _, _.
  split; [reflexivity|]. simpl. rewrite single_update_eq. simpl.
  rewrite Hrow. simpl.
  split; [reflexivity|]. split; [apply undisturbed_after_call; exact H|].
  split; reflexivity.
Qed.

(** What the calls of the view keep. *)
Lemma keeps_all_details {A B} (I : world -> Prop) (f : A -> async B) (l : list A) :
  (forall x, keeps I (f x)) -> keeps I (promise_all_map f l).
Proof.
  intros Hf. induction l as [|x l IH]; simpl; [apply keeps_ret|].
  apply keeps_bind; [apply Hf|]. intros y.
  apply keeps_bind; [exact IH|]. intros ys. apply keeps_ret.
Qed.

Lemma updateOrderStatus_keeps_inventory id status (J : list inventory_items_row -> Prop) :
  keeps (fun w => J (inventory_items (db w))) (updateOrderStatus id status).
Proof.
  unfold updateOrderStatus.
  apply keeps_try_catch; [|intros e; apply keeps_caught].
  apply keeps_bind; [|intros; apply keeps_ret].
  apply (keeps_await_db (fun d => J (inventory_items d))).
  apply (single_db (fun d => J (inventory_items d))). intros t d H. exact H.
Qed.

Lemma getInventoryByVendor_keeps_db vendorId (J : database -> Prop) :
  keeps (fun w => J (db w)) (getInventoryByVendor vendorId).
Proof.
  unfold getInventoryByVendor.
  apply keeps_try_catch; [|intros e; apply keeps_caught].
  apply keeps_bind; [|intros; apply keeps_ret].
  apply keeps_await_db. apply newest_first_db. apply select_db.
Qed.

Lemma getOrdersByVendor_keeps_db vendorId (J : database -> Prop) :
  keeps (fun w => J (db w)) (getOrdersByVendor vendorId).
Proof.
  unfold getOrdersByVendor.
  apply keeps_try_catch; [|intros e; apply keeps_caught].
  apply keeps_bind; [apply keeps_await_db, newest_first_db, select_db|].
  intros r. unfold join_orders.
  destruct (error r); [apply keeps_ret|].
  destruct (data r) as [[|o os]|]; try apply keeps_ret.
  apply keeps_bind; [|intros; apply keeps_ret].
  apply keeps_all_details. intros order. unfold with_details.
  apply keeps_bind; [apply keeps_await_db, select_db|]. intros items.
  apply keeps_bind; [apply keeps_await_db, select_db|]. intros messages.
  apply keeps_bind; [apply keeps_await_db, single_db, select_db|]. intros address.
  apply keeps_ret.
Qed.

Lemma loadOrders_keeps_db user s (J : database -> Prop) :
  keeps (fun w => J (db w)) (loadOrders user s).
Proof.
  unfold loadOrders. destruct user as [u|]; [|apply keeps_ret].
  apply keeps_try_catch; [|intros e; apply keeps_ret].
  apply keeps_bind; [apply getOrdersByVendor_keeps_db|].
  intros r. destruct (error r); [apply keeps_ret|].
  destruct (data r); apply keeps_ret.
Qed.

Lemma same_or_clamped_refl row : same_or_clamped row row.
Proof. unfold same_or_clamped. repeat split. left. reflexivity. Qed.

Lemma updateInventoryItem_keeps_clamped id v inv0 :
  (0 <= v)%Z ->
  keeps (fun w => Forall2 same_or_clamped inv0 (inventory_items (db w)))
    (updateInventoryItem id (stock_only v)).
Proof.
  intros Hv. unfold updateInventoryItem.
  apply keeps_try_catch; [|intros e; apply keeps_caught].
  apply keeps_bind; [|intros; apply keeps_ret].
  apply (keeps_await_db (fun d => Forall2 same_or_clamped inv0 (inventory_items d))).
  apply (single_db (fun d => Forall2 same_or_clamped inv0 (inventory_items d))).
  intros t d H. simpl. apply Forall2_update_step; [|exact H].
  intros x y Hxy. unfold same_or_clamped in *. simpl.
  repeat match goal with H : _ /\ _ |- _ => destruct H end.
  repeat split; try assumption. right. exact Hv.
Qed.

Lemma updateStock_keeps_clamped inventoryData orderItem inv0 :
  keeps (fun w => Forall2 same_or_clamped inv0 (inventory_items (db w)))
    (updateStock inventoryData orderItem).
Proof.
  unfold updateStock. destruct (find _ inventoryData) as [found|]; [|apply keeps_ret].
  cbv zeta. apply keeps_bind; [|intros; apply keeps_ret].
  apply updateInventoryItem_keeps_clamped. lia.
Qed.

Lemma updateStatus_keeps_clamped user orderId status s inv0 :
  keeps (fun w => Forall2 same_or_clamped inv0 (inventory_items (db w)))
    (updateStatus user orderId status s).
Proof.
  unfold updateStatus. cbv zeta.
  apply keeps_bind; [|intros; apply keeps_ret].
  apply keeps_try_catch; [|intros e; apply keeps_ret].
  apply keeps_bind.
  { apply (updateOrderStatus_keeps_inventory _ _ (Forall2 same_or_clamped inv0)). }
  intros r. destruct (error r); [apply keeps_ret|].
  apply keeps_bind;
    [|intros; apply (loadOrders_keeps_db _ _
                       (fun d => Forall2 same_or_clamped inv0 (inventory_items d)))].
  destruct (is_delivered status); [|apply keeps_ret].
  destruct (find _ _) as [order|]; [|apply keeps_ret].
  destruct user as [u|]; [|intros w H; exact H].
  apply keeps_bind.
  { apply (getInventoryByVendor_keeps_db _
             (fun d => Forall2 same_or_clamped inv0 (inventory_items d))). }
  intros inv. destruct (data inv) as [inventoryData|]; [|apply keeps_ret].
  apply keeps_for_each. intros item. apply updateStock_keeps_clamped.
Qed.

Lemma transitions_keep_clamped user ts inv0 :
  forall s,
    keeps (fun w => Forall2 same_or_clamped inv0 (inventory_items (db w)))
      (transitions user ts s).
Proof.
  induction ts as [|t ts IH]; intros s; simpl; [apply keeps_ret|].
  apply keeps_bind; [apply updateStatus_keeps_clamped|]. intros s'. apply IH.
Qed.

(** What [updateStatus] does to the inventory when it does not reach the
    loop. *)
Lemma updateStatus_leaves_inventory user orderId status s w :
  status <> delivered \/
  find (fun o => N.eqb (Order.id o) orderId) (OrderManagement.orders s) = None \/
  (exists r w1, updateOrderStatus orderId status w = (Returned r, w1) /\
                error r <> None) ->
  inventory_items (db (snd (updateStatus user orderId status s w)))
  = inventory_items (db w).
Proof.
  intros H.
  assert (Hstatus : keeps (fun w' => inventory_items (db w') = inventory_items (db w))
                      (updateOrderStatus orderId status)).
  { apply (updateOrderStatus_keeps_inventory _ _
             (fun l => l = inventory_items (db w))). }
  assert (Hload : forall s0,
             keeps (fun w' => inventory_items (db w') = inventory_items (db w))
               (loadOrders user s0)).
  { intros s0.
    apply (loadOrders_keeps_db _ _ (fun d => inventory_items d = inventory_items (db w))). }
  destruct H as [Hs|[Hnone|[r [w1 [Hrun Herr]]]]].
  - apply (fun K : keeps (fun w' => inventory_items (db w') = inventory_items (db w))
                     (updateStatus user orderId status s) => K w eq_refl).
    unfold updateStatus. cbv zeta.
    apply keeps_bind; [|intros; apply keeps_ret].
    apply keeps_try_catch; [|intros e; apply keeps_ret].
    assert (Hd : is_delivered status = false)
      by (destruct status; first [reflexivity|exfalso; apply Hs; reflexivity]).
    rewrite Hd. apply keeps_bind; [exact Hstatus|].
    intros r. destruct (error r); [apply keeps_ret|].
    apply keeps_bind; [apply keeps_ret|intros; apply Hload].
  - apply (fun K : keeps (fun w' => inventory_items (db w') = inventory_items (db w))
                     (updateStatus user orderId status s) => K w eq_refl).
    unfold updateStatus. cbv zeta.
    apply keeps_bind; [|intros; apply keeps_ret].
    apply keeps_try_catch; [|intros e; apply keeps_ret].
    simpl. rewrite Hnone. apply keeps_bind; [exact Hstatus|].
    intros r. destruct (error r); [apply keeps_ret|].
    apply keeps_bind; [destruct (is_delivered status); apply keeps_ret|].
    intros; apply Hload.
  - pose proof (Hstatus w eq_refl) as Hk. rewrite Hrun in Hk. simpl in Hk.
    unfold updateStatus, bind, try_catch. cbv zeta. rewrite Hrun.
    destruct (error r); [|exfalso; apply Herr; reflexivity].
    simpl. exact Hk.
Qed.

(** The loop of [updateStatus] over the lines of the order, against the
    inventory read before it. *)
Lemma delivered_row_id vendorId items row :
  i_id (delivered_row vendorId items row) = i_id row.
Proof.
  unfold delivered_row. destruct (is_id _ _); [|reflexivity].
  destruct (find _ _); reflexivity.
Qed.

Lemma delivered_row_none vendorId row : delivered_row vendorId [] row = row.
Proof. unfold delivered_row. simpl. destruct (is_id _ _); reflexivity. Qed.

Lemma updateStock_loop vendorId inv0 items :
  NoDup (map i_id inv0) ->
  forall done w,
    undisturbed w ->
    inventory_items (db w) = map (delivered_row vendorId done) inv0 ->
    exists w',
      for_each (updateStock (rev (filter (fun row => is_id (i_vendor_id row) vendorId) inv0)))
        items w = (Returned tt, w') /\
      undisturbed w' /\
      inventory_items (db w') = map (delivered_row vendorId (done ++ items)) inv0.
Proof.
  intros Hnd. induction items as [|x items IH]; intros done w Hu Hinv.
  - exists w. rewrite app_nil_r. simpl. auto.
  - simpl. unfold bind at 1. unfold updateStock at 1.
    destruct (find _ (rev _)) as [found|] eqn:Hfind.
    + apply find_some in Hfind. destruct Hfind as [Hin Hid].
      apply N.eqb_eq in Hid.
      apply in_rev, filter_In in Hin. destruct Hin as [Hin Hvendor].
      cbv zeta. unfold bind at 1.
      destruct (updateInventoryItem_undisturbed (i_id found)
                  (stock_only (Z.max 0 (i_stock found - OrderItem.quantity x))) w Hu)
        as [r Hrun].
      rewrite Hrun. simpl.
      match goal with |- context [for_each _ items ?w1] =>
        destruct (IH (done ++ [x]) w1) as [w' [Hloop [Hu' Hinv']]] end.
      * apply undisturbed_after_call. exact Hu.
      * simpl. rewrite single_update_eq. simpl. rewrite Hinv.
        assert (Hone : filter (fun row => N.eqb (i_id row)
                                 (i_id (delivered_row vendorId done found)))
                         (map (delivered_row vendorId done) inv0)
                       = [delivered_row vendorId done found]).
        { apply (filter_unique_key i_id).
          - rewrite map_map. erewrite map_ext; [exact Hnd|].
            intros a. apply delivered_row_id.
          - apply in_map. exact Hin. }
        rewrite delivered_row_id in Hone. rewrite Hone.
        simpl. rewrite map_map. apply map_ext_in. intros row Hrow.
        rewrite delivered_row_id.
        destruct (N.eqb_spec (i_id row) (i_id found)) as [E|E].
        -- assert (row = found).
           { pose proof (filter_unique_key i_id inv0 found Hnd Hin) as Hf.
             assert (Hr : In row (filter (fun r0 => N.eqb (i_id r0) (i_id found)) inv0)).
             { apply filter_In. split; [exact Hrow|]. apply N.eqb_eq. exact E. }
             rewrite Hf in Hr. simpl in Hr. destruct Hr as [Hr|[]]. symmetry. exact Hr. }
           subst row. unfold delivered_row. rewrite Hvendor.
           rewrite rev_app_distr. simpl. rewrite <- Hid, N.eqb_refl.
           destruct (find _ (rev done)); reflexivity.
        -- unfold delivered_row. destruct (is_id (i_vendor_id row) vendorId); [|reflexivity].
           rewrite rev_app_distr. simpl.
           destruct (N.eqb_spec (OrderItem.id x) (i_id row)) as [E'|E'];
             [exfalso; apply E; congruence|reflexivity].
      * exists w'. rewrite <- app_assoc in Hinv'. simpl in Hinv'. auto.
    + simpl.
      destruct (IH (done ++ [x]) w Hu) as [w' [Hloop [Hu' Hinv']]].
      * rewrite Hinv. apply map_ext_in. intros row Hrow.
        unfold delivered_row.
        destruct (is_id (i_vendor_id row) vendorId) eqn:Hvendor; [|reflexivity].
        rewrite rev_app_distr. simpl.
        assert (Hsnap : In row (rev (filter (fun row => is_id (i_vendor_id row) vendorId) inv0))).
        { apply in_rev. rewrite rev_involutive. apply filter_In. auto. }
        pose proof (find_none _ _ Hfind row Hsnap) as Hno. simpl in Hno.
        rewrite N.eqb_sym, Hno. reflexivity.
      * exists w'. rewrite <- app_assoc in Hinv'. simpl in Hinv'. auto.
Qed.

Lemma updateStock_keeps_orders inventoryData orderItem (J : list orders_row -> Prop) :
  keeps (fun w => J (orders (db w))) (updateStock inventoryData orderItem).
Proof.
  unfold updateStock. destruct (find _ inventoryData) as [found|]; [|apply keeps_ret].
  cbv zeta. apply keeps_bind; [|intros; apply keeps_ret].
  unfold updateInventoryItem.
  apply keeps_try_catch; [|intros e; apply keeps_caught].
  apply keeps_bind; [|intros; apply keeps_ret].
  apply (keeps_await_db (fun d => J (orders d))).
  apply (single_db (fun d => J (orders d))). intros t d H. exact H.
Qed.

Lemma updateStatus_delivers u orderId order row s w :
  undisturbed w ->
  NoDup (map i_id (inventory_items (db w))) ->
  filter (fun r => N.eqb (o_id r) orderId) (orders (db w)) = [row] ->
  find (fun o => N.eqb (Order.id o) orderId) (OrderManagement.orders s) = Some order ->
  exists d,
    db (snd (updateStatus (Some u) orderId delivered s w)) = d /\
    orders d
    = map (fun r => if N.eqb (o_id r) orderId
                    then apply_orders_patch (status_only delivered) r else r)
        (orders (db w)) /\
    inventory_items d
    = map (delivered_row (User.id u) (Order.items order)) (inventory_items (db w)).
Proof.
  intros Hu Hnd Hrow Hfind.
  destruct (updateOrderStatus_undisturbed orderId delivered row w Hu Hrow)
    as [r [w1 [Hrun [Herr [Hu1 [Hinv1 Hord1]]]]]].
  unfold updateStatus. cbv zeta. unfold bind at 1. unfold try_catch.
  unfold bind at 1. rewrite Hrun, Herr. unfold bind at 1.
  change (is_delivered delivered) with true. cbv iota.
  change (OrderManagement.orders (OrderManagement.setLoading true s))
    with (OrderManagement.orders s).
  rewrite Hfind.
  unfold bind at 1. rewrite (getInventoryByVendor_undisturbed _ w1 Hu1).
  cbn [data ok]. rewrite Hinv1.
  destruct (updateStock_loop (User.id u) (inventory_items (db w)) (Order.items order) Hnd
              [] (after_call w1 (db w1) (auth w1))) as [w3 [Hloop [Hu3 Hinv3]]].
  { apply undisturbed_after_call. exact Hu1. }
  { simpl. rewrite Hinv1. symmetry. erewrite map_ext; [apply map_id|].
    intros a. apply delivered_row_none. }
  assert (Hord3 : orders (db w3) = orders (db w1)).
  { change w3 with (snd (Returned tt, w3)). rewrite <- Hloop.
    apply (keeps_for_each (fun w0 => orders (db w0) = orders (db w1)));
      [|reflexivity].
    intros x. apply (updateStock_keeps_orders _ x (fun l => l = orders (db w1))). }
  rewrite Hloop.
  pose proof (loadOrders_keeps_db (Some u) (OrderManagement.setLoading true s)
                (fun d => d = db w3) w3 eq_refl) as Hk.
  exists (db w3).
  split; [|split; [rewrite Hord3; exact Hord1|exact Hinv3]].
  destruct (loadOrders (Some u) (OrderManagement.setLoading true s) w3) as [[s'|e] w4];
    simpl in *; exact Hk.
Qed.

Lemma clamped_not_negative l l' :
  Forall2 same_or_clamped l l' ->
  Forall (fun row => (0 <= i_stock row)%Z) l ->
  Forall (fun row => (0 <= i_stock row)%Z) l'.
Proof.
  induction 1 as [|x y l l' Hxy _ IH]; intros Hl; [constructor|].
  inversion Hl as [|? ? Hx Hl']; subst.
  constructor; [|apply IH; exact Hl'].
  destruct Hxy as [_ [_ [_ [_ [_ [E|Hpos]]]]]]; [rewrite E; exact Hx|exact Hpos].
Qed.


(** C1, as stated, fails: the [stock] column has no check, and a delivery
    writes the items its order names and no other.  An item entered with
    stock -1 that order 6 does not name still has -1 after the order is
    delivered, while the item the order names goes from 10 to 6. *)
Lemma delivery_leaves_negative_stock :
  let w' := snd (transitions (Some demo_vendor) [deliver_demo] demo_view
                   overdrawn_world) in
  map o_status (orders (db w')) = [delivered] /\
  map i_stock (inventory_items (db w')) = [6; -1]%Z /\
  ~ stock_not_negative (db w').
Proof.
  split; [reflexivity|]. split; [reflexivity|].
  intros H. unfold stock_not_negative in H.
  apply Forall_forall with (x := {| i_id := 8%N; i_vendor_id := Some 1%N;
                                     i_name := "5L bottle"; i_description := "";
                                     i_price := 500%Z; i_stock := (-1)%Z |}) in H.
  - simpl in H. lia.
  - simpl. right. left. reflexivity.
Qed.

(** C1, amended.  Over [updateStatus] of the order-management view:
    - after any sequence of status changes, to [delivered] or not, whatever
      fails on the way and whoever is signed in, every inventory item is the
      one it was but for its stock, and its stock is the one it had or is not
      negative; so no item has a negative stock if none had one before;
    - a change to a status other than [delivered] leaves the inventory as it
      was, and so does a change to [delivered] whose status write answers an
      error, or whose order is not in the list the view holds;
    - an undisturbed change to [delivered] of an order the view holds and the
      store has, on an inventory with unique keys, writes [delivered] into
      the order and nothing else into the orders, and writes
      [stock = max(0, stock - quantity)] into the vendor's matching item for
      each item of the order, with [stock] as read once before the loop (so
      the last item that names an inventory item decides), and changes
      nothing else of the inventory. *)
Theorem delivery_adjusts_stock_clamped_at_zero :
  (forall user ts s w,
      let w' := snd (transitions user ts s w) in
      Forall2 same_or_clamped (inventory_items (db w)) (inventory_items (db w')) /\
      (stock_not_negative (db w) -> stock_not_negative (db w'))) /\
  (forall user orderId status s w,
      status <> delivered \/
      find (fun o => N.eqb (Order.id o) orderId) (OrderManagement.orders s) = None \/
      (exists r w1, updateOrderStatus orderId status w = (Returned r, w1) /\
                    error r <> None) ->
      inventory_items (db (snd (updateStatus user orderId status s w)))
      = inventory_items (db w)) /\
  (forall u orderId order row s w,
      undisturbed w ->
      NoDup (map i_id (inventory_items (db w))) ->
      filter (fun r => N.eqb (o_id r) orderId) (orders (db w)) = [row] ->
      find (fun o => N.eqb (Order.id o) orderId) (OrderManagement.orders s)
      = Some order ->
      let w' := snd (updateStatus (Some u) orderId delivered s w) in
      orders (db w')
      = map (fun r => if N.eqb (o_id r) orderId
                      then apply_orders_patch (status_only delivered) r else r)
          (orders (db w)) /\
      inventory_items (db w')
      = map (delivered_row (User.id u) (Order.items order))
          (inventory_items (db w))).
Proof.
  split; [|split].
  - intros user ts s w w'.
    assert (H : Forall2 same_or_clamped (inventory_items (db w))
                  (inventory_items (db w'))).
    { apply (transitions_keep_clamped user ts (inventory_items (db w)) s w).
      apply Forall2_same. apply same_or_clamped_refl. }
    split; [exact H|]. apply clamped_not_negative. exact H.
  - intros user orderId status s w. apply updateStatus_leaves_inventory.
  - intros u orderId order row s w Hu Hnd Hrow Hfind w'.
    destruct (updateStatus_delivers u orderId order row s w Hu Hnd Hrow Hfind)
      as [d [Hd [Hord Hinv]]].
    subst w'. rewrite Hd. split; assumption.
Qed.

(** The order list the view loads from the small store is [demo_view]. *)
Example loadOrders_run :
  fst (loadOrders (Some demo_vendor)
         {| OrderManagement.orders := []; OrderManagement.loading := false |}
         (demo_world []))
  = Returned demo_view.
Proof. reflexivity. Qed.

(** Stock 10 and an item of 4: a change to [confirmed] leaves 10, a delivery
    gives 6, a repeated delivery 2 and a third one 0.  A delivery whose
    status write fails leaves the order [pending] and the stock at 10.  Two
    lines of 4 and 3 on the one inventory item give 7. *)
Example delivery_scenario :
  map i_stock (inventory_items
                 (db (snd (transitions (Some demo_vendor) [confirm_demo] demo_view
                             (demo_world [])))))
  = [10%Z] /\
  map i_stock (inventory_items
                 (db (snd (transitions (Some demo_vendor) [deliver_demo] demo_view
                             (demo_world [])))))
  = [6%Z] /\
  map i_stock (inventory_items
                 (db (snd (transitions (Some demo_vendor) [deliver_demo; deliver_demo]
                             demo_view (demo_world [])))))
  = [2%Z] /\
  map i_stock (inventory_items
                 (db (snd (transitions (Some demo_vendor)
                             [deliver_demo; deliver_demo; deliver_demo]
                             demo_view (demo_world [])))))
  = [0%Z] /\
  (let w' := snd (transitions (Some demo_vendor) [deliver_demo] demo_view
                    (demo_world [RetErr fetch_failed])) in
   map o_status (orders (db w')) = [pending] /\
   map i_stock (inventory_items (db w')) = [10%Z]) /\
  map i_stock (inventory_items
                 (db (snd (transitions (Some demo_vendor) [deliver_demo] two_lines_view
                             (demo_world [])))))
  = [7%Z].
Proof. repeat split. Qed.

Lemma delivery_adjusts_stock_clamped_at_zero_witness :
  stock_not_negative (db (demo_world [RetErr fetch_failed])) /\
  confirmed <> delivered /\
  undisturbed (demo_world []) /\
  NoDup (map i_id (inventory_items (db (demo_world [])))) /\
  stock_not_negative
    (db (snd (transitions (Some demo_vendor) [deliver_demo; deliver_demo; deliver_demo]
                demo_view (demo_world [RetErr fetch_failed])))) /\
  inventory_items (db (snd (updateStatus (Some demo_vendor) 6%N confirmed demo_view
                              (demo_world []))))
  = inventory_items (db (demo_world [])) /\
  inventory_items (db (snd (updateStatus (Some demo_vendor) 6%N delivered demo_view
                              (demo_world []))))
  = map (delivered_row 1%N (Order.items demo_held_order))
      (inventory_items (db (demo_world []))).
Proof.
  assert (H1 : stock_not_negative (db (demo_world [RetErr fetch_failed]))).
  { unfold stock_not_negative; simpl. repeat constructor. simpl. lia. }
  assert (H2 : confirmed <> delivered) by discriminate.
  assert (H3 : undisturbed (demo_world [])) by constructor.
  assert (H4 : NoDup (map i_id (inventory_items (db (demo_world []))))).
  { simpl. repeat constructor. simpl. tauto. }
  destruct delivery_adjusts_stock_clamped_at_zero as [Ha [Hb Hc]].
  split; [exact H1|]. split; [exact H2|]. split; [exact H3|]. split; [exact H4|].
  split; [|split].
  - exact (proj2 (Ha (Some demo_vendor) [deliver_demo; deliver_demo; deliver_demo]
                    demo_view _) H1).
  - exact (Hb (Some demo_vendor) 6%N confirmed demo_view (demo_world [])
             (or_introl H2)).
  - exact (proj2 (Hc demo_vendor 6%N demo_held_order
                    (Details.order demo_details) demo_view (demo_world [])
                    H3 H4 eq_refl eq_refl)).
Defined.

(** ** Default addresses *)

Lemma no_error_next w e : no_error_results w -> next_fault w = RetErr e -> False.
Proof.
  unfold no_error_results, next_fault. destruct (script w) as [|f s]; simpl.
  - discriminate.
  - intros H E. inversion H as [|? ? Hf _]; subst. exact (Hf e eq_refl).
Qed.

Lemma no_error_after_call w d a : no_error_results w -> no_error_results (after_call w d a).
Proof.
  unfold no_error_results, after_call; simpl. destruct (script w) as [|f s]; simpl.
  - intros _. constructor.
  - intros H. inversion H. assumption.
Qed.

Ltac no_errors :=
  match goal with
  | H : next_fault ?w = RetErr ?e |- _ =>
      exfalso; apply (no_error_next w e);
      [repeat apply no_error_after_call; assumption|exact H]
  end.

Lemma defaults_after_clear_owner owner l :
  defaults_of owner (clear_defaults owner l) = [].
Proof.
  unfold defaults_of, clear_defaults. apply filter_none, Forall_map, Forall_forall.
  intros r _. destruct (is_id (a_user_id r) owner) eqn:E; simpl; rewrite E;
    [apply andb_false_r|reflexivity].
Qed.

Lemma defaults_after_clear_other owner u l :
  List.length (defaults_of u (clear_defaults owner l))
  <= List.length (defaults_of u l).
Proof.
  unfold defaults_of, clear_defaults. induction l as [|r l IH]; simpl; [lia|].
  destruct (is_id (a_user_id r) owner); simpl.
  - rewrite andb_false_r. destruct (_ && _); simpl; lia.
  - destruct (_ && _); simpl; lia.
Qed.

Lemma defaults_after_insert u l r :
  List.length (defaults_of u (l ++ [r]))
  = List.length (defaults_of u l)
    + (if is_id (a_user_id r) u && a_is_default r then 1 else 0).
Proof.
  unfold defaults_of. rewrite filter_app, length_app. simpl.
  destruct (_ && _); reflexivity.
Qed.

(** An update by key that leaves the owner alone adds at most the rows it
    touches to the defaults of a user. *)
Lemma defaults_after_update u id (g : addresses_row -> addresses_row) l :
  (forall r, a_user_id (g r) = a_user_id r) ->
  List.length (defaults_of u (map (fun r => if N.eqb (a_id r) id then g r else r) l))
  <= List.length (defaults_of u l)
     + List.length (filter (fun r => is_id (a_user_id r) u)
                      (filter (fun r => N.eqb (a_id r) id) l)).
Proof.
  intros Hg. unfold defaults_of. induction l as [|r l IH]; simpl; [lia|].
  destruct (N.eqb (a_id r) id); simpl.
  - rewrite Hg. destruct (is_id (a_user_id r) u); simpl.
    + destruct (a_is_default (g r)), (a_is_default r); simpl; lia.
    + lia.
  - destruct (_ && _); simpl; lia.
Qed.

(** An update that marks no new row default does not add defaults. *)
Lemma defaults_after_unmarking u (p : addresses_row -> bool)
    (g : addresses_row -> addresses_row) l :
  (forall r, a_user_id (g r) = a_user_id r) ->
  (forall r, a_is_default (g r) = true -> a_is_default r = true) ->
  List.length (defaults_of u (map (fun r => if p r then g r else r) l))
  <= List.length (defaults_of u l).
Proof.
  intros Hu Hd. unfold defaults_of. induction l as [|r l IH]; simpl; [lia|].
  destruct (p r); simpl.
  - rewrite Hu. destruct (is_id (a_user_id r) u); simpl; [|lia].
    destruct (a_is_default (g r)) eqn:E; simpl.
    + rewrite (Hd r E). simpl. lia.
    + destruct (a_is_default r); simpl; lia.
  - destruct (_ && _); simpl; lia.
Qed.

Lemma filter_key_after_clear owner id l :
  filter (fun r => N.eqb (a_id r) id) (clear_defaults owner l)
  = clear_defaults owner (filter (fun r => N.eqb (a_id r) id) l).
Proof.
  unfold clear_defaults. induction l as [|r l IH]; simpl; [reflexivity|].
  destruct (is_id (a_user_id r) owner) eqn:E; simpl;
    destruct (N.eqb (a_id r) id); simpl; rewrite ?E, IH; reflexivity.
Qed.

Lemma createAddress_keeps_one_default addressData w :
  no_error_results w -> at_most_one_default (db w) ->
  no_error_results (snd (createAddress addressData w)) /\
  at_most_one_default (db (snd (createAddress addressData w))).
Proof.
  intros Hne Hone.
  destruct (createAddress addressData w) as [o w'] eqn:Hrun. simpl.
  unfold createAddress in Hrun. inv_run; try no_errors.
  all: split; [repeat apply no_error_after_call; assumption|].
  all: intros u; specialize (Hone u); simpl;
    try fold (clear_defaults (NewAddress.userId addressData) (addresses (db w)));
    try rewrite defaults_after_insert; simpl; try assumption.
  - destruct (N.eqb_spec (NewAddress.userId addressData) u) as [E|E]; simpl.
    + subst u. rewrite defaults_after_clear_owner. simpl. lia.
    + pose proof (defaults_after_clear_other (NewAddress.userId addressData) u
                    (addresses (db w))). lia.
  - rewrite andb_false_r. lia.
  - pose proof (defaults_after_clear_other (NewAddress.userId addressData) u
                  (addresses (db w))). lia.
Qed.

Lemma patch_keeps_owner updates r :
  a_user_id (apply_addresses_patch (updateAddress_updateData updates) r) = a_user_id r.
Proof. reflexivity. Qed.

Lemma single_data_some {R} (l : list R) (a : R) :
  data (match l with [x] => ok x | _ => failed PGRST116 end) = Some a -> l = [a].
Proof.
  destruct l as [|x [|y l]]; simpl; intros H; inversion H; reflexivity.
Qed.

Lemma single_data_none {R} (l : list R) :
  data (match l with [x] => ok x | _ => failed PGRST116 end) = None ->
  forall x, l <> [x].
Proof.
  destruct l as [|y [|z l]]; simpl; intros H x E; try discriminate.
Qed.

Lemma map_singleton {A B} (f : A -> B) (l : list A) (y : B) :
  map f l = [y] -> exists x, l = [x].
Proof.
  destruct l as [|x [|z l]]; simpl; intros H; try discriminate. eauto.
Qed.

Lemma update_unmarking_defaults updates id u l :
  PartialAddress.isDefault updates <> Some true ->
  List.length
    (defaults_of u
       (map (fun r => if N.eqb (a_id r) id
                      then apply_addresses_patch (updateAddress_updateData updates) r
                      else r) l))
  <= List.length (defaults_of u l).
Proof.
  intros Hd. apply defaults_after_unmarking; [reflexivity|].
  intros r. simpl. destruct (PartialAddress.isDefault updates) as [[|]|]; simpl;
    congruence.
Qed.

Lemma update_marking_after_clear updates id owner a u l :
  filter (fun r => N.eqb (a_id r) id) l = [a] ->
  a_user_id a = Some owner ->
  List.length (defaults_of u l) <= 1 ->
  List.length
    (defaults_of u
       (map (fun r => if N.eqb (a_id r) id
                      then apply_addresses_patch (updateAddress_updateData updates) r
                      else r)
          (clear_defaults owner l)))
  <= 1.
Proof.
  intros Hfound Howner Hone.
  pose proof (defaults_after_update u id
                (apply_addresses_patch (updateAddress_updateData updates))
                (clear_defaults owner l) (patch_keeps_owner updates)) as Hup.
  rewrite filter_key_after_clear, Hfound in Hup. simpl in Hup.
  rewrite Howner in Hup. simpl in Hup. rewrite N.eqb_refl in Hup. simpl in Hup.
  rewrite Howner in Hup. simpl in Hup.
  destruct (N.eqb_spec owner u) as [E|E]; simpl in Hup.
  - subst u. rewrite defaults_after_clear_owner in Hup. simpl in Hup. lia.
  - pose proof (defaults_after_clear_other owner u l). lia.
Qed.

Lemma update_marking_ownerless updates id a u l :
  filter (fun r => N.eqb (a_id r) id) l = [a] ->
  a_user_id a = None ->
  List.length
    (defaults_of u
       (map (fun r => if N.eqb (a_id r) id
                      then apply_addresses_patch (updateAddress_updateData updates) r
                      else r) l))
  <= List.length (defaults_of u l).
Proof.
  intros Hfound Howner.
  pose proof (defaults_after_update u id
                (apply_addresses_patch (updateAddress_updateData updates))
                l (patch_keeps_owner updates)) as Hup.
  rewrite Hfound in Hup. simpl in Hup. rewrite Howner in Hup. simpl in Hup. lia.
Qed.

Lemma updateAddress_keeps_one_default id updates w :
  no_error_results w -> at_most_one_default (db w) ->
  no_error_results (snd (updateAddress id updates w)) /\
  at_most_one_default (db (snd (updateAddress id updates w))).
Proof.
  intros Hne Hone.
  destruct (updateAddress id updates w) as [o w'] eqn:Hrun. simpl.
  unfold updateAddress in Hrun. inv_run; try no_errors.
  all: split; [repeat apply no_error_after_call; assumption|].
  all: try assumption.
  all: unfold at_most_one_default in *; simpl.
  all: rewrite ?map_id in *.
  all: try assumption.
  all: intros userId; specialize (Hone userId).
  all: try match goal with
           | H : data _ = Some _ |- _ => apply single_data_some in H
           end.
  all: try match goal with
           | H : data _ = None, H' : map _ _ = [_] |- _ =>
               exfalso; apply map_singleton in H'; destruct H' as [x0 H'];
               exact (single_data_none _ H x0 H')
           end.
  all: try (fold (clear_defaults u (addresses (db w)));
            first [ eapply update_marking_after_clear; eassumption
                  | pose proof (defaults_after_clear_other u userId
                                  (addresses (db w))); lia ]).
  all: try (etransitivity;
            [eapply update_marking_ownerless; eassumption|exact Hone]).
  all: try (etransitivity;
            [apply update_unmarking_defaults; congruence|exact Hone]).
Qed.

Lemma address_calls_keep_one_default calls :
  forall w,
    no_error_results w -> at_most_one_default (db w) ->
    at_most_one_default (db (snd (address_calls calls w))).
Proof.
  induction calls as [|[addressData|id updates] calls IH]; intros w Hne Hone;
    simpl; [exact Hone| |].
  - destruct (createAddress_keeps_one_default addressData w Hne Hone) as [Hne1 Hone1].
    unfold bind. destruct (createAddress addressData w) as [[r|e] w1]; simpl in *;
      [apply IH; assumption|assumption].
  - destruct (updateAddress_keeps_one_default id updates w Hne Hone) as [Hne1 Hone1].
    unfold bind. destruct (updateAddress id updates w) as [[r|e] w1]; simpl in *;
      [apply IH; assumption|assumption].
Qed.

Lemma demo_store_one_default : at_most_one_default demo_store.
Proof.
  intros u. unfold defaults_of, demo_store, addresses.
  cbn [filter a_user_id a_is_default]. destruct (is_id (Some 2%N) u && true); simpl; lia.
Qed.

Example address_calls_run :
  map (fun r => (a_id r, a_is_default r))
    (addresses (db (snd (address_calls demo_address_calls (demo_world [])))))
  = [ (4%N, true); (8%N, false) ].
Proof. reflexivity. Qed.

(** C2, as stated, fails: when the clearing write of [createAddress] comes
    back with an error result, the function does not look at it and the
    insert goes ahead, so the customer of the small store ends with two
    default addresses. *)
Lemma two_defaults_when_clearing_fails :
  at_most_one_default (db (demo_world [RetErr fetch_failed])) /\
  List.length
    (defaults_of 2%N
       (addresses (db (snd (address_calls [CreateAddress demo_new_address]
                              (demo_world [RetErr fetch_failed]))))))
  = 2 /\
  ~ at_most_one_default
      (db (snd (address_calls [CreateAddress demo_new_address]
                  (demo_world [RetErr fetch_failed])))).
Proof.
  split; [exact demo_store_one_default|]. split; [reflexivity|].
  intros H. specialize (H 2%N).
  change (2 <= 1) in H. lia.
Qed.

(** C2, amended.  For every sequence of [createAddress] and [updateAddress]
    calls run one after the other in which no remote call comes back with an
    error result (a call may throw, and [.single()] may refuse a row count),
    every user has at most one default address afterwards if that was so
    before: whenever the new value of [is_default] is true, the defaults of
    the owner are cleared before the main write. *)
Theorem one_default_address_without_error_results :
  forall calls w,
    no_error_results w ->
    at_most_one_default (db w) ->
    at_most_one_default (db (snd (address_calls calls w))).
Proof.
  intros calls w Hne Hone. apply address_calls_keep_one_default; assumption.
Qed.

Lemma one_default_address_without_error_results_witness :
  no_error_results (demo_world [NoFault; NoFault; Throw fetch_failed]) /\
  at_most_one_default (db (demo_world [NoFault; NoFault; Throw fetch_failed])) /\
  at_most_one_default
    (db (snd (address_calls demo_address_calls
                (demo_world [NoFault; NoFault; Throw fetch_failed])))).
Proof.
  assert (H1 : no_error_results (demo_world [NoFault; NoFault; Throw fetch_failed])).
  { unfold no_error_results; simpl. repeat constructor; discriminate. }
  assert (H2 : at_most_one_default
                 (db (demo_world [NoFault; NoFault; Throw fetch_failed]))).
  { exact demo_store_one_default. }
  split; [exact H1|]. split; [exact H2|].
  exact (one_default_address_without_error_results demo_address_calls _ H1 H2).
Defined.

(** ** Composite reads under failing sub-reads *)

Lemma no_throws_after_call w d a : no_throws w -> no_throws (after_call w d a).
Proof.
  unfold no_throws, after_call; simpl. destruct (script w) as [|f s]; simpl.
  - intros _. constructor.
  - intros H. inversion H. assumption.
Qed.

Lemma no_throws_skipn n s :
  Forall (fun f => forall e, f <> Throw e) s ->
  Forall (fun f => forall e, f <> Throw e) (skipn n s).
Proof.
  revert s. induction n as [|n IH]; intros s H; simpl; [exact H|].
  destruct s as [|f s]; [constructor|]. apply IH. inversion H. assumption.
Qed.

Lemma join_orders_kept d os s : map Details.order (join_with_failures d os s) = os.
Proof.
  revert s. induction os as [|o os IH]; intros s; simpl; [reflexivity|].
  rewrite IH. reflexivity.
Qed.

Lemma with_details_degraded o d a n s :
  Forall (fun f => forall e, f <> Throw e) s ->
  with_details o {| db := d; auth := a; now := n; script := s |}
  = (Returned (degraded d o (nth 0 s NoFault) (nth 1 s NoFault) (nth 2 s NoFault)),
     {| db := d; auth := a; now := S (S (S n)); script := skipn 3 s |}).
Proof.
  intros Hs.
  assert (H3 := no_throws_skipn 0 s Hs). simpl in H3.
  unfold with_details, bind, await, next_fault, after_call; simpl.
  destruct s as [|f1 s]; simpl.
  { autorewrite with requests. simpl.
    unfold degraded; simpl.
    destruct (filter _ (addresses d)) as [|x [|y l]]; reflexivity. }
  inversion Hs as [|? ? Hf1 Hs1]; subst.
  destruct f1 as [|e1|e1]; [| |exfalso; exact (Hf1 e1 eq_refl)];
    (destruct s as [|f2 s]; simpl;
     [ autorewrite with requests; simpl; unfold degraded; simpl;
       destruct (filter _ (addresses d)) as [|x [|y l]]; reflexivity |]);
    inversion Hs1 as [|? ? Hf2 Hs2]; subst;
    (destruct f2 as [|e2|e2]; [| |exfalso; exact (Hf2 e2 eq_refl)]);
    (destruct s as [|f3 s]; simpl;
     [ autorewrite with requests; simpl; unfold degraded; simpl;
       destruct (filter _ (addresses d)) as [|x [|y l]]; reflexivity |]);
    inversion Hs2 as [|? ? Hf3 Hs3]; subst;
    (destruct f3 as [|e3|e3]; [| |exfalso; exact (Hf3 e3 eq_refl)]);
    autorewrite with requests; simpl; unfold degraded; simpl;
    try reflexivity;
    destruct (filter _ (addresses d)) as [|x [|y l]]; reflexivity.
Qed.

Lemma promise_all_details os :
  forall d a n s,
    Forall (fun f => forall e, f <> Throw e) s ->
    exists w',
      promise_all_map with_details os {| db := d; auth := a; now := n; script := s |}
      = (Returned (join_with_failures d os s), w') /\ db w' = d.
Proof.
  induction os as [|o os IH]; intros d a n s Hs; simpl.
  - eexists. split; reflexivity.
  - unfold bind. rewrite (with_details_degraded o d a n s Hs).
    destruct (IH d a (S (S (S n))) (skipn 3 s) (no_throws_skipn 3 s Hs))
      as [w' [Hrun Hdb]].
    rewrite Hrun. eexists. split; reflexivity || exact Hdb.
Qed.

Lemma join_orders_degraded os w :
  no_throws w ->
  exists w',
    join_orders (ok os) w
    = (Returned {| data := Some (join_with_failures (db w) os (script w));
                   error := None |}, w') /\
    db w' = db w.
Proof.
  intros Hs. destruct w as [d a n s]. unfold join_orders; simpl.
  destruct os as [|o os]; [eexists; split; reflexivity|].
  unfold bind.
  destruct (promise_all_details (o :: os) d a n s Hs) as [w' [Hrun Hdb]].
  rewrite Hrun. eexists. split; [reflexivity|exact Hdb].
Qed.

Lemma composite_read_degraded (p : orders_row -> bool) w :
  next_fault w = NoFault ->
  no_throws w ->
  let os := rev (filter p (orders (db w))) in
  let details := join_with_failures (db w) os (tl (script w)) in
  exists w',
    try_catch (r <- await (newest_first (select orders_t p)) ;; join_orders r) caught w
    = (Returned {| data := Some details; error := None |}, w') /\
    db w' = db w.
Proof.
  intros Hf Hs os details. unfold try_catch, bind, await. rewrite Hf.
  autorewrite with requests. simpl.
  destruct (join_orders_degraded os (after_call w (db w) (auth w))
              (no_throws_after_call w _ _ Hs)) as [w' [Hrun Hdb]].
  fold os. rewrite Hrun. exists w'. split; [reflexivity|exact Hdb].
Qed.

(** C8.  In both composite reads, when the orders query succeeds, the read
    answers the full order list without an error: one joined object per
    order the query matched, in the query's order and with the order's own
    columns; a sub-read that fails leaves its field at the empty list
    (items, messages) or null (address), and the other fields hold the
    stored rows.  The store is not changed.  A sub-read is a query of the
    client, which resolves also when the request fails and then carries the
    failure as its error result; it does not reject, so the script entries
    that fail a sub-read are the error results, and [no_throws] leaves out
    the entries no sub-read can meet. *)
Theorem composite_reads_degrade_failed_sub_reads :
  forall w,
    next_fault w = NoFault ->
    no_throws w ->
    (forall vendorId,
        let os := rev (filter (fun row => is_id (o_vendor_id row) vendorId)
                         (orders (db w))) in
        let details := join_with_failures (db w) os (tl (script w)) in
        map Details.order details = os /\
        exists w',
          getOrdersByVendor vendorId w
          = (Returned {| data := Some details; error := None |}, w') /\
          db w' = db w) /\
    (forall customerId,
        let os := rev (filter (fun row => is_id (o_customer_id row) customerId)
                         (orders (db w))) in
        let details := join_with_failures (db w) os (tl (script w)) in
        map Details.order details = os /\
        exists w',
          getOrdersByCustomer customerId w
          = (Returned {| data := Some details; error := None |}, w') /\
          db w' = db w).
Proof.
  intros w Hf Hs. split; intros k os details;
    (split; [apply join_orders_kept|]);
    apply composite_read_degraded; assumption.
Qed.

(** The items and the address sub-reads of order 6 come back with an error
    result: the order is still listed, with no items and no address. *)
Example degraded_read_run :
  fst (getOrdersByVendor 1%N
         (demo_world [NoFault; RetErr fetch_failed; NoFault; RetErr fetch_failed]))
  = Returned
      {| data := Some [ {| Details.order := Details.order demo_details;
                           Details.order_items := [];
                           Details.order_messages := [];
                           Details.address := None |} ];
         error := None |} /\
  fst (getOrdersByVendor 1%N (demo_world []))
  = Returned
      {| data := Some [ {| Details.order := Details.order demo_details;
                           Details.order_items := Details.order_items demo_details;
                           Details.order_messages := [];
                           Details.address := nth_error (addresses demo_store) 0 |} ];
         error := None |}.
Proof. split; reflexivity. Qed.

Lemma composite_reads_degrade_failed_sub_reads_witness :
  let w := demo_world [NoFault; RetErr fetch_failed; NoFault; RetErr fetch_failed] in
  next_fault w = NoFault /\
  no_throws w /\
  exists w',
    getOrdersByVendor 1%N w
    = (Returned
         {| data := Some (join_with_failures (db w)
                            (rev (filter (fun row => is_id (o_vendor_id row) 1%N)
                                    (orders (db w))))
                            (tl (script w)));
            error := None |}, w') /\
    db w' = db w.
Proof.
  intros w.
  assert (H1 : next_fault w = NoFault) by reflexivity.
  assert (H2 : no_throws w).
  { unfold no_throws; simpl. repeat constructor; discriminate. }
  split; [exact H1|]. split; [exact H2|].
  exact (proj2 (proj1 (composite_reads_degrade_failed_sub_reads w H1 H2) 1%N)).
Defined.

(** ** Failures stay inside the access functions *)

Lemma nth_after_skipn {A} n k (s : list A) d : nth k (skipn n s) d = nth (n + k) s d.
Proof.
  revert s. induction n as [|n IH]; intros s; simpl; [reflexivity|].
  destruct s as [|x s]; simpl; [destruct k; reflexivity|apply IH].
Qed.

Lemma skipn_add {A} n1 n2 (s : list A) : skipn n2 (skipn n1 s) = skipn (n1 + n2) s.
Proof.
  revert s. induction n1 as [|n1 IH]; intros s; simpl; [reflexivity|].
  destruct s as [|x s]; simpl; [destruct n2; reflexivity|apply IH].
Qed.

Lemma clean_zero s : clean s 0.
Proof. intros k e Hk. lia. Qed.

Lemma clean_add s n1 n2 :
  clean s n1 -> clean (skipn n1 s) n2 -> clean s (n1 + n2).
Proof.
  intros H1 H2 k e Hk. destruct (Nat.lt_ge_cases k n1) as [Hlt|Hge].
  - apply H1. exact Hlt.
  - replace k with (n1 + (k - n1)) by lia. rewrite <- nth_after_skipn.
    apply H2. lia.
Qed.

Lemma clean_one s : (forall e, nth 0 s NoFault <> Throw e) -> clean s 1.
Proof.
  intros H k e Hk. assert (k = 0) by lia. subst k. apply H.
Qed.

Lemma next_fault_nth w : next_fault w = nth 0 (script w) NoFault.
Proof. unfold next_fault. destruct (script w); reflexivity. Qed.

Lemma skipn_one {A} (s : list A) : skipn 1 s = tl s.
Proof. destruct s; reflexivity. Qed.

Lemma traced_ret {A} (a : A) : traced (ret a).
Proof.
  intros w o w' H. apply ret_inv in H. destruct H; subst.
  exists 0. rewrite Nat.add_0_r. repeat split. apply clean_zero.
Qed.

Lemma traced_throw {A} e : traced (@throw A e).
Proof.
  intros w o w' H. apply throw_inv in H. destruct H; subst.
  exists 0. rewrite Nat.add_0_r. repeat split. left. apply clean_zero.
Qed.

Lemma traced_one_call {A} (m : async A) :
  (forall w o w',
      m w = (o, w') ->
      now w' = S (now w) /\ script w' = tl (script w) /\
      match o with
      | Returned _ => forall e, next_fault w <> Throw e
      | Thrown e => next_fault w = Throw e
      end) ->
  traced m.
Proof.
  intros Hm w o w' H. destruct (Hm w o w' H) as [Hn [Hs Ho]].
  exists 1. rewrite Nat.add_1_r, skipn_one. repeat split; try assumption.
  rewrite next_fault_nth in Ho. destruct o as [a|e].
  - apply clean_one. exact Ho.
  - right. exists 0. repeat split; [apply clean_zero|exact Ho].
Qed.

Lemma traced_await {A} (q : query A) : traced (await q).
Proof.
  apply traced_one_call. intros w o w' H. unfold await in H.
  destruct (next_fault w) as [|e|e] eqn:Hf.
  - destruct (q (now w) (db w)). inversion H; subst. repeat split. discriminate.
  - inversion H; subst. repeat split. discriminate.
  - inversion H; subst. repeat split.
Qed.

Lemma traced_await_auth {A} (op : auth_state -> reply A * auth_state) :
  traced (await_auth op).
Proof.
  apply traced_one_call. intros w o w' H. unfold await_auth in H.
  destruct (next_fault w) as [|e|e] eqn:Hf.
  - destruct (op (auth w)). inversion H; subst. repeat split. discriminate.
  - inversion H; subst. repeat split. discriminate.
  - inversion H; subst. repeat split.
Qed.

Lemma traced_bind {A B} (m : async A) (k : A -> async B) :
  traced m -> (forall a, traced (k a)) -> traced (bind m k).
Proof.
  intros Hm Hk w o w' H. apply bind_inv in H.
  destruct H as [[a [w1 [H1 H2]]]|[e [H1 Ho]]].
  - destruct (Hm w _ _ H1) as [n1 [Hn1 [Hs1 Hc1]]].
    destruct (Hk a w1 _ _ H2) as [n2 [Hn2 [Hs2 Hc2]]].
    exists (n1 + n2). rewrite Hn2, Hn1, Hs2, Hs1, skipn_add.
    split; [lia|]. split; [reflexivity|].
    rewrite Hs1 in Hc2. destruct o as [b|e].
    + apply clean_add; assumption.
    + destruct Hc2 as [Hc2|[j [Hj [Hcj Hlast]]]].
      * left. apply clean_add; assumption.
      * right. exists (n1 + j). split; [lia|].
        split; [apply clean_add; assumption|].
        rewrite nth_after_skipn in Hlast. exact Hlast.
  - subst o. apply (Hm w _ _ H1).
Qed.

Lemma traced_promise_all_map {A B} (f : A -> async B) (l : list A) :
  (forall x, traced (f x)) -> traced (promise_all_map f l).
Proof.
  intros Hf. induction l as [|x l IH]; simpl; [apply traced_ret|].
  apply traced_bind; [apply Hf|]. intros y.
  apply traced_bind; [exact IH|]. intros ys. apply traced_ret.
Qed.

(** [try { body } catch (err) { return h(err) }] around a traced body
    always returns, and when one of its remote calls throws [e] it returns
    [h e]. *)
Lemma try_catch_contained {A} (body : async A) (h : err -> A) :
  traced body ->
  forall w,
    exists a w',
      try_catch body (fun e => ret (h e)) w = (Returned a, w') /\
      now w <= now w' /\
      forall k e, now w + k < now w' -> nth k (script w) NoFault = Throw e ->
                  a = h e.
Proof.
  intros Hb w. unfold try_catch. destruct (body w) as [[a|e] w1] eqn:Hrun.
  - destruct (Hb w _ _ Hrun) as [n [Hn [_ Hc]]].
    exists a, w1. split; [reflexivity|]. split; [lia|].
    intros k e Hk Hnth. exfalso. apply (Hc k e); [lia|exact Hnth].
  - destruct (Hb w _ _ Hrun) as [n [Hn [_ Hc]]].
    exists (h e), w1. split; [reflexivity|]. split; [lia|].
    intros k e' Hk Hnth. destruct Hc as [Hc|[j [Hj [Hc Hlast]]]].
    + exfalso. apply (Hc k e'); [lia|exact Hnth].
    + destruct (Nat.eq_dec k j) as [E|E].
      * subst k. rewrite Hlast in Hnth. inversion Hnth. reflexivity.
      * exfalso. apply (Hc k e'); [lia|exact Hnth].
Qed.

Ltac traced_body :=
  repeat first
    [ apply traced_ret
    | apply traced_throw
    | apply traced_await
    | apply traced_await_auth
    | apply traced_promise_all_map; intros
    | apply traced_bind; [|intros]
    | match goal with
      | |- traced (match ?x with _ => _ end) => destruct x
      | |- traced (if ?b then _ else _) => destruct b
      | |- traced (let _ := _ in _) => cbv zeta
      | |- traced (join_orders _) => unfold join_orders
      | |- traced (with_details _) => unfold with_details
      end ].

(** Every access function returns, and carries the error of a remote call
    that threw. *)
Lemma perform_contained c w :
  exists ans w',
    perform c w = (Returned ans, w') /\
    now w <= now w' /\
    forall k e, now w + k < now w' -> nth k (script w) NoFault = Throw e ->
                carries ans e.
Proof.
  destruct c; unfold perform, answering, bind;
    unfold signUp, signIn, signOut, getCurrentUser, createUser,
      getUserByUserId, updateUser, deleteUser, getServiceAreas,
      createServiceArea, updateServiceArea, deleteServiceArea,
      getUserAddresses, createAddress, updateAddress, deleteAddress,
      getInventoryByVendor, getInventoryByArea, createInventoryItem,
      updateInventoryItem, deleteInventoryItem, getOrdersByCustomer,
      getOrdersByVendor, createOrder, updateOrderStatus,
      updateOrderInvoiceId, createOrderMessage, getInvoicesByVendor,
      createInvoice, updateInvoiceStatus.
  all: match goal with
       | |- context [try_catch ?body ?h ?w0] =>
           let Hb := fresh "Hb" in
           assert (Hb : traced body) by traced_body;
           first
             [ destruct (try_catch_contained body
                           (fun e => {| data := None; error := Some e |}) Hb w0)
                 as [a [w' [Hrun [Hle Hthrow]]]]
             | destruct (try_catch_contained body
                           (fun e => {| error_only := Some e |}) Hb w0)
                 as [a [w' [Hrun [Hle Hthrow]]]]
             | destruct (try_catch_contained body (fun _ => None) Hb w0)
                 as [a [w' [Hrun [Hle Hthrow]]]] ]
       end.
  all: unfold caught, caught_error; rewrite Hrun; unfold ret.
  all: eexists _, _; split; [reflexivity|]; split; [exact Hle|].
  all: intros k e Hk Hnth; rewrite (Hthrow k e Hk Hnth); simpl; auto.
Qed.


Lemma await_auth_inv {A} (op : auth_state -> reply A * auth_state) w o w' :
  await_auth op w = (o, w') ->
  (exists r a', next_fault w = NoFault /\ op (auth w) = (r, a') /\
                o = Returned r /\ w' = after_call w (db w) a') \/
  (exists e, next_fault w = RetErr e /\ o = Returned (failed e) /\
             w' = after_call w (db w) (auth w)) \/
  (exists e, next_fault w = Throw e /\ o = Thrown e /\
             w' = after_call w (db w) (auth w)).
Proof.
  unfold await_auth. destruct (next_fault w) as [|e|e]; intros H.
  - left. destruct (op (auth w)) as [r a']. inversion H. eauto 8.
  - right; left. inversion H. eauto.
  - right; right. inversion H. eauto.
Qed.

Ltac inv_auth :=
  repeat match goal with
         | H : await_auth _ _ = (_, _) |- _ =>
             apply await_auth_inv in H;
             destruct H as [[? [? [? [? [? ?]]]]]|[[? [? [? ?]]]|[? [? [? ?]]]]];
             subst
         end.

(** The position of the last remote call, told from the clock. *)
Ltac find_last k :=
  first [ assert (k = 0) by (simpl in *; lia)
        | assert (k = 1) by (simpl in *; lia)
        | assert (k = 2) by (simpl in *; lia)
        | exfalso; simpl in *; lia ];
  subst k.

Ltac settle_last :=
  unfold next_fault, after_call in *; simpl in *;
  match goal with
  | w : world |- _ =>
      destruct (script w) as [|? [|? [|? ?]]]; simpl in *
  end;
  subst;
  repeat match goal with
         | H : Returned _ = Returned _ |- _ => inv_pair H
         | H : RetErr _ = RetErr _ |- _ => inv_pair H
         | H : NoFault = RetErr _ |- _ => discriminate H
         | H : RetErr _ = NoFault |- _ => discriminate H
         | H : Throw _ = RetErr _ |- _ => discriminate H
         | H : RetErr _ = Throw _ |- _ => discriminate H
         | H : Throw _ = NoFault |- _ => discriminate H
         | H : NoFault = Throw _ |- _ => discriminate H
         end;
  simpl; try discriminate; repeat split; try reflexivity; try congruence.

(** When the last remote call a function makes comes back with an error
    result, the function answers that error; for the composite reads this
    is so when the call is the orders query. *)
Lemma perform_reports_last_error c w ans w' :
  perform c w = (Returned ans, w') ->
  forall k e,
    now w' = S (now w + k) ->
    nth k (script w) NoFault = RetErr e ->
    (is_composite c = true -> k = 0) ->
    carries ans e.
Proof.
  intros Hrun k e Hk Hnth Hcomp.
  destruct c; unfold perform, answering in Hrun;
    unfold signUp, signIn, signOut, getCurrentUser, createUser,
      getUserByUserId, updateUser, deleteUser, getServiceAreas,
      createServiceArea, updateServiceArea, deleteServiceArea,
      getUserAddresses, createAddress, updateAddress, deleteAddress,
      getInventoryByVendor, getInventoryByArea, createInventoryItem,
      updateInventoryItem, deleteInventoryItem, getOrdersByCustomer,
      getOrdersByVendor, createOrder, updateOrderStatus,
      updateOrderInvoiceId, createOrderMessage, getInvoicesByVendor,
      createInvoice, updateInvoiceStatus in Hrun;
    try specialize (Hcomp eq_refl).
  all: inv_run; inv_auth; try (find_last k; settle_last).
  all: repeat match goal with
             | H : next_fault _ = _ |- _ => rewrite next_fault_nth in H
             end;
    unfold join_orders in *; simpl in *; inv_run;
    split; congruence.
Qed.


(** C5, as stated, fails: an error result of a remote call is not always
    reported.  [createAddress] does not look at the result of its clearing
    write, so when that call fails and the insert succeeds it answers the new
    row with a null error; and [getCurrentUser] answers [null], not a
    [{ data, error }] pair, when its call throws. *)
Lemma clearing_error_is_not_reported :
  next_fault (demo_world [RetErr fetch_failed]) = RetErr fetch_failed /\
  (exists row,
      fst (createAddress demo_new_address (demo_world [RetErr fetch_failed]))
      = Returned {| data := Some row; error := None |}) /\
  fst (getCurrentUser (demo_world [Throw fetch_failed])) = Returned None.
Proof.
  split; [reflexivity|]. split; [eexists; reflexivity|reflexivity].
Qed.

(** C5, amended.  Every function [database.ts] exports returns normally for
    every input, every store and every script of failures: it never throws
    past its own boundary.  Counting the remote calls it made by the clock:
    - if one of them threw [e], the answer carries [e] with null data
      ([{ data: null, error: e }], or [{ error: e }] for sign-out and the
      delete functions; [getCurrentUser] answers [null]);
    - if the last of them came back with the error result [e], the answer
      carries [e] likewise; for the composite reads this is so when that call
      is the orders query.
    An error result of an earlier call whose result the function does not
    look at (the default-clearing steps, the vendor-name lookup) or of a
    per-order sub-read is not reported. *)
Theorem access_functions_contain_failures :
  forall c w,
    exists ans w',
      perform c w = (Returned ans, w') /\
      (forall k e,
          now w + k < now w' -> nth k (script w) NoFault = Throw e ->
          carries ans e) /\
      (forall k e,
          now w' = S (now w + k) -> nth k (script w) NoFault = RetErr e ->
          (is_composite c = true -> k = 0) ->
          carries ans e).
Proof.
  intros c w.
  destruct (perform_contained c w) as [ans [w' [Hrun [_ Hthrow]]]].
  exists ans, w'. split; [exact Hrun|]. split; [exact Hthrow|].
  intros k e Hk Hnth Hcomp.
  exact (perform_reports_last_error c w ans w' Hrun k e Hk Hnth Hcomp).
Qed.

Example failures_contained_run :
  fst (perform (CreateOrder demo_order) (demo_world [NoFault; Throw fetch_failed]))
  = Returned (Pair (@failed orders_row fetch_failed)) /\
  fst (perform (DeleteUser 2%N) (demo_world [Throw fetch_failed]))
  = Returned (ErrorOnly {| error_only := Some fetch_failed |}) /\
  fst (perform (GetUserByUserId "nobody") (demo_world []))
  = Returned (Pair (@failed users_row PGRST116)) /\
  fst (perform (UpdateUser 2%N
                  {| PartialUser.id := None; PartialUser.userId := None;
                     PartialUser.name := Some "Maya R"; PartialUser.phone := None;
                     PartialUser.type := None; PartialUser.areaId := None;
                     PartialUser.serviceArea := None |})
         (demo_world []))
  = Returned (Pair (ok {| u_id := 2%N; u_user_id := "maya"; u_name := "Maya R";
                          u_phone := Some "555-0100"; u_user_type := customer;
                          u_area_id := Some 3%N; u_service_area := None |})).
Proof. repeat split. Qed.

(** In the older copy a rejected auth call leaves the function as an
    exception. *)
Example older_getCurrentUser_throws :
  fst (EarlierCopy.getCurrentUser (demo_world [Throw fetch_failed])) = Thrown fetch_failed /\
  fst (EarlierCopy.signOut (demo_world [Throw fetch_failed])) = Thrown fetch_failed /\
  fst (getCurrentUser (demo_world [Throw fetch_failed])) = Returned None /\
  fst (signOut (demo_world [Throw fetch_failed]))
  = Returned {| error_only := Some fetch_failed |}.
Proof. repeat split. Qed.

(** * Further properties of the access functions *)

(** ** Reads *)

Lemma read_only_select {R} (t : table R) p : read_only (select t p).
Proof. intros n d. reflexivity. Qed.

Lemma read_only_single {R} (q : query (list R)) : read_only q -> read_only (single q).
Proof.
  intros Hq n d. unfold single. specialize (Hq n d).
  destruct (q n d) as [r d']. simpl in Hq. subst d'.
  destruct (data r) as [[|x [|y l]]|]; reflexivity.
Qed.

Lemma read_only_newest_first {R} (q : query (list R)) :
  read_only q -> read_only (newest_first q).
Proof.
  intros Hq n d. unfold newest_first. specialize (Hq n d).
  destruct (q n d) as [r d']. exact Hq.
Qed.

Lemma read_only_true_first {R} key (q : query (list R)) :
  read_only q -> read_only (true_first key q).
Proof.
  intros Hq n d. unfold true_first. specialize (Hq n d).
  destruct (q n d) as [r d']. exact Hq.
Qed.

Lemma read_only_invoices_of_vendor vendorId : read_only (invoices_of_vendor vendorId).
Proof. intros n d. reflexivity. Qed.

Lemma keeps_await_read {A} (q : query A) d0 :
  read_only q -> keeps (fun w => db w = d0) (await q).
Proof.
  intros Hq. apply (keeps_await_db (fun d => d = d0)).
  intros t d H. rewrite Hq. exact H.
Qed.

Lemma keeps_await_auth_db {A} (op : auth_state -> reply A * auth_state) d0 :
  keeps (fun w => db w = d0) (await_auth op).
Proof.
  intros w H. unfold await_auth.
  destruct (next_fault w); simpl; try exact H.
  destruct (op (auth w)); exact H.
Qed.

Ltac keeps_reading :=
  repeat first
    [ apply keeps_ret
    | apply keeps_try_catch; [|intros; apply keeps_ret]
    | apply keeps_bind; [|intros]
    | apply keeps_all_details; intros
    | apply keeps_await_auth_db
    | apply keeps_await_read;
      repeat first [ apply read_only_select | apply read_only_single
                   | apply read_only_newest_first | apply read_only_true_first
                   | apply read_only_invoices_of_vendor ]
    | match goal with
      | |- keeps _ (match ?x with _ => _ end) => destruct x
      | |- keeps _ (join_orders _) => unfold join_orders
      | |- keeps _ (with_details _) => unfold with_details
      end ].

(** X1.  The read functions never write: whatever the script of failures,
    the store after [getUserByUserId], [getServiceAreas], [getUserAddresses],
    [getInventoryByVendor], [getInventoryByArea], [getOrdersByCustomer],
    [getOrdersByVendor], [getInvoicesByVendor] or [getCurrentUser] is the
    store before. *)
Theorem reads_leave_the_store_unchanged :
  forall w,
    (forall userId, db (snd (getUserByUserId userId w)) = db w) /\
    db (snd (getServiceAreas w)) = db w /\
    (forall userId, db (snd (getUserAddresses userId w)) = db w) /\
    (forall vendorId, db (snd (getInventoryByVendor vendorId w)) = db w) /\
    (forall areaId, db (snd (getInventoryByArea areaId w)) = db w) /\
    (forall customerId, db (snd (getOrdersByCustomer customerId w)) = db w) /\
    (forall vendorId, db (snd (getOrdersByVendor vendorId w)) = db w) /\
    (forall vendorId, db (snd (getInvoicesByVendor vendorId w)) = db w) /\
    db (snd (getCurrentUser w)) = db w.
Proof.
  intros w.
  repeat split; intros;
    match goal with
    | |- db (snd (?f w)) = db w =>
        apply (fun H : keeps (fun w' => db w' = db w) f => H w eq_refl)
    end;
    unfold getUserByUserId, getServiceAreas, getUserAddresses,
      getInventoryByVendor, getInventoryByArea, getOrdersByCustomer,
      getOrdersByVendor, getInvoicesByVendor, getCurrentUser;
    keeps_reading.
Qed.

(** ** Missing keys *)

Lemma filter_key_absent {A} (key : A -> uuid) (id : uuid) (l : list A) :
  ~ In id (map key l) -> filter (fun r => N.eqb (key r) id) l = [].
Proof.
  intros H. apply filter_none, Forall_forall. intros r Hr.
  apply N.eqb_neq. intros E. apply H. rewrite <- E. apply in_map. exact Hr.
Qed.

Lemma update_missing_key {R} (t : table R) (key : R -> uuid) id (f : R -> R) w :
  undisturbed w ->
  ~ In id (map key (rows t (db w))) ->
  try_catch
    (r <- await (single (update t (fun row => N.eqb (key row) id) f)) ;;
     ret {| data := data r; error := error r |})
    caught w
  = (Returned (failed PGRST116), after_call w (db w) (auth w)).
Proof.
  intros Hu Hid. unfold try_catch, bind. rewrite (await_undisturbed _ w Hu).
  rewrite single_update_eq, (filter_key_absent key id _ Hid). reflexivity.
Qed.

(** In an undisturbed world no remote call fails. *)
Ltac calm :=
  match goal with
  | Hu : undisturbed ?w, H : next_fault ?w' = RetErr _ |- _ =>
      exfalso;
      let Hc := fresh in
      assert (Hc : next_fault w' = NoFault)
        by (apply undisturbed_next; repeat apply undisturbed_after_call; exact Hu);
      rewrite Hc in H; discriminate H
  | Hu : undisturbed ?w, H : next_fault ?w' = Throw _ |- _ =>
      exfalso;
      let Hc := fresh in
      assert (Hc : next_fault w' = NoFault)
        by (apply undisturbed_next; repeat apply undisturbed_after_call; exact Hu);
      rewrite Hc in H; discriminate H
  end.

(** X2.  In an undisturbed world, an update addressed to a key that no row
    of its table has answers [{ data: null, error: PGRST116 }] and leaves
    the store as it was; this holds for [updateUser], [updateServiceArea],
    [updateAddress] (also when it asks for a new default), [updateInventoryItem],
    [updateOrderStatus], [updateOrderInvoiceId] and [updateInvoiceStatus]. *)
Theorem update_of_missing_key_writes_nothing :
  forall w,
    undisturbed w ->
    (forall id updates,
        ~ In id (map u_id (users (db w))) ->
        fst (updateUser id updates w) = Returned (failed PGRST116) /\
        db (snd (updateUser id updates w)) = db w) /\
    (forall id updates,
        ~ In id (map sa_id (service_areas (db w))) ->
        fst (updateServiceArea id updates w) = Returned (failed PGRST116) /\
        db (snd (updateServiceArea id updates w)) = db w) /\
    (forall id updates,
        ~ In id (map a_id (addresses (db w))) ->
        fst (updateAddress id updates w) = Returned (failed PGRST116) /\
        db (snd (updateAddress id updates w)) = db w) /\
    (forall id updates,
        ~ In id (map i_id (inventory_items (db w))) ->
        fst (updateInventoryItem id updates w) = Returned (failed PGRST116) /\
        db (snd (updateInventoryItem id updates w)) = db w) /\
    (forall id status,
        ~ In id (map o_id (orders (db w))) ->
        fst (updateOrderStatus id status w) = Returned (failed PGRST116) /\
        db (snd (updateOrderStatus id status w)) = db w) /\
    (forall id invoiceId,
        ~ In id (map o_id (orders (db w))) ->
        fst (updateOrderInvoiceId id invoiceId w) = Returned (failed PGRST116) /\
        db (snd (updateOrderInvoiceId id invoiceId w)) = db w) /\
    (forall id status,
        ~ In id (map v_id (invoices (db w))) ->
        fst (updateInvoiceStatus id status w) = Returned (failed PGRST116) /\
        db (snd (updateInvoiceStatus id status w)) = db w).
Proof.
  intros w Hu.
  split; [|split; [|split; [|split; [|split; [|split]]]]]; intros id x Hid.
  - unfold updateUser. rewrite (update_missing_key users_t u_id); auto.
  - unfold updateServiceArea. rewrite (update_missing_key service_areas_t sa_id); auto.
  - pose proof (filter_key_absent a_id id _ Hid) as Hnone.
    destruct (updateAddress id x w) as [o w'] eqn:Hrun. simpl.
    unfold updateAddress in Hrun. inv_run; try calm.
    all: rewrite ?Hnone in *; simpl in *; try discriminate.
    all: split; reflexivity.
  - unfold updateInventoryItem.
    rewrite (update_missing_key inventory_items_t i_id); auto.
  - unfold updateOrderStatus. rewrite (update_missing_key orders_t o_id); auto.
  - unfold updateOrderInvoiceId. rewrite (update_missing_key orders_t o_id); auto.
  - unfold updateInvoiceStatus. rewrite (update_missing_key invoices_t v_id); auto.
Qed.

Lemma update_of_missing_key_writes_nothing_witness :
  undisturbed (demo_world []) /\
  ~ In 99%N (map u_id (users (db (demo_world [])))) /\
  fst (updateUser 99%N rename_user (demo_world [])) = Returned (failed PGRST116) /\
  db (snd (updateUser 99%N rename_user (demo_world []))) = db (demo_world []).
Proof.
  assert (H1 : undisturbed (demo_world [])) by constructor.
  assert (H2 : ~ In 99%N (map u_id (users (db (demo_world []))))).
  { simpl. intros [H|[H|[]]]; discriminate H. }
  split; [exact H1|]. split; [exact H2|].
  exact (proj1 (update_of_missing_key_writes_nothing (demo_world []) H1)
           99%N rename_user H2).
Defined.

(** ** Deletes *)

Lemma delete_call {R} (t : table R) (p : R -> bool) w a w' :
  (forall l d, rows t (put_rows t l d) = l) ->
  try_catch
    (r <- await (minimal (delete t p)) ;; ret {| error_only := error r |})
    caught_error w
  = (Returned a, w') ->
  filter (fun r => negb (p r)) (rows t (db w'))
  = filter (fun r => negb (p r)) (rows t (db w)) /\
  (error_only a = None -> filter p (rows t (db w')) = []).
Proof.
  intros Hrows Hrun. inv_run; simpl; try (split; [reflexivity|discriminate]).
  unfold minimal, delete in *. simpl in *.
  match goal with H : (_, _) = (_, _) |- _ => inversion H; subst; clear H end.
  rewrite Hrows. split.
  - apply filter_all. apply Forall_forall. intros r Hr.
    apply filter_In in Hr. apply Hr.
  - intros _. apply filter_none. apply Forall_forall. intros r Hr.
    apply filter_In in Hr. destruct Hr as [_ Hr]. destruct (p r); simpl in *; congruence.
Qed.

(** X3.  A delete takes only rows with the given key out of its table, and
    none of them is left when it reports no error: [deleteUser],
    [deleteAddress] and [deleteInventoryItem] select by primary key,
    [deleteServiceArea] by the vendor, so it removes every service area of
    that vendor.  The rows that stay keep their order. *)
Theorem deletes_remove_the_given_key_only :
  (forall id w a w',
      deleteUser id w = (Returned a, w') ->
      filter (fun r => negb (N.eqb (u_id r) id)) (users (db w'))
      = filter (fun r => negb (N.eqb (u_id r) id)) (users (db w)) /\
      (error_only a = None ->
       filter (fun r => N.eqb (u_id r) id) (users (db w')) = [])) /\
  (forall id w a w',
      deleteAddress id w = (Returned a, w') ->
      filter (fun r => negb (N.eqb (a_id r) id)) (addresses (db w'))
      = filter (fun r => negb (N.eqb (a_id r) id)) (addresses (db w)) /\
      (error_only a = None ->
       filter (fun r => N.eqb (a_id r) id) (addresses (db w')) = [])) /\
  (forall id w a w',
      deleteInventoryItem id w = (Returned a, w') ->
      filter (fun r => negb (N.eqb (i_id r) id)) (inventory_items (db w'))
      = filter (fun r => negb (N.eqb (i_id r) id)) (inventory_items (db w)) /\
      (error_only a = None ->
       filter (fun r => N.eqb (i_id r) id) (inventory_items (db w')) = [])) /\
  (forall vendorId w a w',
      deleteServiceArea vendorId w = (Returned a, w') ->
      filter (fun r => negb (is_id (sa_vendor_id r) vendorId)) (service_areas (db w'))
      = filter (fun r => negb (is_id (sa_vendor_id r) vendorId))
          (service_areas (db w)) /\
      (error_only a = None ->
       filter (fun r => is_id (sa_vendor_id r) vendorId) (service_areas (db w')) = [])).
Proof.
  split; [|split; [|split]]; intros id w a w' Hrun.
  - apply (delete_call users_t (fun r => N.eqb (u_id r) id) w a w');
      [reflexivity|exact Hrun].
  - apply (delete_call addresses_t (fun r => N.eqb (a_id r) id) w a w');
      [reflexivity|exact Hrun].
  - apply (delete_call inventory_items_t (fun r => N.eqb (i_id r) id) w a w');
      [reflexivity|exact Hrun].
  - apply (delete_call service_areas_t (fun r => is_id (sa_vendor_id r) id) w a w');
      [reflexivity|exact Hrun].
Qed.

Lemma deletes_remove_the_given_key_only_witness :
  deleteServiceArea 1%N (demo_world [])
  = (Returned {| error_only := None |}, snd (deleteServiceArea 1%N (demo_world []))) /\
  filter (fun r => is_id (sa_vendor_id r) 1%N)
    (service_areas (db (snd (deleteServiceArea 1%N (demo_world []))))) = [].
Proof.
  assert (H : deleteServiceArea 1%N (demo_world [])
              = (Returned {| error_only := None |},
                 snd (deleteServiceArea 1%N (demo_world [])))) by reflexivity.
  split; [exact H|].
  exact (proj2 (proj2 (proj2 (proj2 deletes_remove_the_given_key_only))
                  1%N (demo_world []) _ _ H) eq_refl).
Defined.

(** ** Registration *)

(** X4.  In an undisturbed world in which no user row has the new user id,
    the lookup by user id first answers the not-found error PGRST116 with
    null data; [createUser] then answers the row it inserted (the next key;
    an empty phone or service area stored as NULL), and the same lookup
    afterwards answers that row. *)
Theorem createUser_then_lookup :
  forall userData w,
    undisturbed w ->
    ~ In (NewUser.userId userData) (map u_user_id (users (db w))) ->
    let row :=
      {| u_id := next_id (db w);
         u_user_id := NewUser.userId userData;
         u_name := NewUser.name userData;
         u_phone := or_null (NewUser.phone userData);
         u_user_type := NewUser.type userData;
         u_area_id := NewUser.areaId userData;
         u_service_area := or_null (NewUser.serviceArea userData) |} in
    fst (getUserByUserId (NewUser.userId userData) w) = Returned (failed PGRST116) /\
    fst (createUser userData w) = Returned (ok row) /\
    fst (getUserByUserId (NewUser.userId userData) (snd (createUser userData w)))
    = Returned (ok row).
Proof.
  intros userData w Hu Hnew row.
  assert (Hnone : filter (fun r => String.eqb (u_user_id r) (NewUser.userId userData))
                    (users (db w)) = []).
  { apply filter_none, Forall_forall. intros r Hr. apply String.eqb_neq.
    intros E. apply Hnew. rewrite <- E. apply in_map. exact Hr. }
  split; [|split].
  - unfold getUserByUserId, try_catch, bind.
    rewrite (await_undisturbed _ w Hu), single_select_eq. simpl.
    rewrite Hnone. reflexivity.
  - unfold createUser, try_catch, bind.
    rewrite (await_undisturbed _ w Hu), single_insert_eq. reflexivity.
  - unfold createUser, try_catch, bind at 1.
    rewrite (await_undisturbed _ w Hu), single_insert_eq. simpl.
    unfold getUserByUserId, try_catch, bind.
    rewrite (await_undisturbed _ _ (undisturbed_after_call w _ _ Hu)).
    rewrite single_select_eq. simpl.
    rewrite filter_app, Hnone. simpl. rewrite String.eqb_refl. reflexivity.
Qed.

Lemma createUser_then_lookup_witness :
  undisturbed (demo_world []) /\
  ~ In (NewUser.userId demo_new_user) (map u_user_id (users (db (demo_world [])))) /\
  fst (getUserByUserId "ravi" (snd (createUser demo_new_user (demo_world []))))
  = Returned (ok {| u_id := 8%N; u_user_id := "ravi"; u_name := "Ravi";
                    u_phone := None; u_user_type := customer;
                    u_area_id := Some 3%N; u_service_area := None |}).
Proof.
  assert (H1 : undisturbed (demo_world [])) by constructor.
  assert (H2 : ~ In (NewUser.userId demo_new_user)
                 (map u_user_id (users (db (demo_world []))))).
  { simpl. intros [H|[H|[]]]; discriminate H. }
  split; [exact H1|]. split; [exact H2|].
  exact (proj2 (proj2 (createUser_then_lookup demo_new_user (demo_world []) H1 H2))).
Defined.

(** ** Setting the default address *)

Lemma filter_map_same {A} (p : A -> bool) (h : A -> A) (l : list A) :
  (forall r, In r l -> p (h r) = p r /\ (p r = true -> h r = r)) ->
  filter p (map h l) = filter p l.
Proof.
  induction l as [|x l IH]; simpl; intros H; [reflexivity|].
  destruct (H x (or_introl eq_refl)) as [Hp Hx].
  rewrite Hp. destruct (p x) eqn:E.
  - rewrite (Hx eq_refl). f_equal. apply IH. intros r Hr. apply H. right. exact Hr.
  - apply IH. intros r Hr. apply H. right. exact Hr.
Qed.

Lemma defaults_of_others_after_clear owner u l :
  u <> owner ->
  defaults_of u (clear_defaults owner l) = defaults_of u l.
Proof.
  intros Hne. unfold defaults_of, clear_defaults. apply filter_map_same.
  intros r _. destruct (is_id (a_user_id r) owner) eqn:E; [|auto].
  assert (Hu : is_id (a_user_id r) u = false).
  { destruct (a_user_id r) as [x|]; simpl in *; [|reflexivity].
    apply N.eqb_eq in E. subst x. apply N.eqb_neq. congruence. }
  simpl. rewrite Hu. simpl. split; [reflexivity|discriminate].
Qed.

(** X5.  In an undisturbed world [createAddress] answers the row it
    inserted.  With [isDefault] true that row is afterwards the one and only
    default address of its user; with [isDefault] false the user's defaults
    are as before.  The defaults of every other user are as before in both
    cases. *)
Theorem createAddress_sets_the_only_default :
  forall addressData w,
    undisturbed w ->
    let row :=
      {| a_id := next_id (db w);
         a_user_id := Some (NewAddress.userId addressData);
         a_label := NewAddress.label addressData;
         a_street := NewAddress.street addressData;
         a_city := NewAddress.city addressData;
         a_state := NewAddress.state addressData;
         a_zip_code := NewAddress.zipCode addressData;
         a_is_default := NewAddress.isDefault addressData;
         a_area_id := NewAddress.areaId addressData |} in
    let after := addresses (db (snd (createAddress addressData w))) in
    fst (createAddress addressData w) = Returned (ok row) /\
    defaults_of (NewAddress.userId addressData) after
    = (if NewAddress.isDefault addressData
       then [row]
       else defaults_of (NewAddress.userId addressData) (addresses (db w))) /\
    (forall u, u <> NewAddress.userId addressData ->
               defaults_of u after = defaults_of u (addresses (db w))).
Proof.
  intros addressData w Hu row after. subst after row.
  destruct (createAddress addressData w) as [o w'] eqn:Hrun. simpl.
  unfold createAddress in Hrun. inv_run; try calm.
  - fold (clear_defaults (NewAddress.userId addressData) (addresses (db w))).
    split; [reflexivity|]. split.
    + unfold defaults_of at 1. rewrite filter_app.
      fold (defaults_of (NewAddress.userId addressData)
              (clear_defaults (NewAddress.userId addressData) (addresses (db w)))).
      rewrite defaults_after_clear_owner. simpl. rewrite N.eqb_refl. reflexivity.
    + intros u Hne. unfold defaults_of at 1. rewrite filter_app.
      fold (defaults_of u
              (clear_defaults (NewAddress.userId addressData) (addresses (db w)))).
      rewrite (defaults_of_others_after_clear _ u _ Hne). simpl.
      destruct (N.eqb_spec (NewAddress.userId addressData) u) as [E|E];
        [congruence|]. simpl. apply app_nil_r.
  - split; [reflexivity|]. split.
    + unfold defaults_of. rewrite filter_app. simpl. rewrite andb_false_r.
      apply app_nil_r.
    + intros u Hne. unfold defaults_of. rewrite filter_app. simpl.
      rewrite andb_false_r. apply app_nil_r.
Qed.

Lemma createAddress_sets_the_only_default_witness :
  undisturbed (demo_world []) /\
  exists row,
    a_id row = 8%N /\ a_label row = "Office" /\
    defaults_of 2%N (addresses (db (snd (createAddress demo_new_address (demo_world [])))))
    = [row].
Proof.
  assert (H1 : undisturbed (demo_world [])) by constructor.
  split; [exact H1|].
  eexists. split; [|split];
    [| |exact (proj1 (proj2 (createAddress_sets_the_only_default
                               demo_new_address (demo_world []) H1)))];
    reflexivity.
Defined.

Lemma update_untouched {A} (key : A -> uuid) id (g : A -> A) (l : list A) :
  filter (fun r => N.eqb (key r) id) l = [] ->
  map (fun r => if N.eqb (key r) id then g r else r) l = l.
Proof.
  induction l as [|x l IH]; simpl; intros H; [reflexivity|].
  destruct (N.eqb (key x) id); [discriminate|]. rewrite IH; auto.
Qed.

Lemma filter_singleton_cons {A} (p : A -> bool) (x a : A) (l : list A) :
  filter p (x :: l) = [a] ->
  (p x = true /\ x = a /\ filter p l = []) \/ (p x = false /\ filter p l = [a]).
Proof.
  simpl. destruct (p x); intros H; [left|right; auto].
  inversion H. auto.
Qed.

Lemma defaults_after_marking updates id owner a l :
  PartialAddress.isDefault updates = Some true ->
  filter (fun r => N.eqb (a_id r) id) l = [a] ->
  a_user_id a = Some owner ->
  let marked :=
    map (fun r => if N.eqb (a_id r) id
                  then apply_addresses_patch (updateAddress_updateData updates) r
                  else r)
      (clear_defaults owner l) in
  defaults_of owner marked
  = [apply_addresses_patch (updateAddress_updateData updates)
       (apply_addresses_patch unset_default a)] /\
  (forall u, u <> owner -> defaults_of u marked = defaults_of u l).
Proof.
  intros Hd Hfound Howner marked. subst marked. split.
  - revert Hfound. induction l as [|x l IH]; intros Hfound; [discriminate|].
    apply filter_singleton_cons in Hfound.
    destruct Hfound as [[Hx [E Hrest]]|[Hx Hrest]].
    + subst x. simpl. rewrite Howner. simpl. rewrite N.eqb_refl. simpl.
      rewrite Hx. unfold defaults_of. simpl. rewrite Howner, Hd. simpl.
      rewrite N.eqb_refl. simpl. f_equal.
      rewrite update_untouched.
      * apply defaults_after_clear_owner.
      * rewrite filter_key_after_clear, Hrest. reflexivity.
    + simpl. destruct (is_id (a_user_id x) owner) eqn:E; simpl; rewrite Hx;
        unfold defaults_of in *; simpl; rewrite ?E; simpl;
        rewrite ?andb_false_r; apply IH; exact Hrest.
  - intros u Hne. unfold defaults_of, clear_defaults. rewrite map_map.
    apply filter_map_same.
    intros r Hr.
    destruct (is_id (a_user_id r) owner) eqn:E.
    + assert (Hu : is_id (a_user_id r) u = false).
      { destruct (a_user_id r) as [x|]; simpl in *; [|reflexivity].
        apply N.eqb_eq in E. subst x. apply N.eqb_neq. congruence. }
      simpl. destruct (N.eqb (a_id r) id); simpl; rewrite Hu; simpl;
        (split; [reflexivity|discriminate]).
    + destruct (N.eqb (a_id r) id) eqn:Eid; [|auto].
      exfalso. assert (Hin : In r (filter (fun r => N.eqb (a_id r) id) l))
        by (apply filter_In; auto).
      rewrite Hfound in Hin. destruct Hin as [Hin|[]]. subst r.
      rewrite Howner in E. simpl in E. rewrite N.eqb_refl in E. discriminate.
Qed.

(** X6.  In an undisturbed world, [updateAddress] with [isDefault: true] on
    the key of exactly one address, owned by some user, answers the updated
    row and leaves that row as the one and only default of its owner: the
    owner's former default is unmarked.  The defaults of every other user are
    as before. *)
Theorem updateAddress_moves_the_default :
  forall id updates w a owner,
    undisturbed w ->
    PartialAddress.isDefault updates = Some true ->
    filter (fun r => N.eqb (a_id r) id) (addresses (db w)) = [a] ->
    a_user_id a = Some owner ->
    let row := apply_addresses_patch (updateAddress_updateData updates)
                 (apply_addresses_patch unset_default a) in
    let after := addresses (db (snd (updateAddress id updates w))) in
    fst (updateAddress id updates w) = Returned (ok row) /\
    a_is_default row = true /\
    defaults_of owner after = [row] /\
    (forall u, u <> owner -> defaults_of u after = defaults_of u (addresses (db w))).
Proof.
  intros id updates w a owner Hu Hd Hfound Howner row after. subst after.
  destruct (defaults_after_marking updates id owner a (addresses (db w))
              Hd Hfound Howner) as [Hown Hothers].
  assert (Hrow : a_is_default row = true) by (subst row; simpl; rewrite Hd; reflexivity).
  destruct (updateAddress id updates w) as [o w'] eqn:Hrun. simpl.
  unfold updateAddress in Hrun. rewrite Hd in Hrun. inv_run; try calm.
  all: repeat match goal with
              | H : data _ = Some _ |- _ => apply single_data_some in H
              | H : data _ = None |- _ =>
                  exfalso; exact (single_data_none _ H a Hfound)
              end.
  all: try match goal with
           | H : filter _ _ = [?x] |- _ =>
               rewrite Hfound in H; inversion H; subst x; clear H
           end.
  all: try congruence.
  all: try match goal with
           | H : a_user_id _ = Some ?u |- _ =>
               assert (u = owner) by congruence; subst u
           end.
  all: try fold (clear_defaults owner (addresses (db w))) in *.
  all: try match goal with
           | H : map _ (filter _ (clear_defaults _ _)) = _ |- _ =>
               rewrite filter_key_after_clear, Hfound in H; simpl in H;
               rewrite Howner in H; simpl in H; rewrite N.eqb_refl in H;
               inversion H; subst; clear H
           end.
  all: split; [reflexivity|]; split; [exact Hrow|]; split; assumption.
Qed.

Lemma updateAddress_moves_the_default_witness :
  let w := snd (createAddress demo_new_address (demo_world [])) in
  undisturbed w /\
  PartialAddress.isDefault make_default = Some true /\
  (exists a, filter (fun r => N.eqb (a_id r) 4%N) (addresses (db w)) = [a] /\
             a_user_id a = Some 2%N) /\
  map a_id (defaults_of 2%N (addresses (db w))) = [8%N] /\
  map a_id (defaults_of 2%N (addresses (db (snd (updateAddress 4%N make_default w)))))
  = [4%N].
Proof.
  intros w.
  assert (H1 : undisturbed w) by constructor.
  assert (H2 : PartialAddress.isDefault make_default = Some true) by reflexivity.
  assert (H3 : filter (fun r => N.eqb (a_id r) 4%N) (addresses (db w))
               = [apply_addresses_patch unset_default
                    {| a_id := 4%N; a_user_id := Some 2%N; a_label := "Home";
                       a_street := "1 Well Lane"; a_city := "Springfield";
                       a_state := "KA"; a_zip_code := "560001";
                       a_is_default := true; a_area_id := Some 3%N |}])
    by reflexivity.
  split; [exact H1|]. split; [exact H2|].
  split; [eexists; split; [exact H3|reflexivity]|]. split; [reflexivity|].
  rewrite (proj1 (proj2 (proj2 (updateAddress_moves_the_default 4%N make_default w
                                  _ 2%N H1 H2 H3 eq_refl)))).
  reflexivity.
Defined.

(** ** The booking form: inventory and quantities *)

Lemma nodup_map_filter {A} (key : A -> uuid) (p : A -> bool) (l : list A) :
  NoDup (map key l) -> NoDup (map key (filter p l)).
Proof.
  induction l as [|x l IH]; simpl; intros H; [constructor|].
  inversion H as [|? ? Hx Hl]; subst.
  destruct (p x); simpl; [|apply IH; exact Hl].
  constructor; [|apply IH; exact Hl].
  intros Hin. apply Hx. apply in_map_iff in Hin. destruct Hin as [y [E Hy]].
  apply filter_In in Hy. rewrite <- E. apply in_map. apply Hy.
Qed.

Lemma loaded_from_store (p : inventory_items_row -> bool) d :
  NoDup (map i_id (inventory_items d)) ->
  stock_not_negative d ->
  inventory_loaded (map to_inventory_item (filter p (inventory_items d))).
Proof.
  intros Hnd Hstock. split.
  - rewrite map_map. simpl. apply (nodup_map_filter i_id). exact Hnd.
  - apply Forall_map. apply Forall_forall. intros r Hr. simpl.
    apply filter_In in Hr. unfold stock_not_negative in Hstock.
    rewrite Forall_forall in Hstock. apply Hstock, Hr.
Qed.

(** X7.  Whatever the script of failures, [loadInventory] returns, leaves
    the cart as it was (a change of area does not empty the cart), and
    either leaves the inventory as it was or replaces it by items that all
    belong to one vendor.  On a store whose inventory keys are unique and
    whose stocks are not negative, the inventory it leaves is loaded in the
    sense the cart handlers rely on: unique keys, no negative stock. *)
Theorem loadInventory_keeps_cart_and_loads_one_vendor :
  forall areaId s w,
    exists s' w',
      loadInventory areaId s w = (Returned s', w') /\
      db w' = db w /\
      cart s' = cart s /\
      (inventory s' = inventory s \/
       exists v, Forall (fun item => InventoryItem.vendorId item = Some v)
                   (inventory s')) /\
      (NoDup (map i_id (inventory_items (db w))) ->
       stock_not_negative (db w) ->
       inventory_loaded (inventory s) ->
       inventory_loaded (inventory s')).
Proof.
  intros areaId s w.
  destruct (loadInventory areaId s w) as [o w'] eqn:Hrun.
  unfold loadInventory, getInventoryByArea in Hrun. inv_run.
  all: try (eexists _, _; split; [reflexivity|];
            split; [reflexivity|]; split; [reflexivity|];
            split; [left; reflexivity|]; intros; assumption).
  all: try discriminate.
  all: eexists _, _; split; [reflexivity|];
    split; [reflexivity|]; split; [reflexivity|]; split.
  all: match goal with
       | H : Some _ = Some _ |- _ => injection H as H; subst
       end.
  2: intros Hnd Hstock _; apply loaded_from_store; assumption.
  match goal with
  | |- context [sa_vendor_id ?area] =>
      destruct (sa_vendor_id area) as [v|] eqn:Hv; right; [exists v|exists 0%N]
  end.
  - apply Forall_map, Forall_forall. intros r Hr.
    apply filter_In in Hr. destruct Hr as [_ Hr]. simpl.
    destruct (i_vendor_id r) as [x|]; simpl in Hr; [|discriminate].
    apply N.eqb_eq in Hr. congruence.
  - simpl. rewrite filter_none; [constructor|].
    apply Forall_forall. intros; reflexivity.
Qed.

(** X8.  With no failure on the way, [getInventoryByArea] of an area that
    is stored once and has a vendor answers with exactly that vendor's
    inventory rows, in stored order, and [loadInventory] shows them; for an
    area that is not stored it answers with the error of the missing row,
    and [loadInventory] leaves the form showing what it showed before. *)
Theorem getInventoryByArea_follows_the_area_vendor :
  forall areaId s w,
    undisturbed w ->
    (forall area v,
        filter (fun row => N.eqb (sa_id row) areaId) (service_areas (db w)) = [area] ->
        sa_vendor_id area = Some v ->
        let items := filter (fun row => is_id (i_vendor_id row) v)
                       (inventory_items (db w)) in
        fst (getInventoryByArea areaId w) = Returned (ok items) /\
        fst (loadInventory areaId s w)
        = Returned (setInventory (map to_inventory_item items) s)) /\
    (~ In areaId (map sa_id (service_areas (db w))) ->
     fst (getInventoryByArea areaId w) = Returned (failed PGRST116) /\
     fst (loadInventory areaId s w) = Returned s).
Proof.
  intros areaId s w Hu. split.
  - intros area v Hone Hv items.
    assert (Hread : fst (getInventoryByArea areaId w) = Returned (ok items)).
    { destruct (getInventoryByArea areaId w) as [o w'] eqn:Hrun.
      unfold getInventoryByArea in Hrun. inv_run; try calm.
      all: simpl in *; rewrite Hone in *; simpl in *; try discriminate.
      all: repeat match goal with
             | H : Some _ = Some _ |- _ => injection H as H; subst
             end.
      all: try rewrite Hv; reflexivity. }
    split; [exact Hread|].
    unfold loadInventory, try_catch, bind.
    destruct (getInventoryByArea areaId w) as [o w'] eqn:Hrun.
    simpl in Hread. subst o. reflexivity.
  - intros Hnone.
    assert (Hread : fst (getInventoryByArea areaId w) = Returned (failed PGRST116)).
    { destruct (getInventoryByArea areaId w) as [o w'] eqn:Hrun.
      unfold getInventoryByArea in Hrun. inv_run; try calm.
      all: simpl in *;
        rewrite (filter_key_absent sa_id areaId _ Hnone) in *; simpl in *;
        try discriminate.
      all: repeat match goal with
             | H : Some _ = Some _ |- _ => injection H as H; subst
             end.
      all: reflexivity. }
    split; [exact Hread|].
    unfold loadInventory, try_catch, bind.
    destruct (getInventoryByArea areaId w) as [o w'] eqn:Hrun.
    simpl in Hread. subst o. reflexivity.
Qed.

Lemma getInventoryByArea_follows_the_area_vendor_witness :
  undisturbed (demo_world []) /\
  fst (getInventoryByArea 3%N (demo_world []))
  = Returned (ok (inventory_items demo_store)) /\
  map InventoryItem.id
    (match fst (loadInventory 3%N demo_form (demo_world [])) with
     | Returned s => inventory s
     | Thrown _ => []
     end)
  = [5%N].
Proof.
  assert (H1 : undisturbed (demo_world [])) by constructor.
  split; [exact H1|].
  destruct (proj1 (getInventoryByArea_follows_the_area_vendor 3%N demo_form
                     (demo_world []) H1)
              {| sa_id := 3%N; sa_name := "North"; sa_vendor_id := Some 1%N;
                 sa_vendor_name := "Aqua Supplies" |} 1%N eq_refl eq_refl)
    as [Hread Hload].
  split; [exact Hread|]. rewrite Hload. reflexivity.
Defined.

Lemma find_map_same_key {A} (key : A -> uuid) (h : A -> A) k l :
  (forall x, key (h x) = key x) ->
  find (fun x => N.eqb (key x) k) (map h l)
  = option_map h (find (fun x => N.eqb (key x) k) l).
Proof.
  intros Hh. induction l as [|x l IH]; simpl; [reflexivity|].
  rewrite Hh. destruct (N.eqb (key x) k); [reflexivity|exact IH].
Qed.

Lemma find_filter_other {A} (key : A -> uuid) k k' (l : list A) :
  k' <> k ->
  find (fun x => N.eqb (key x) k')
    (filter (fun x => negb (N.eqb (key x) k)) l)
  = find (fun x => N.eqb (key x) k') l.
Proof.
  intros Hne. induction l as [|x l IH]; simpl; [reflexivity|].
  destruct (N.eqb_spec (key x) k) as [E|E]; simpl.
  - destruct (N.eqb_spec (key x) k') as [E'|E']; [congruence|exact IH].
  - destruct (N.eqb (key x) k'); [reflexivity|exact IH].
Qed.


Lemma or_zero (q : Z) : (if (q =? 0)%Z then 0%Z else q) = q.
Proof. destruct (Z.eqb_spec q 0); congruence. Qed.

Lemma getCartQuantity_find k s :
  getCartQuantity k s
  = match find (fun e => N.eqb (OrderItem.id e) k) (cart s) with
    | Some e => OrderItem.quantity e
    | None => 0%Z
    end.
Proof.
  unfold getCartQuantity. destruct (find _ (cart s)); [apply or_zero|reflexivity].
Qed.




Lemma with_quantity_key k q (x : OrderItem.t) :
  OrderItem.id (if N.eqb (OrderItem.id x) k then with_quantity x q else x)
  = OrderItem.id x.
Proof. destruct (N.eqb _ _); reflexivity. Qed.

Lemma updateCartQuantity_keys k q s k' :
  In k' (map OrderItem.id (cart (updateCartQuantity k q s))) ->
  In k' (map OrderItem.id (cart s)).
Proof.
  unfold updateCartQuantity.
  destruct (find _ (inventory s)); [|tauto].
  destruct (q <=? 0)%Z; simpl.
  - rewrite (map_filter_key OrderItem.id (fun x => negb (N.eqb x k))).
    intros H. apply filter_In in H. apply H.
  - destruct (q <=? _)%Z; [|tauto]. simpl.
    rewrite map_key_preserved; [tauto|apply with_quantity_key].
Qed.

Lemma updateCartQuantity_shown_other k q s k' :
  k' <> k ->
  getCartQuantity k' (updateCartQuantity k q s) = getCartQuantity k' s.
Proof.
  intros Hne. rewrite !getCartQuantity_find. unfold updateCartQuantity.
  destruct (find _ (inventory s)); [|reflexivity].
  destruct (q <=? 0)%Z; simpl.
  - rewrite (find_filter_other OrderItem.id); [reflexivity|exact Hne].
  - destruct (q <=? _)%Z; [|reflexivity]. simpl.
    rewrite (find_map_same_key OrderItem.id
               (fun x => if N.eqb (OrderItem.id x) k then with_quantity x q else x));
      [|apply with_quantity_key].
    destruct (find (fun e => N.eqb (OrderItem.id e) k') (cart s)) as [e|] eqn:He;
      [|reflexivity].
    simpl. apply find_some_in in He. destruct He as [_ Hid].
    apply N.eqb_eq in Hid.
    destruct (N.eqb_spec (OrderItem.id e) k); [congruence|reflexivity].
Qed.

Lemma updateCartQuantity_shown_set k q s item :
  find (fun item => N.eqb (InventoryItem.id item) k) (inventory s) = Some item ->
  (0 < q <= InventoryItem.stock item)%Z ->
  In k (map OrderItem.id (cart s)) ->
  getCartQuantity k (updateCartQuantity k q s) = q.
Proof.
  intros Hfind [Hpos Hle] Hin. unfold updateCartQuantity. rewrite Hfind.
  destruct (Z.leb_spec q 0); [lia|].
  destruct (Z.leb_spec q (InventoryItem.stock item)); [|lia].
  rewrite getCartQuantity_find. simpl.
  rewrite (find_map_same_key OrderItem.id
             (fun x => if N.eqb (OrderItem.id x) k then with_quantity x q else x));
    [|apply with_quantity_key].
  destruct (find (fun e => N.eqb (OrderItem.id e) k) (cart s)) as [e|] eqn:He.
  - simpl. apply find_some_in in He. destruct He as [_ Hid].
    rewrite Hid. reflexivity.
  - exfalso. exact (find_none_not_in OrderItem.id k (cart s) He Hin).
Qed.


(** X10.  [updateCartQuantity] sets a quantity only for an item that is
    already in the cart: it never adds an entry, it changes the quantity
    shown for no other item, and for the item itself
    - a quantity between 1 and the stock is shown afterwards if the item was
      in the cart, and the cart stays as it was if it was not;
    - a quantity above the stock leaves the form as it was;
    - an item that is not in the loaded inventory leaves the form as it
      was, whatever the quantity, also zero or less. *)
Theorem updateCartQuantity_only_changes_items_in_the_cart :
  forall k q s,
    (forall k', In k' (map OrderItem.id (cart (updateCartQuantity k q s))) ->
                In k' (map OrderItem.id (cart s))) /\
    (forall k', k' <> k ->
                getCartQuantity k' (updateCartQuantity k q s) = getCartQuantity k' s) /\
    (forall item,
        find (fun item => N.eqb (InventoryItem.id item) k) (inventory s) = Some item ->
        ((0 < q <= InventoryItem.stock item)%Z ->
         In k (map OrderItem.id (cart s)) ->
         getCartQuantity k (updateCartQuantity k q s) = q) /\
        ((0 < q <= InventoryItem.stock item)%Z ->
         ~ In k (map OrderItem.id (cart s)) ->
         cart (updateCartQuantity k q s) = cart s) /\
        ((InventoryItem.stock item < q)%Z -> (0 < q)%Z ->
         updateCartQuantity k q s = s)) /\
    (~ In k (map InventoryItem.id (inventory s)) -> updateCartQuantity k q s = s).
Proof.
  intros k q s.
  split; [exact (updateCartQuantity_keys k q s)|].
  split; [exact (updateCartQuantity_shown_other k q s)|].
  split.
  - intros item Hfind.
    split; [exact (updateCartQuantity_shown_set k q s item Hfind)|].
    unfold updateCartQuantity. rewrite Hfind. split.
    + intros [Hpos Hle] Hout.
      destruct (Z.leb_spec q 0); [lia|].
      destruct (Z.leb_spec q (InventoryItem.stock item)); [|lia].
      simpl. rewrite <- (map_id (cart s)) at 2. apply map_ext_in.
      intros x Hx. destruct (N.eqb_spec (OrderItem.id x) k) as [E|E]; [|reflexivity].
      exfalso. apply Hout. rewrite <- E. apply in_map. exact Hx.
    + intros Hgt Hpos.
      destruct (Z.leb_spec q 0); [lia|].
      destruct (Z.leb_spec q (InventoryItem.stock item)); [lia|reflexivity].
  - intros Hout. unfold updateCartQuantity.
    destruct (find _ (inventory s)) as [item|] eqn:Hfind; [|reflexivity].
    exfalso. apply find_some_in in Hfind. destruct Hfind as [Hin Hid].
    apply N.eqb_eq in Hid. apply Hout. rewrite <- Hid. apply in_map. exact Hin.
Qed.



(** ** The buttons of an inventory card *)





(** ** The booking form: the total *)

Lemma fold_left_sum {A} (f : A -> Z) (l : list A) (a : Z) :
  fold_left (fun total x => (total + f x)%Z) l a = (a + sumZ (map f l))%Z.
Proof.
  revert a. induction l as [|x l IH]; intros a; simpl; [lia|].
  rewrite IH. lia.
Qed.

Lemma addToCart_priced item s :
  In item (inventory s) -> cart_priced s -> cart_priced (addToCart item s).
Proof.
  intros Hitem Hall. unfold addToCart.
  destruct (InventoryItem.stock item =? 0)%Z; [exact Hall|].
  destruct (find _ (cart s)).
  - destruct (_ <? _)%Z; [|exact Hall].
    unfold cart_priced in *; simpl. apply Forall_map.
    eapply Forall_impl; [|exact Hall]. intros entry H. simpl in H.
    destruct (N.eqb _ _); exact H.
  - unfold cart_priced in *; simpl. apply Forall_app. split; [exact Hall|].
    constructor; [|constructor]. exists item. simpl. auto.
Qed.

Lemma updateCartQuantity_priced k q s :
  cart_priced s -> cart_priced (updateCartQuantity k q s).
Proof.
  intros Hall. unfold updateCartQuantity.
  destruct (find _ (inventory s)); [|exact Hall].
  destruct (q <=? 0)%Z.
  - unfold cart_priced in *; simpl. rewrite Forall_forall in *.
    intros entry Hin. apply filter_In in Hin. apply Hall, Hin.
  - destruct (q <=? _)%Z; [|exact Hall].
    unfold cart_priced in *; simpl. apply Forall_map.
    eapply Forall_impl; [|exact Hall]. intros entry H. simpl in H.
    destruct (N.eqb _ _); exact H.
Qed.

Lemma cart_run_priced actions :
  forall s, actions_on (inventory s) actions -> cart_priced s ->
            cart_priced (cart_run actions s).
Proof.
  induction actions as [|a rest IH]; intros s Hacts Hok; [exact Hok|].
  apply Forall_cons_iff in Hacts. destruct Hacts as [Ha Hrest]. simpl.
  destruct a as [item|k q]; simpl.
  - apply IH; [rewrite addToCart_inventory; exact Hrest|].
    apply addToCart_priced; assumption.
  - apply IH; [rewrite updateCartQuantity_inventory; exact Hrest|].
    apply updateCartQuantity_priced; assumption.
Qed.

(** ** Submitting the booking *)

Example trim_demo :
  trim "  8 to 10 am  " = "8 to 10 am" /\ trim "   " = "" /\
  trim no_break_space = "" /\
  trim (no_break_space ++ " 8pm" ++ ideographic_space ++ byte_order_mark) = "8pm" /\
  trim ("8" ++ no_break_space ++ "pm") = ("8" ++ no_break_space ++ "pm")%string.
Proof. repeat split. Qed.

(** The line of an order item row that comes from the cart entry. *)
Lemma fresh_order_items order items k t :
  map (fun row => (oi_order_id row, oi_inventory_item_id row, oi_name row,
                   oi_quantity row, oi_price row))
    (fresh_rows (map (new_order_item_row order) items) k t)
  = map (fun e => (Some (o_id order), Some (OrderItem.id e), OrderItem.name e,
                   OrderItem.quantity e, OrderItem.price e)) items.
Proof.
  revert k. induction items as [|e items IH]; intros k; simpl; [reflexivity|].
  rewrite IH. reflexivity.
Qed.

(** What [createOrder] has stored when it answers without an error for a
    non-empty list of items. *)
Lemma createOrder_stored orderData w r w' :
  createOrder orderData w = (Returned r, w') ->
  error r = None ->
  NewOrder.items orderData <> [] ->
  exists vendor t k t',
    let order := new_order_row orderData vendor (next_id (db w)) t in
    data r = Some order /\
    orders (db w') = orders (db w) ++ [order] /\
    order_items (db w')
    = order_items (db w)
        ++ fresh_rows (map (new_order_item_row order) (NewOrder.items orderData)) k t' /\
    inventory_items (db w') = inventory_items (db w) /\
    users (db w') = users (db w) /\
    addresses (db w') = addresses (db w).
Proof.
  unfold createOrder. intros H Herr Hitems. inv_run.
  all: try discriminate.
  all: try (destruct (NewOrder.items orderData); [congruence|discriminate]).
  all: eexists _, _, _, _; cbv zeta; repeat split; reflexivity.
Qed.

(** With no failure on the way [createOrder] answers the order row it
    stored; the vendor's name is read from the vendor's user row. *)
Lemma createOrder_undisturbed orderData w :
  undisturbed w ->
  NewOrder.items orderData <> [] ->
  exists t,
    fst (createOrder orderData w)
    = Returned
        (ok (new_order_row orderData
               match filter (fun row => N.eqb (u_id row) (NewOrder.vendorId orderData))
                       (users (db w)) with
               | [row] => Some row
               | _ => None
               end
               (next_id (db w)) t)).
Proof.
  intros Hu Hitems.
  destruct (createOrder orderData w) as [o w'] eqn:Hrun.
  unfold createOrder in Hrun. inv_run; try calm.
  all: simpl in *; try discriminate.
  all: try (destruct (NewOrder.items orderData); [congruence|discriminate]).
  all: eexists; repeat f_equal.
  all: destruct (filter _ (users (db w))) as [|x [|y l]]; reflexivity.
Qed.

(** X12.  [handleSubmit] makes no remote call and leaves the cart, the
    preferred time and the celebration flag as they are when no address is
    selected, the cart is empty, the preferred time is blank, no user is
    signed in, or the loaded inventory names no vendor.  It raises at most
    one alert, and returns silently only for a missing user. *)
Theorem handleSubmit_guards_make_no_call :
  forall user b w,
    selectedAddress b = None \/
    cart (form b) = [] \/
    trim (preferredTime b) = "" \/
    user = None \/
    first_vendor (inventory (form b)) = None ->
    exists b' alerts,
      handleSubmit user b w = (Returned (b', alerts), w) /\
      form b' = form b /\
      selectedAddress b' = selectedAddress b /\
      deliveryDate b' = deliveryDate b /\
      preferredTime b' = preferredTime b /\
      showCelebration b' = showCelebration b /\
      List.length alerts <= 1 /\
      (alerts = [] -> user = None).
Proof.
  intros user b w H. unfold handleSubmit.
  destruct (selectedAddress b) as [address|] eqn:Ha;
    [|eexists _, _; repeat split; simpl; intros; try lia; congruence].
  destruct (cart (form b)) as [|e c] eqn:Hc;
    [eexists _, _; repeat split; simpl; intros; try lia; congruence|].
  destruct (trim (preferredTime b)) as [|ch rest] eqn:Ht;
    [eexists _, _; repeat split; simpl; intros; try lia; congruence|].
  destruct user as [u|];
    [|eexists _, _; repeat split; simpl; intros; try lia; congruence].
  simpl.
  destruct (first_vendor (inventory (form b))) as [v|] eqn:Hv.
  - exfalso. destruct H as [H|[H|[H|[H|H]]]]; discriminate H.
  - unfold bind, try_catch, ret. simpl.
    eexists _, _; repeat split; simpl; intros; try lia; congruence.
Qed.

Lemma handleSubmit_guards_make_no_call_witness :
  exists b' alerts,
    handleSubmit None demo_booking (demo_world [Throw fetch_failed])
    = (Returned (b', alerts), demo_world [Throw fetch_failed]) /\
    form b' = form demo_booking /\
    selectedAddress b' = selectedAddress demo_booking /\
    deliveryDate b' = deliveryDate demo_booking /\
    preferredTime b' = preferredTime demo_booking /\
    showCelebration b' = showCelebration demo_booking /\
    List.length alerts <= 1 /\
    (alerts = [] -> @None User.t = None).
Proof.
  exact (handleSubmit_guards_make_no_call None demo_booking
           (demo_world [Throw fetch_failed])
           (or_intror (or_intror (or_intror (or_introl eq_refl))))).
Defined.

Ltac form_kept :=
  eexists _, _, _; split; [reflexivity|];
  repeat (split; [simpl; try lia; congruence|]);
  left; repeat split; simpl; congruence.

(** X13.  Whatever the script of failures, [handleSubmit] returns; it
    never changes the inventory, the selected address or the delivery date,
    and it raises at most one alert.  It clears the cart and the preferred
    time only if [createOrder] has stored the order: then it raises no alert,
    the store has one more order, with the next key, for the signed-in
    customer, the first inventory item's vendor and the selected address, in
    status pending, with the total the form shows and the preferred time as
    typed, and one more order item row per cart entry, in cart order, with
    the entry's item, name, quantity and price; the inventory rows, and so
    the stock, are as before.  Otherwise the cart, the preferred time and the
    celebration flag are as before. *)
Theorem handleSubmit_clears_the_cart_only_after_storing :
  forall user b w,
    exists b' alerts w',
      handleSubmit user b w = (Returned (b', alerts), w') /\
      inventory (form b') = inventory (form b) /\
      selectedAddress b' = selectedAddress b /\
      deliveryDate b' = deliveryDate b /\
      List.length alerts <= 1 /\
      ((cart (form b') = cart (form b) /\
        preferredTime b' = preferredTime b /\
        showCelebration b' = showCelebration b)
       \/
       (cart (form b') = [] /\
        preferredTime b' = "" /\
        showCelebration b' = true /\
        loading b' = false /\
        alerts = [] /\
        exists u address v order rows,
          user = Some u /\
          selectedAddress b = Some address /\
          first_vendor (inventory (form b)) = Some v /\
          orders (db w') = orders (db w) ++ [order] /\
          o_id order = next_id (db w) /\
          o_customer_id order = Some (User.id u) /\
          o_vendor_id order = Some v /\
          o_address_id order = Some (Address.id address) /\
          o_status order = pending /\
          o_total order = getTotalPrice (form b) /\
          o_preferred_time order = preferredTime b /\
          order_items (db w') = order_items (db w) ++ rows /\
          map (fun row => (oi_order_id row, oi_inventory_item_id row, oi_name row,
                           oi_quantity row, oi_price row)) rows
          = map (fun e => (Some (o_id order), Some (OrderItem.id e), OrderItem.name e,
                           OrderItem.quantity e, OrderItem.price e))
              (cart (form b)) /\
          inventory_items (db w') = inventory_items (db w))).
Proof.
  intros user b w. unfold handleSubmit.
  destruct (selectedAddress b) as [address|] eqn:Ha;
    [|form_kept].
  destruct (cart (form b)) as [|e c] eqn:Hc;
    [form_kept|].
  destruct (trim (preferredTime b)) as [|ch rest] eqn:Ht;
    [form_kept|].
  destruct user as [u|];
    [|form_kept].
  cbv zeta. unfold bind at 1, try_catch.
  destruct (first_vendor (inventory (form (setLoading true b)))) as [v|] eqn:Hv;
    [|form_kept].
  unfold bind.
  destruct (createOrder (order_of_booking u address v (setLoading true b)) w)
    as [[r|err] w1] eqn:Hrun;
    [|form_kept].
  destruct (error r) as [orderError|] eqn:Herr;
    [form_kept|].
  eexists _, _, _. split; [reflexivity|].
  repeat (split; [simpl; try lia; auto; fail|]).
  right. repeat (split; [reflexivity|]).
  destruct (createOrder_stored _ _ _ _ Hrun Herr) as [vd [t [k [t' Hst]]]].
  { simpl. rewrite Hc. discriminate. }
  cbv zeta in Hst. destruct Hst as [_ [Ho [Hi [Hinv _]]]].
  eexists u, address, v, _, _.
  split; [reflexivity|]. split; [reflexivity|]. split; [exact Hv|].
  split; [exact Ho|].
  repeat (split; [reflexivity|]).
  split; [exact Hi|]. split; [|exact Hinv].
  rewrite fresh_order_items. simpl. rewrite Hc. reflexivity.
Qed.

(** A booking that passes every guard, with no failure on the way. *)
Lemma handleSubmit_undisturbed u address v b w :
  undisturbed w ->
  selectedAddress b = Some address ->
  cart (form b) <> [] ->
  trim (preferredTime b) <> "" ->
  first_vendor (inventory (form b)) = Some v ->
  exists b' w' order rows,
    handleSubmit (Some u) b w = (Returned (b', []), w') /\
    cart (form b') = [] /\
    preferredTime b' = "" /\
    showCelebration b' = true /\
    loading b' = false /\
    now w' = 3 + now w /\
    orders (db w') = orders (db w) ++ [order] /\
    o_vendor_id order = Some v /\
    o_total order = getTotalPrice (form b) /\
    order_items (db w') = order_items (db w) ++ rows /\
    inventory_items (db w') = inventory_items (db w) /\
    map (fun row => (oi_order_id row, oi_inventory_item_id row, oi_name row,
                     oi_quantity row, oi_price row)) rows
    = map (fun e => (Some (o_id order), Some (OrderItem.id e), OrderItem.name e,
                     OrderItem.quantity e, OrderItem.price e))
        (cart (form b)) /\
    o_vendor_name order
    = match filter (fun row => N.eqb (u_id row) v) (users (db w)) with
      | [row] => match u_name row with
                 | EmptyString => "Unknown Vendor"
                 | name => name
                 end
      | _ => "Unknown Vendor"
      end.
Proof.
  intros Hu Ha Hne Ht Hv. unfold handleSubmit.
  rewrite Ha.
  destruct (cart (form b)) as [|e c] eqn:Hcart; [congruence|].
  destruct (trim (preferredTime b)) as [|ch rest] eqn:Htrim; [congruence|].
  cbv zeta. unfold bind at 1, try_catch.
  change (inventory (form (setLoading true b))) with (inventory (form b)).
  rewrite Hv. unfold bind.
  destruct (createOrder (order_of_booking u address v (setLoading true b)) w)
    as [o w1] eqn:Hrun.
  unfold createOrder in Hrun. inv_run; try calm.
  all: simpl in *; try discriminate.
  all: try (rewrite Hcart in *; simpl in *; discriminate).
  all: try calm.
  all: eexists _, _, _, _; split; [reflexivity|].
  all: repeat (split; [reflexivity|]).
  all: split; [rewrite fresh_order_items, Hcart; reflexivity|].
  all: simpl; destruct (filter _ (users (db w))) as [|x [|y l]]; simpl; try reflexivity.
  all: destruct (u_name x); reflexivity.
Qed.

(** X14.  With no failure on the way, a booking with an address, a
    non-empty cart, a preferred time that is not blank, a signed-in user and
    an inventory that names a vendor goes through: no alert, the cart and the
    preferred time cleared, the celebration shown, after exactly three remote
    calls.  The vendor name of the stored order is not the empty name the
    form passes: it is the name of the vendor's user row, or
    ["Unknown Vendor"] when there is no such row. *)
Theorem handleSubmit_goes_through :
  forall u address v b w,
    undisturbed w ->
    selectedAddress b = Some address ->
    cart (form b) <> [] ->
    trim (preferredTime b) <> "" ->
    first_vendor (inventory (form b)) = Some v ->
    exists b' w' order,
      handleSubmit (Some u) b w = (Returned (b', []), w') /\
      cart (form b') = [] /\
      preferredTime b' = "" /\
      showCelebration b' = true /\
      loading b' = false /\
      now w' = 3 + now w /\
      orders (db w') = orders (db w) ++ [order] /\
      o_vendor_name order
      = match filter (fun row => N.eqb (u_id row) v) (users (db w)) with
        | [row] => match u_name row with
                   | EmptyString => "Unknown Vendor"
                   | name => name
                   end
        | _ => "Unknown Vendor"
        end.
Proof.
  intros u address v b w Hu Ha Hne Ht Hv.
  destruct (handleSubmit_undisturbed u address v b w Hu Ha Hne Ht Hv)
    as [b' [w' [order [rows H]]]].
  exists b', w', order.
  repeat match goal with
         | H : _ /\ _ |- _ => destruct H
         end.
  repeat split; assumption.
Qed.

Lemma handleSubmit_goes_through_witness :
  undisturbed (demo_world []) /\
  exists b' w' order,
    handleSubmit (Some demo_user) demo_booking (demo_world [])
    = (Returned (b', []), w') /\
    cart (form b') = [] /\
    preferredTime b' = "" /\
    showCelebration b' = true /\
    loading b' = false /\
    now w' = 3 + now (demo_world []) /\
    orders (db w') = orders (db (demo_world [])) ++ [order] /\
    o_vendor_name order = "Unknown Vendor".
Proof.
  assert (H1 : undisturbed (demo_world [])) by constructor.
  split; [exact H1|].
  assert (H3 : cart (form demo_booking) <> []) by (simpl; discriminate).
  assert (H4 : trim (preferredTime demo_booking) <> "") by (simpl; discriminate).
  exact (handleSubmit_goes_through demo_user demo_address 9%N demo_booking
           (demo_world []) H1 eq_refl H3 H4 eq_refl).
Defined.

(** A preferred time of one no-break space is blank to [trim]: the form
    answers with the alert, and makes no call. *)
Example handleSubmit_blank_time_run :
  handleSubmit (Some demo_user) (setPreferredTime no_break_space demo_booking)
    (demo_world [])
  = (Returned (setPreferredTime no_break_space demo_booking,
               ["Please enter your preferred delivery time"]),
     demo_world []).
Proof. reflexivity. Qed.

(** ** The tables a call leaves alone *)

Lemma keeps_throw {A} (I : world -> Prop) (e : err) : keeps I (@throw A e).
Proof. intros w H. exact H. Qed.

Lemma keeps_await_column {A B} (col : database -> B) (v : B) (q : query A) :
  (forall t d, col d = v -> col (snd (q t d)) = v) ->
  keeps (fun w => col (db w) = v) (await q).
Proof. intros Hq. apply (keeps_await_db (fun d => col d = v)). exact Hq. Qed.

Lemma keeps_await_auth_column {A B} (col : database -> B) (v : B)
    (op : auth_state -> reply A * auth_state) :
  keeps (fun w => col (db w) = v) (await_auth op).
Proof.
  intros w H. unfold await_auth.
  destruct (next_fault w); simpl; try exact H.
  destruct (op (auth w)); exact H.
Qed.

(** A request on one table leaves the column of another table alone. *)
Ltac frame_request :=
  intros ? ? ?;
  unfold single, minimal, newest_first, true_first, invoices_of_vendor,
    select, insert, update, delete; simpl;
  repeat match goal with
         | |- context [match ?x with _ => _ end] => destruct x; simpl
         end;
  assumption.

Ltac frame_steps :=
  repeat first
    [ apply keeps_ret
    | apply keeps_throw
    | apply keeps_try_catch; [|intros; apply keeps_ret]
    | apply keeps_bind; [|intros]
    | apply keeps_all_details; intros
    | apply keeps_await_auth_column
    | apply keeps_await_column; frame_request
    | match goal with
      | |- keeps _ (match ?x with _ => _ end) => destruct x
      | |- keeps _ (join_orders _) => unfold join_orders
      | |- keeps _ (with_details _) => unfold with_details
      end ].

Lemma perform_frame c n w :
  ~ In n (written c) -> same_table n (db w) (db (snd (perform c w))).
Proof.
  intros Hn.
  destruct n; simpl;
    match goal with
    | |- ?col (db (snd (?f w))) = ?col (db w) =>
        apply (fun H : keeps (fun w' => col (db w') = col (db w)) f => H w eq_refl)
    end;
    destruct c; simpl in Hn; try (exfalso; tauto); clear Hn;
    unfold perform, answering;
    unfold signUp, signIn, signOut, getCurrentUser,
      createUser, getUserByUserId, updateUser, deleteUser,
      getServiceAreas, createServiceArea, updateServiceArea, deleteServiceArea,
      getUserAddresses, createAddress, updateAddress, deleteAddress,
      getInventoryByVendor, getInventoryByArea, createInventoryItem,
      updateInventoryItem, deleteInventoryItem,
      getOrdersByCustomer, getOrdersByVendor, createOrder,
      updateOrderStatus, updateOrderInvoiceId, createOrderMessage,
      getInvoicesByVendor, createInvoice, updateInvoiceStatus;
    frame_steps.
Qed.

Lemma same_table_refl n d : same_table n d d.
Proof. destruct n; reflexivity. Qed.

Lemma same_table_trans n d1 d2 d3 :
  same_table n d1 d2 -> same_table n d2 d3 -> same_table n d1 d3.
Proof. destruct n; simpl; intros H1 H2; congruence. Qed.

(** X15.  Every function [database.ts] exports writes only to the tables
    it addresses: whatever the arguments and whatever the script of
    failures, a sequence of calls leaves a table as it was when none of the
    calls addresses it.  So the reads and the auth functions write nothing,
    the user, service-area, address, inventory, message and invoice
    functions write to their own table only, and [createOrder] writes to
    [orders] and [order_items] only: placing an order does not touch the
    inventory. *)
Theorem calls_write_their_own_tables_only :
  forall calls n w,
    (forall c, In c calls -> ~ In n (written c)) ->
    same_table n (db w) (db (snd (perform_all calls w))).
Proof.
  induction calls as [|c rest IH]; intros n w Hn; simpl.
  - apply same_table_refl.
  - assert (Hc : same_table n (db w) (db (snd (perform c w)))).
    { apply perform_frame. apply Hn. left. reflexivity. }
    unfold bind. destruct (perform c w) as [[a|e] w1]; simpl in *; [|exact Hc].
    apply (same_table_trans n _ (db w1)); [exact Hc|].
    apply IH. intros c' Hc'. apply Hn. right. exact Hc'.
Qed.

Lemma calls_write_their_own_tables_only_witness :
  inventory_items (db (snd (perform_all demo_calls (demo_world [Throw fetch_failed]))))
  = inventory_items demo_store.
Proof.
  assert (H : forall c, In c demo_calls -> ~ In InventoryItems (written c)).
  { intros c [E|[E|[]]]; subst c; simpl; intuition discriminate. }
  exact (calls_write_their_own_tables_only demo_calls InventoryItems
           (demo_world [Throw fetch_failed]) H).
Defined.

(** ** [updateOrderInvoiceId] and [updateInvoiceStatus] *)

Lemma invoice_id_only_same invoiceId row :
  same_but_invoice_id row (apply_orders_patch (invoice_id_only invoiceId) row).
Proof. unfold same_but_invoice_id; simpl; repeat split. Qed.

Lemma invoice_status_only_same status row :
  same_but_invoice_status row (apply_invoices_patch (invoice_status_only status) row).
Proof. unfold same_but_invoice_status; simpl; repeat split. Qed.

(** X16.  [updateOrderInvoiceId] writes the [invoice_id] column only, and
    only in the order with the given id; [updateInvoiceStatus] writes the
    [status] column only, and only in the invoice with the given id.
    Whatever happens to the remote call, every other row is left as it was,
    and the row with the given id keeps every other column; its written
    column holds the old value or the one supplied. *)
Theorem invoice_updates_write_one_column :
  forall id w,
    (forall invoiceId,
        Forall2
          (fun before after =>
             same_but_invoice_id before after /\
             (o_id before <> id -> after = before) /\
             (o_invoice_id after = o_invoice_id before \/
              o_invoice_id after = Some invoiceId))
          (orders (db w))
          (orders (db (snd (updateOrderInvoiceId id invoiceId w))))) /\
    (forall status,
        Forall2
          (fun before after =>
             same_but_invoice_status before after /\
             (v_id before <> id -> after = before) /\
             (v_status after = v_status before \/ v_status after = status))
          (invoices (db w))
          (invoices (db (snd (updateInvoiceStatus id status w))))).
Proof.
  intros id w. split.
  - intros invoiceId. unfold updateOrderInvoiceId.
    rewrite one_call_world by (intros; apply caught_world).
    destruct (await_single_update_db orders_t (fun row => N.eqb (o_id row) id)
                (apply_orders_patch (invoice_id_only invoiceId)) w) as [H|H];
      rewrite H; simpl.
    + apply Forall2_same. intros x.
      split; [unfold same_but_invoice_id; repeat split|]. split; auto.
    + apply Forall2_map_self. intros x.
      destruct (N.eqb_spec (o_id x) id) as [E|E].
      * split; [apply invoice_id_only_same|].
        split; [intros Hne; contradiction|]. right. reflexivity.
      * split; [unfold same_but_invoice_id; repeat split|]. split; auto.
  - intros status. unfold updateInvoiceStatus.
    rewrite one_call_world by (intros; apply caught_world).
    destruct (await_single_update_db invoices_t (fun row => N.eqb (v_id row) id)
                (apply_invoices_patch (invoice_status_only status)) w) as [H|H];
      rewrite H; simpl.
    + apply Forall2_same. intros x.
      split; [unfold same_but_invoice_status; repeat split|]. split; auto.
    + apply Forall2_map_self. intros x.
      destruct (N.eqb_spec (v_id x) id) as [E|E].
      * split; [apply invoice_status_only_same|].
        split; [intros Hne; contradiction|]. right. reflexivity.
      * split; [unfold same_but_invoice_status; repeat split|]. split; auto.
Qed.

(** ** The helper functions of the migration *)

Lemma replace_local_part (u : string) :
  ~ In at_sign (characters u) ->
  replace (u ++ "@aquaflow.local") "@aquaflow.local" "" = u.
Proof.
  unfold replace. induction u as [|c u IH]; intros Hno.
  - reflexivity.
  - simpl in Hno.
    assert (Hc : c <> at_sign) by tauto.
    assert (Hu : ~ In at_sign (characters u)) by tauto.
    change ((String c u ++ "@aquaflow.local")%string)
      with (String c (u ++ "@aquaflow.local")).
    cbn [replace_from String.prefix].
    destruct (Ascii.ascii_dec _ c) as [E|E]; [exfalso; apply Hc; symmetry; exact E|].
    rewrite (IH Hu). reflexivity.
Qed.

(** X17.  For a user id without an at-sign, the two helper functions of
    the migration agree: [check_user_id_exists] holds of the user id exactly
    if [get_user_id_from_auth] resolves the login email
    [<user id>@aquaflow.local] to a key, and that key is the key of a user
    row with this user id.  Without a session email the function gives
    NULL. *)
Theorem login_email_resolves_to_the_user_key :
  forall u d,
    ~ In at_sign (characters u) ->
    (check_user_id_exists u d = true <->
     exists k, get_user_id_from_auth (Some (u ++ "@aquaflow.local")%string) d = Some k) /\
    (forall k,
        get_user_id_from_auth (Some (u ++ "@aquaflow.local")%string) d = Some k ->
        exists row, In row (users d) /\ u_id row = k /\ u_user_id row = u) /\
    get_user_id_from_auth None d = None.
Proof.
  intros u d Hno. unfold get_user_id_from_auth, check_user_id_exists.
  rewrite (replace_local_part u Hno).
  split; [|split; [|reflexivity]].
  - split.
    + intros H. apply existsb_exists in H. destruct H as [row [Hin Heq]].
      destruct (find (fun row => String.eqb (u_user_id row) u) (users d))
        as [found|] eqn:Hfind.
      * exists (u_id found). reflexivity.
      * exfalso. apply (find_none _ _ Hfind) in Hin. congruence.
    + intros [k Hk].
      destruct (find (fun row => String.eqb (u_user_id row) u) (users d))
        as [found|] eqn:Hfind; [|discriminate].
      apply find_some in Hfind. apply existsb_exists. exists found. exact Hfind.
  - intros k Hk.
    destruct (find (fun row => String.eqb (u_user_id row) u) (users d))
      as [found|] eqn:Hfind; [|discriminate].
    apply find_some in Hfind. destruct Hfind as [Hin Heq].
    apply String.eqb_eq in Heq. exists found.
    simpl in Hk. injection Hk as Hk. auto.
Qed.

Lemma login_email_resolves_to_the_user_key_witness :
  check_user_id_exists "maya" demo_store = true /\
  get_user_id_from_auth (Some "maya@aquaflow.local") demo_store = Some 2%N /\
  exists row, In row (users demo_store) /\ u_id row = 2%N /\ u_user_id row = "maya".
Proof.
  assert (H : ~ In at_sign (characters "maya")).
  { simpl. intros [E|[E|[E|[E|[]]]]]; discriminate E. }
  split; [reflexivity|]. split; [reflexivity|].
  exact (proj1 (proj2 (login_email_resolves_to_the_user_key "maya" demo_store H))
           2%N eq_refl).
Defined.

(** ** The cost of the composite reads *)

(** Arithmetic on the clock. *)
Ltac clock :=
  repeat match goal with
         | |- context [now ?w] =>
             let k := fresh "k" in
             set (k := now w) in *; clearbody k
         | H : context [now ?w] |- _ =>
             let k := fresh "k" in
             set (k := now w) in *; clearbody k
         end;
  unfold timestamp in *; lia.

Lemma promise_all_details_clock os :
  forall d a n s,
    Forall (fun f => forall e, f <> Throw e) s ->
    now (snd (promise_all_map with_details os
                {| db := d; auth := a; now := n; script := s |}))
    = n + 3 * List.length os.
Proof.
  induction os as [|o os IH]; intros d a n s Hs; simpl.
  - clock.
  - unfold bind. rewrite (with_details_degraded o d a n s Hs).
    specialize (IH d a (S (S (S n))) (skipn 3 s) (no_throws_skipn 3 s Hs)).
    destruct (promise_all_details os d a (S (S (S n))) (skipn 3 s)
                (no_throws_skipn 3 s Hs)) as [w' [Hrun _]].
    rewrite Hrun in *. simpl in *. clock.
Qed.

Lemma join_orders_clock os w :
  no_throws w ->
  now (snd (join_orders (ok os) w)) = now w + 3 * List.length os.
Proof.
  intros Hs. destruct w as [d a n s]. unfold join_orders; simpl.
  destruct os as [|o os]; [simpl; clock|].
  unfold bind.
  assert (Hc := promise_all_details_clock (o :: os) d a n s Hs).
  destruct (promise_all_details (o :: os) d a n s Hs) as [w' [Hrun _]].
  rewrite Hrun in *. simpl in *. clock.
Qed.

Lemma composite_read_clock (p : orders_row -> bool) w :
  next_fault w = NoFault ->
  no_throws w ->
  now (snd (try_catch (r <- await (newest_first (select orders_t p)) ;; join_orders r)
              caught w))
  = now w + 1 + 3 * List.length (filter p (orders (db w))).
Proof.
  intros Hf Hs. unfold try_catch, bind, await. rewrite Hf.
  autorewrite with requests. simpl.
  rewrite <- (length_rev (filter p (orders (db w)))).
  assert (Hc := join_orders_clock (rev (filter p (orders (db w))))
                  (after_call w (db w) (auth w))
                  (no_throws_after_call w _ _ Hs)).
  destruct (join_orders_degraded (rev (filter p (orders (db w))))
              (after_call w (db w) (auth w))
              (no_throws_after_call w _ _ Hs)) as [w' [Hrun _]].
  rewrite Hrun in *. simpl in *. clock.
Qed.

(** X18.  When the orders query succeeds and no sub-read throws, a
    composite read makes one remote call for the orders and three for each
    order the query matched, one after the other: 1 + 3 n calls for n
    orders. *)
Theorem composite_reads_make_three_calls_per_order :
  forall w,
    next_fault w = NoFault ->
    no_throws w ->
    (forall vendorId,
        now (snd (getOrdersByVendor vendorId w))
        = now w + 1
          + 3 * List.length (filter (fun row => is_id (o_vendor_id row) vendorId)
                               (orders (db w)))) /\
    (forall customerId,
        now (snd (getOrdersByCustomer customerId w))
        = now w + 1
          + 3 * List.length (filter (fun row => is_id (o_customer_id row) customerId)
                               (orders (db w)))).
Proof.
  intros w Hf Hs. split; intros k; apply composite_read_clock; assumption.
Qed.

Lemma composite_reads_make_three_calls_per_order_witness :
  now (snd (getOrdersByVendor 1%N (demo_world [NoFault; RetErr fetch_failed])))
  = now (demo_world [NoFault; RetErr fetch_failed]) + 1 + 3 * 1.
Proof.
  assert (H1 : next_fault (demo_world [NoFault; RetErr fetch_failed]) = NoFault)
    by reflexivity.
  assert (H2 : no_throws (demo_world [NoFault; RetErr fetch_failed])).
  { unfold no_throws; simpl. repeat constructor; intros e; discriminate. }
  exact (proj1 (composite_reads_make_three_calls_per_order
                  (demo_world [NoFault; RetErr fetch_failed]) H1 H2) 1%N).
Defined.

(** ** Messages read back *)

Lemma undisturbed_no_throws w : undisturbed w -> no_throws w.
Proof.
  unfold undisturbed, no_throws. intros H.
  eapply Forall_impl; [|exact H]. intros f Hf e. rewrite Hf. discriminate.
Qed.

Lemma nth_no_fault n s : Forall (fun f => f = NoFault) s -> nth n s NoFault = NoFault.
Proof.
  intros H. revert n. induction H as [|f s Hf _ IH]; intros [|n]; simpl; auto.
Qed.

Lemma skipn_no_fault n s :
  Forall (fun f => f = NoFault) s -> Forall (fun f => f = NoFault) (skipn n s).
Proof.
  revert s. induction n as [|n IH]; intros s H; simpl; [exact H|].
  destruct s as [|f s]; [constructor|]. apply IH. inversion H. assumption.
Qed.

Lemma join_without_failures d os s :
  Forall (fun f => f = NoFault) s ->
  join_with_failures d os s
  = map (fun o => degraded d o NoFault NoFault NoFault) os.
Proof.
  revert s. induction os as [|o os IH]; intros s Hs; [reflexivity|].
  change (join_with_failures d (o :: os) s)
    with (degraded d o (nth 0 s NoFault) (nth 1 s NoFault) (nth 2 s NoFault)
          :: join_with_failures d os (skipn 3 s)).
  rewrite !nth_no_fault by exact Hs.
  rewrite (IH (skipn 3 s)) by (apply skipn_no_fault; exact Hs).
  reflexivity.
Qed.

Lemma composite_read_undisturbed (p : orders_row -> bool) w :
  undisturbed w ->
  fst (try_catch (r <- await (newest_first (select orders_t p)) ;; join_orders r)
         caught w)
  = Returned (ok (map (fun o => degraded (db w) o NoFault NoFault NoFault)
                    (rev (filter p (orders (db w)))))).
Proof.
  intros Hu.
  destruct (composite_read_degraded p w (undisturbed_next w Hu)
              (undisturbed_no_throws w Hu)) as [w' [Hrun _]].
  rewrite Hrun. simpl. unfold ok. repeat f_equal.
  apply join_without_failures.
  unfold undisturbed in Hu. destruct (script w); [constructor|].
  inversion Hu. assumption.
Qed.

(** X19.  With no failure on the way, [createOrderMessage] answers the
    row it stored, with the order, sender, sender name and text given; and a
    composite read afterwards answers what it answered before, except that
    the thread of the order the message names has the new row at its end.
    The threads of the other orders, and every order's items and address,
    are as before. *)
Theorem createOrderMessage_then_read :
  forall messageData w,
    undisturbed w ->
    exists row w1,
      createOrderMessage messageData w = (Returned (ok row), w1) /\
      undisturbed w1 /\
      m_order_id row = Some (NewOrderMessage.orderId messageData) /\
      m_sender row = NewOrderMessage.sender messageData /\
      m_sender_name row = NewOrderMessage.senderName messageData /\
      m_message row = NewOrderMessage.message messageData /\
      let added details :=
        if N.eqb (o_id (Details.order details)) (NewOrderMessage.orderId messageData)
        then with_message row details
        else details in
      (forall customerId before,
          fst (getOrdersByCustomer customerId w) = Returned (ok before) ->
          fst (getOrdersByCustomer customerId w1) = Returned (ok (map added before))) /\
      (forall vendorId before,
          fst (getOrdersByVendor vendorId w) = Returned (ok before) ->
          fst (getOrdersByVendor vendorId w1) = Returned (ok (map added before))).
Proof.
  intros messageData w Hu.
  destruct (createOrderMessage messageData w) as [o w1] eqn:Hrun.
  unfold createOrderMessage in Hrun. inv_run; try calm.
  all: simpl in *; try discriminate.
  eexists _, _. split; [reflexivity|].
  split; [apply undisturbed_after_call; exact Hu|].
  repeat (split; [reflexivity|]).
  pose (added := fun details : Details.t =>
          if N.eqb (o_id (Details.order details)) (NewOrderMessage.orderId messageData)
          then with_message
                 {| m_id := next_id (db w);
                    m_order_id := Some (NewOrderMessage.orderId messageData);
                    m_sender := NewOrderMessage.sender messageData;
                    m_sender_name := NewOrderMessage.senderName messageData;
                    m_message := NewOrderMessage.message messageData |} details
          else details).
  assert (Hread : forall p before,
             fst (try_catch (r <- await (newest_first (select orders_t p)) ;;
                             join_orders r) caught w)
             = Returned (ok before) ->
             fst (try_catch (r <- await (newest_first (select orders_t p)) ;;
                             join_orders r) caught
                    (after_call w
                       (set_next_id (next_id (db w) + 1)%N
                          (put_rows order_messages_t
                             (order_messages (db w) ++
                                [ {| m_id := next_id (db w);
                                     m_order_id := Some (NewOrderMessage.orderId messageData);
                                     m_sender := NewOrderMessage.sender messageData;
                                     m_sender_name := NewOrderMessage.senderName messageData;
                                     m_message := NewOrderMessage.message messageData |} ])
                             (db w)))
                       (auth w)))
             = Returned (ok (map added before))).
  { intros p before Hb.
    rewrite composite_read_undisturbed in Hb by exact Hu.
    rewrite composite_read_undisturbed by (apply undisturbed_after_call; exact Hu).
    injection Hb as Hb. subst before. simpl.
    unfold ok. repeat f_equal. rewrite map_map. apply map_ext. intros o.
    unfold added, degraded, with_message; simpl.
    rewrite filter_app. simpl.
    destruct (N.eqb_spec (NewOrderMessage.orderId messageData) (o_id o)) as [E|E].
    - rewrite E, N.eqb_refl. reflexivity.
    - destruct (N.eqb_spec (o_id o) (NewOrderMessage.orderId messageData));
        [congruence|].
      rewrite app_nil_r. reflexivity. }
  split; intros k before Hb; exact (Hread _ before Hb).
Qed.

Lemma createOrderMessage_then_read_witness :
  undisturbed (demo_world []) /\
  exists row w1,
    createOrderMessage demo_message (demo_world []) = (Returned (ok row), w1) /\
    m_message row = "Please ring the bell" /\
    forall before,
      fst (getOrdersByCustomer 2%N (demo_world [])) = Returned (ok before) ->
      fst (getOrdersByCustomer 2%N w1)
      = Returned
          (ok (map (fun details =>
                      if N.eqb (o_id (Details.order details)) 6%N
                      then with_message row details
                      else details) before)).
Proof.
  assert (H : undisturbed (demo_world [])) by constructor.
  split; [exact H|].
  destruct (createOrderMessage_then_read demo_message (demo_world []) H)
    as [row [w1 [Hrun [_ [_ [_ [_ [Hm [Hc _]]]]]]]]].
  exists row, w1. split; [exact Hrun|]. split; [exact Hm|]. exact (Hc 2%N).
Defined.

(** ** Invoices read back *)

(** X20.  With no failure on the way, [createInvoice] for a stored order
    of a vendor answers the row it stored, with the invoice number, order,
    amount and status given; the vendor's invoice list afterwards is, read
    by key, invoice number, order, amount and status, the new row followed
    by the list as it was (newest first), and, the order keys being unique,
    the invoice list of every other vendor is as it was. *)
Theorem createInvoice_then_list :
  forall invoiceData order v w,
    undisturbed w ->
    In order (orders (db w)) ->
    o_id order = NewInvoice.orderId invoiceData ->
    o_vendor_id order = Some v ->
    exists row w1,
      createInvoice invoiceData w = (Returned (ok row), w1) /\
      v_invoice_id row = NewInvoice.id invoiceData /\
      v_order_id row = Some (NewInvoice.orderId invoiceData) /\
      v_amount row = NewInvoice.amount invoiceData /\
      v_status row = NewInvoice.status invoiceData /\
      (forall before,
          fst (getInvoicesByVendor v w) = Returned (ok before) ->
          exists listed,
            fst (getInvoicesByVendor v w1) = Returned (ok listed) /\
            map invoice_columns listed
            = invoice_columns row :: map invoice_columns before) /\
      (NoDup (map o_id (orders (db w))) ->
       forall v', v' <> v ->
                  fst (getInvoicesByVendor v' w1) = fst (getInvoicesByVendor v' w)).
Proof.
  intros invoiceData order v w Hu Hin Hid Hv.
  destruct (createInvoice invoiceData w) as [o w1] eqn:Hrun.
  unfold createInvoice in Hrun. inv_run; try calm.
  all: simpl in *; try discriminate.
  eexists _, _. split; [reflexivity|].
  repeat (split; [reflexivity|]).
  assert (Hlist : forall v0 w0,
             undisturbed w0 ->
             fst (getInvoicesByVendor v0 w0)
             = Returned
                 (ok (rev (filter
                             (fun row =>
                                existsb (fun o => is_id (v_order_id row) (o_id o)
                                                  && is_id (o_vendor_id o) v0)
                                  (orders (db w0)))
                             (invoices (db w0)))))).
  { intros v0 w0 Hu0. unfold getInvoicesByVendor, try_catch, bind.
    rewrite await_undisturbed by exact Hu0. reflexivity. }
  split.
  - intros before Hb. rewrite Hlist in Hb by exact Hu.
    rewrite Hlist by (apply undisturbed_after_call; exact Hu).
    injection Hb as Hb. subst before. simpl.
    rewrite filter_app, rev_app_distr. simpl.
    replace (existsb _ (orders (db w))) with true.
    + eexists. split; reflexivity.
    + symmetry. apply existsb_exists. exists order. split; [exact Hin|].
      rewrite Hid, Hv. simpl. rewrite !N.eqb_refl. reflexivity.
  - intros Hnd v' Hne.
    rewrite (Hlist v' w) by exact Hu.
    rewrite Hlist by (apply undisturbed_after_call; exact Hu).
    simpl. rewrite filter_app. simpl.
    replace (existsb _ (orders (db w))) with false;
      [rewrite app_nil_r; reflexivity|].
    symmetry. apply not_true_is_false. intros Hex.
    apply existsb_exists in Hex. destruct Hex as [o' [Hin' Ho']].
    apply andb_prop in Ho'. destruct Ho' as [Hk Hv'].
    simpl in Hk. apply N.eqb_eq in Hk.
    assert (o' = order).
    { apply (nodup_key_eq o_id (orders (db w))); try assumption. congruence. }
    subst o'. rewrite Hv in Hv'. simpl in Hv'. apply N.eqb_eq in Hv'. congruence.
Qed.

Lemma createInvoice_then_list_witness :
  undisturbed (demo_world []) /\
  exists row w1,
    createInvoice demo_invoice (demo_world []) = (Returned (ok row), w1) /\
    exists listed,
      fst (getInvoicesByVendor 1%N w1) = Returned (ok listed) /\
      map invoice_columns listed = [invoice_columns row].
Proof.
  assert (H : undisturbed (demo_world [])) by constructor.
  split; [exact H|].
  destruct (createInvoice_then_list demo_invoice
              {| o_id := 6%N; o_customer_id := Some 2%N; o_customer_name := "Maya";
                 o_customer_phone := "555-0100"; o_customer_user_id := "maya";
                 o_vendor_id := Some 1%N; o_vendor_name := "Aqua Supplies";
                 o_area_id := Some 3%N; o_address_id := Some 4%N; o_total := 8000%Z;
                 o_status := pending; o_order_date := 0;
                 o_delivery_date := "2025-07-04";
                 o_preferred_time := "Morning"; o_invoice_id := None |}
              1%N (demo_world []) H (or_introl eq_refl) eq_refl eq_refl)
    as [row [w1 [Hrun [_ [_ [_ [_ [Hl _]]]]]]]].
  exists row, w1. split; [exact Hrun|]. exact (Hl [] eq_refl).
Defined.

(** ** The older copy of the auth functions *)

(** X21.  The four auth functions of the older copy of the module and
    those of [database.ts] leave the same world behind and differ only when
    the call to the authentication service throws: what the older function
    returns, the newer returns as well; and where the older function throws
    [e], which it does only when the call threw [e], the newer answers
    [{ data: null, error: e }] ([{ error: e }] for sign-out, [null] for
    [getCurrentUser]). *)
Theorem older_auth_functions_differ_only_on_throw :
  forall w,
    (forall email password,
        snd (EarlierCopy.signUp email password w) = snd (signUp email password w) /\
        match fst (EarlierCopy.signUp email password w) with
        | Returned r => fst (signUp email password w) = Returned r
        | Thrown e => fst (signUp email password w) = Returned (failed e) /\
                      next_fault w = Throw e
        end) /\
    (forall email password,
        snd (EarlierCopy.signIn email password w) = snd (signIn email password w) /\
        match fst (EarlierCopy.signIn email password w) with
        | Returned r => fst (signIn email password w) = Returned r
        | Thrown e => fst (signIn email password w) = Returned (failed e) /\
                      next_fault w = Throw e
        end) /\
    (snd (EarlierCopy.signOut w) = snd (signOut w) /\
     match fst (EarlierCopy.signOut w) with
     | Returned r => fst (signOut w) = Returned r
     | Thrown e => fst (signOut w) = Returned {| error_only := Some e |} /\
                   next_fault w = Throw e
     end) /\
    (snd (EarlierCopy.getCurrentUser w) = snd (getCurrentUser w) /\
     match fst (EarlierCopy.getCurrentUser w) with
     | Returned u => fst (getCurrentUser w) = Returned u
     | Thrown e => fst (getCurrentUser w) = Returned None /\
                   next_fault w = Throw e
     end).
Proof.
  intros w.
  repeat split; intros;
    unfold EarlierCopy.signUp, EarlierCopy.signIn, EarlierCopy.signOut,
      EarlierCopy.getCurrentUser, signUp, signIn, signOut, getCurrentUser,
      try_catch, bind, await_auth;
    destruct (next_fault w) eqn:Hf; simpl;
    try match goal with
        | |- context [auth_signUp ?e ?p (auth w)] =>
            destruct (auth_signUp e p (auth w))
        | |- context [auth_signInWithPassword ?e ?p (auth w)] =>
            destruct (auth_signInWithPassword e p (auth w))
        | |- context [auth_signOut (auth w)] => destruct (auth_signOut (auth w))
        | |- context [auth_getUser (auth w)] => destruct (auth_getUser (auth w))
        end;
    simpl; try reflexivity; split; reflexivity.
Qed.

(** ** Created rows read back *)

Lemma filter_owner_cleared owner l :
  filter (fun r => is_id (a_user_id r) owner) (clear_defaults owner l)
  = map (apply_addresses_patch unset_default)
      (filter (fun r => is_id (a_user_id r) owner) l).
Proof.
  unfold clear_defaults. induction l as [|x l IH]; simpl; [reflexivity|].
  destruct (is_id (a_user_id x) owner) eqn:E; simpl; rewrite E; simpl;
    rewrite IH; reflexivity.
Qed.

(** X22.  With no failure on the way, [createInventoryItem] answers the
    row it stored, with a missing or empty description stored as the empty
    string; the vendor's inventory list afterwards is the new row followed
    by the list as it was (newest first), and the list of every other vendor
    is as it was.  Likewise [createServiceArea] answers the row it stored and
    [getServiceAreas] afterwards lists it first. *)
Theorem created_items_and_areas_are_listed_first :
  forall w,
    undisturbed w ->
    (forall itemData,
        exists row w1,
          createInventoryItem itemData w = (Returned (ok row), w1) /\
          i_vendor_id row = Some (NewInventoryItem.vendorId itemData) /\
          i_name row = NewInventoryItem.name itemData /\
          i_price row = NewInventoryItem.price itemData /\
          i_stock row = NewInventoryItem.stock itemData /\
          i_description row = or_else (NewInventoryItem.description itemData) "" /\
          (forall before,
              fst (getInventoryByVendor (NewInventoryItem.vendorId itemData) w)
              = Returned (ok before) ->
              fst (getInventoryByVendor (NewInventoryItem.vendorId itemData) w1)
              = Returned (ok (row :: before))) /\
          (forall v, v <> NewInventoryItem.vendorId itemData ->
                     fst (getInventoryByVendor v w1) = fst (getInventoryByVendor v w))) /\
    (forall areaData,
        exists row w1,
          createServiceArea areaData w = (Returned (ok row), w1) /\
          sa_name row = NewServiceArea.name areaData /\
          sa_vendor_id row = Some (NewServiceArea.vendorId areaData) /\
          sa_vendor_name row = NewServiceArea.vendorName areaData /\
          (forall before,
              fst (getServiceAreas w) = Returned (ok before) ->
              fst (getServiceAreas w1) = Returned (ok (row :: before)))).
Proof.
  intros w Hu. split.
  - intros itemData.
    destruct (createInventoryItem itemData w) as [o w1] eqn:Hrun.
    unfold createInventoryItem in Hrun. inv_run; try calm.
    all: simpl in *; try discriminate.
    eexists _, _. split; [reflexivity|].
    repeat (split; [reflexivity|]).
    assert (Hlist : forall v0 w0,
               undisturbed w0 ->
               fst (getInventoryByVendor v0 w0)
               = Returned (ok (rev (filter (fun row => is_id (i_vendor_id row) v0)
                                      (inventory_items (db w0)))))).
    { intros v0 w0 Hu0. unfold getInventoryByVendor, try_catch, bind.
      rewrite await_undisturbed by exact Hu0. reflexivity. }
    split.
    + intros before Hb. rewrite Hlist in Hb by exact Hu.
      rewrite Hlist by (apply undisturbed_after_call; exact Hu).
      injection Hb as Hb. subst before. simpl.
      rewrite filter_app, rev_app_distr. simpl. rewrite N.eqb_refl. reflexivity.
    + intros v Hne. rewrite (Hlist v w) by exact Hu.
      rewrite Hlist by (apply undisturbed_after_call; exact Hu).
      simpl. rewrite filter_app. simpl.
      destruct (N.eqb_spec (NewInventoryItem.vendorId itemData) v) as [E|E];
        [congruence|].
      rewrite app_nil_r. reflexivity.
  - intros areaData.
    destruct (createServiceArea areaData w) as [o w1] eqn:Hrun.
    unfold createServiceArea in Hrun. inv_run; try calm.
    all: simpl in *; try discriminate.
    eexists _, _. split; [reflexivity|].
    repeat (split; [reflexivity|]).
    assert (Hlist : forall w0,
               undisturbed w0 ->
               fst (getServiceAreas w0)
               = Returned (ok (rev (filter (fun _ => true) (service_areas (db w0)))))).
    { intros w0 Hu0. unfold getServiceAreas, try_catch, bind.
      rewrite await_undisturbed by exact Hu0. reflexivity. }
    intros before Hb. rewrite Hlist in Hb by exact Hu.
    rewrite Hlist by (apply undisturbed_after_call; exact Hu).
    injection Hb as Hb. subst before. simpl.
    rewrite filter_app, rev_app_distr. reflexivity.
Qed.

Lemma created_items_and_areas_are_listed_first_witness :
  undisturbed (demo_world []) /\
  exists row w1,
    createInventoryItem demo_item (demo_world []) = (Returned (ok row), w1) /\
    i_description row = "" /\
    map i_id (match fst (getInventoryByVendor 1%N w1) with
              | Returned r => match data r with Some l => l | None => [] end
              | Thrown _ => []
              end)
    = [i_id row; 5%N].
Proof.
  assert (H : undisturbed (demo_world [])) by constructor.
  split; [exact H|].
  destruct (proj1 (created_items_and_areas_are_listed_first (demo_world []) H) demo_item)
    as [row [w1 [Hrun [_ [_ [_ [_ [Hd [Hl _]]]]]]]]].
  exists row, w1. split; [exact Hrun|]. split; [exact Hd|].
  pose proof (Hl _ eq_refl) as Hl'.
  change (NewInventoryItem.vendorId demo_item) with 1%N in Hl'.
  rewrite Hl'. reflexivity.
Defined.

Lemma partition_permutation {A} (p : A -> bool) (l : list A) :
  Permutation l (filter p l ++ filter (fun x => negb (p x)) l).
Proof.
  induction l as [|x l IH]; simpl; [constructor|].
  destruct (p x); simpl.
  - constructor. exact IH.
  - apply Permutation_cons_app. exact IH.
Qed.

Lemma partition_sorted {A} (p : A -> bool) (l : list A) :
  Forall (fun x => p x = true) (filter p l) /\
  Forall (fun x => p x = false) (filter (fun x => negb (p x)) l).
Proof.
  split; apply Forall_forall; intros x Hx; apply filter_In in Hx;
    destruct Hx as [_ Hx]; [exact Hx|destruct (p x); [discriminate|reflexivity]].
Qed.

(** X23.  With no failure on the way, the address list of a user after
    [createAddress] is: for a new default address, the new row first and
    then the user's earlier addresses, none of them a default any more, in
    some order; for a new address that is not a default, the earlier list
    and the new row in some order, the default addresses first. *)
Theorem createAddress_then_list :
  forall addressData w,
    undisturbed w ->
    exists row w1,
      createAddress addressData w = (Returned (ok row), w1) /\
      a_is_default row = NewAddress.isDefault addressData /\
      forall before,
        fst (getUserAddresses (NewAddress.userId addressData) w)
        = Returned (ok before) ->
        exists listed,
          fst (getUserAddresses (NewAddress.userId addressData) w1)
          = Returned (ok listed) /\
          if NewAddress.isDefault addressData
          then exists rest,
                 listed = row :: rest /\
                 Permutation rest (map (apply_addresses_patch unset_default) before)
          else Permutation listed (row :: before) /\
               exists defaults others,
                 listed = defaults ++ others /\
                 Forall (fun r => a_is_default r = true) defaults /\
                 Forall (fun r => a_is_default r = false) others.
Proof.
  intros addressData w Hu.
  assert (Hlist : forall u w0,
             undisturbed w0 ->
             fst (getUserAddresses u w0)
             = Returned
                 (ok (filter a_is_default
                        (filter (fun r => is_id (a_user_id r) u) (addresses (db w0)))
                      ++ filter (fun x => negb (a_is_default x))
                           (filter (fun r => is_id (a_user_id r) u)
                              (addresses (db w0)))))).
  { intros u w0 Hu0. unfold getUserAddresses, try_catch, bind.
    rewrite await_undisturbed by exact Hu0. reflexivity. }
  destruct (createAddress addressData w) as [o w1] eqn:Hrun.
  unfold createAddress in Hrun. inv_run; try calm.
  - eexists _, _. split; [reflexivity|]. split; [reflexivity|].
    intros before Hb. rewrite Hlist in Hb by exact Hu.
    rewrite Hlist by (repeat apply undisturbed_after_call; exact Hu).
    injection Hb as Hb. subst before.
    try match goal with H : NewAddress.isDefault addressData = true |- _ => rewrite H end.
    simpl.
    fold (clear_defaults (NewAddress.userId addressData) (addresses (db w))).
    rewrite filter_app, filter_owner_cleared. simpl. rewrite N.eqb_refl.
    rewrite !filter_app. simpl.
    try match goal with H : NewAddress.isDefault addressData = true |- _ => rewrite H end.
    simpl. rewrite app_nil_r.
    rewrite filter_none, filter_all;
      [| apply Forall_map, Forall_forall; intros r _; reflexivity
       | apply Forall_map, Forall_forall; intros r _; reflexivity ].
    eexists. split; [reflexivity|]. simpl. eexists. split; [reflexivity|].
    apply Permutation_map. apply partition_permutation.
  - eexists _, _. split; [reflexivity|]. split; [reflexivity|].
    intros before Hb. rewrite Hlist in Hb by exact Hu.
    rewrite Hlist by (repeat apply undisturbed_after_call; exact Hu).
    injection Hb as Hb. subst before.
    try match goal with H : NewAddress.isDefault addressData = false |- _ => rewrite H end.
    eexists. split; [reflexivity|]. split.
    + simpl. rewrite filter_app. simpl. rewrite N.eqb_refl.
      rewrite !filter_app. simpl.
      try match goal with H : NewAddress.isDefault addressData = false |- _ => rewrite H end.
      simpl. rewrite app_nil_r, app_assoc.
      apply Permutation_sym, Permutation_cons_append.
    + eexists _, _. split; [reflexivity|]. apply partition_sorted.
Qed.

Lemma createAddress_then_list_witness :
  undisturbed (demo_world []) /\
  exists row w1 rest,
    createAddress demo_new_address (demo_world []) = (Returned (ok row), w1) /\
    a_is_default row = true /\
    fst (getUserAddresses 2%N w1) = Returned (ok (row :: rest)) /\
    Permutation rest
      (map (apply_addresses_patch unset_default) (addresses demo_store)).
Proof.
  assert (H : undisturbed (demo_world [])) by constructor.
  split; [exact H|].
  destruct (createAddress_then_list demo_new_address (demo_world []) H)
    as [row [w1 [Hrun [Hd Hl]]]].
  destruct (Hl _ eq_refl) as [listed [Hlisted Hshape]].
  change (NewAddress.isDefault demo_new_address) with true in Hshape.
  destruct Hshape as [rest [E Hperm]]. subst listed.
  exists row, w1, rest.
  split; [exact Hrun|]. split; [exact Hd|]. split; [exact Hlisted|exact Hperm].
Defined.

(** ** Updates read back *)

Lemma filter_map_commute {A} (p : A -> bool) (h : A -> A) (l : list A) :
  (forall r, p (h r) = p r) -> filter p (map h l) = map h (filter p l).
Proof.
  intros Hp. induction l as [|x l IH]; simpl; [reflexivity|].
  rewrite Hp. destruct (p x); simpl; rewrite IH; reflexivity.
Qed.

(** X24.  With no failure on the way, [updateUser] on the key of a stored
    row, with an input that has at least one of name, phone, areaId and
    serviceArea (so that the payload is not empty), answers the row with
    every field the input has replaced by the input's value, the phone as given also when it is the empty string
    (which [createUser] stores as NULL), and the key, the user id and the
    user type as stored, whatever the input says; a lookup by the user id
    afterwards answers the same row. *)
Theorem updateUser_then_lookup :
  forall id updates row w,
    undisturbed w ->
    PartialUser.name updates <> None \/ PartialUser.phone updates <> None \/
    PartialUser.areaId updates <> None \/ PartialUser.serviceArea updates <> None ->
    filter (fun r => N.eqb (u_id r) id) (users (db w)) = [row] ->
    filter (fun r => String.eqb (u_user_id r) (u_user_id row)) (users (db w)) = [row] ->
    exists row',
      fst (updateUser id updates w) = Returned (ok row') /\
      fst (getUserByUserId (u_user_id row) (snd (updateUser id updates w)))
      = Returned (ok row') /\
      u_id row' = id /\
      u_user_id row' = u_user_id row /\
      u_user_type row' = u_user_type row /\
      (forall v, PartialUser.name updates = Some v -> u_name row' = v) /\
      (forall v, PartialUser.phone updates = Some v -> u_phone row' = Some v) /\
      (forall v, PartialUser.areaId updates = Some v -> u_area_id row' = Some v) /\
      (forall v, PartialUser.serviceArea updates = Some v ->
                 u_service_area row' = Some v).
Proof.
  intros id updates row w Hu _ Hkey Huid.
  exists (apply_users_patch (updateUser_updateData updates) row).
  assert (Hid : u_id row = id).
  { assert (Hin : In row (filter (fun r => N.eqb (u_id r) id) (users (db w)))).
    { rewrite Hkey. left. reflexivity. }
    apply filter_In in Hin. apply N.eqb_eq. apply Hin. }
  assert (Hrun : updateUser id updates w
                 = (Returned (ok (apply_users_patch (updateUser_updateData updates) row)),
                    after_call w
                      (put_rows users_t
                         (map (fun r => if N.eqb (u_id r) id
                                        then apply_users_patch
                                               (updateUser_updateData updates) r
                                        else r) (users (db w))) (db w))
                      (auth w))).
  { unfold updateUser, try_catch, bind.
    rewrite (await_undisturbed _ w Hu), single_update_eq. simpl.
    rewrite Hkey. reflexivity. }
  rewrite Hrun. simpl. split; [reflexivity|]. split.
  - unfold getUserByUserId, try_catch, bind.
    rewrite (await_undisturbed _ _ (undisturbed_after_call w _ _ Hu)).
    rewrite single_select_eq. simpl.
    rewrite (filter_map_commute
               (fun r => String.eqb (u_user_id r) (u_user_id row))).
    + rewrite Huid. simpl. rewrite Hid, N.eqb_refl. reflexivity.
    + intros r. destruct (N.eqb (u_id r) id); reflexivity.
  - split; [exact Hid|]. split; [reflexivity|]. split; [reflexivity|].
    repeat split; intros v Hv; rewrite Hv; reflexivity.
Qed.

Lemma updateUser_then_lookup_witness :
  undisturbed (demo_world []) /\
  PartialUser.name rename_user <> None /\
  exists row',
    fst (getUserByUserId "maya" (snd (updateUser 2%N rename_user (demo_world []))))
    = Returned (ok row') /\
    u_name row' = "Maya R".
Proof.
  assert (H : undisturbed (demo_world [])) by constructor.
  assert (H0 : PartialUser.name rename_user <> None) by discriminate.
  split; [exact H|]. split; [exact H0|].
  destruct (updateUser_then_lookup 2%N rename_user
              {| u_id := 2%N; u_user_id := "maya"; u_name := "Maya";
                 u_phone := Some "555-0100"; u_user_type := customer;
                 u_area_id := Some 3%N; u_service_area := None |}
              (demo_world []) H (or_introl H0) eq_refl eq_refl)
    as [row' [_ [Hl [_ [_ [_ [Hn _]]]]]]].
  exists row'. split; [exact Hl|]. exact (Hn "Maya R" eq_refl).
Defined.

(** ** From the store to the order *)

Lemma loadInventory_undisturbed areaId area v s w :
  undisturbed w ->
  filter (fun row => N.eqb (sa_id row) areaId) (service_areas (db w)) = [area] ->
  sa_vendor_id area = Some v ->
  exists w0,
    loadInventory areaId s w
    = (Returned
         (setInventory
            (map to_inventory_item
               (filter (fun row => is_id (i_vendor_id row) v)
                  (inventory_items (db w)))) s), w0) /\
    undisturbed w0 /\
    db w0 = db w.
Proof.
  intros Hu Hone Hv.
  destruct (loadInventory areaId s w) as [o w0] eqn:Hrun.
  unfold loadInventory, getInventoryByArea in Hrun. inv_run; try calm.
  all: simpl in *; rewrite Hone in *; simpl in *; try discriminate.
  all: repeat match goal with
         | H : Some _ = Some _ |- _ => injection H as H; subst
         end.
  all: rewrite ?Hv.
  all: eexists; split; [reflexivity|].
  all: split; [repeat apply undisturbed_after_call; exact Hu|reflexivity].
Qed.

Lemma Forall_of_map_eq {A B C} (f : A -> C) (g : B -> C) (P : A -> Prop)
    (rows : list A) (entries : list B) :
  map f rows = map g entries ->
  (forall r e, In e entries -> f r = g e -> P r) ->
  Forall P rows.
Proof.
  revert entries. induction rows as [|r rows IH]; intros [|e entries] Hmap HP;
    try discriminate; constructor.
  - simpl in Hmap. injection Hmap as Hr _. apply (HP r e); [left; reflexivity|exact Hr].
  - simpl in Hmap. injection Hmap as _ Hrest. apply (IH entries Hrest).
    intros r' e' Hin. apply HP. right. exact Hin.
Qed.

(** X26.  From the store to the order, with no failure on the way: the
    form loads the inventory of the address's area, the user builds a cart
    by clicks and quantity updates, and submits.  Over a store with unique
    inventory keys and no negative stock, the order goes to the vendor of
    the area, its total is the sum of price times quantity over its item
    rows, and every item row refers to an inventory row of that vendor as
    stored when the inventory was loaded, carries that row's name and price,
    and has a quantity between 1 and that row's stock. *)
Theorem booked_items_are_within_the_loaded_stock :
  forall areaId area v actions u address date time s0 w0 w,
    undisturbed w ->
    NoDup (map i_id (inventory_items (db w))) ->
    stock_not_negative (db w) ->
    filter (fun row => N.eqb (sa_id row) areaId) (service_areas (db w)) = [area] ->
    sa_vendor_id area = Some v ->
    loadInventory areaId empty_form w = (Returned s0, w0) ->
    actions_on (inventory s0) actions ->
    cart (cart_run actions s0) <> [] ->
    trim time <> "" ->
    exists b' w' order rows,
      handleSubmit (Some u) (booking_of (cart_run actions s0) address date time) w0
      = (Returned (b', []), w') /\
      orders (db w') = orders (db w) ++ [order] /\
      o_vendor_id order = Some v /\
      order_items (db w') = order_items (db w) ++ rows /\
      o_total order = sumZ (map (fun row => (oi_price row * oi_quantity row)%Z) rows) /\
      Forall (fun row =>
                oi_order_id row = Some (o_id order) /\
                exists item,
                  In item (inventory_items (db w)) /\
                  oi_inventory_item_id row = Some (i_id item) /\
                  i_vendor_id item = Some v /\
                  oi_name row = i_name item /\
                  oi_price row = i_price item /\
                  (1 <= oi_quantity row <= i_stock item)%Z)
        rows.
Proof.
  intros areaId area v actions u address date time s0 w0 w
    Hu Hkeys Hstock Hone Hv Hload Hacts Hcart Htime.
  destruct (loadInventory_undisturbed areaId area v empty_form w Hu Hone Hv)
    as [w1 [Hrun [Hu0 Hdb]]].
  rewrite Hrun in Hload. injection Hload as Hs0 Hw. subst w1.
  set (items := filter (fun row => is_id (i_vendor_id row) v) (inventory_items (db w)))
    in *.
  set (inv := map to_inventory_item items).
  assert (Hinv0 : inventory s0 = inv) by (rewrite <- Hs0; reflexivity).
  assert (Hcart0 : cart s0 = []) by (rewrite <- Hs0; reflexivity).
  assert (Hinv : inventory_loaded inv).
  { apply loaded_from_store; assumption. }
  destruct (cart_run_ok inv Hinv actions s0 Hinv0) as [Hs Hok].
  { rewrite <- Hinv0. exact Hacts. }
  { split; rewrite Hcart0; constructor. }
  assert (Hpriced : cart_priced (cart_run actions s0)).
  { apply cart_run_priced; [exact Hacts|].
    unfold cart_priced. rewrite Hcart0. constructor. }
  set (s := cart_run actions s0) in *.
  assert (Hitems : forall item, In item inv ->
             exists row, In row (inventory_items (db w)) /\
                         i_vendor_id row = Some v /\
                         item = to_inventory_item row).
  { intros item Hin. apply in_map_iff in Hin. destruct Hin as [row [E Hrow]].
    apply filter_In in Hrow. destruct Hrow as [Hrow Hp].
    exists row. split; [exact Hrow|]. split; [|symmetry; exact E].
    destruct (i_vendor_id row) as [x|]; simpl in Hp; [|discriminate].
    apply N.eqb_eq in Hp. congruence. }
  assert (Hfirst : first_vendor (inventory s) = Some v).
  { rewrite Hs. destruct Hok as [_ Hall].
    destruct (cart s) as [|e c] eqn:Hc; [congruence|].
    apply Forall_cons_iff in Hall. destruct Hall as [[item [Hin _]] _].
    rewrite Hs in Hin. destruct inv as [|first rest] eqn:Hi; [contradiction|].
    destruct (Hitems first (or_introl eq_refl)) as [row [_ [Hvendor E]]].
    simpl. rewrite E. exact Hvendor. }
  destruct (handleSubmit_undisturbed u address v (booking_of s address date time) w0
              Hu0 eq_refl Hcart Htime Hfirst)
    as [b' [w' [order [rows H]]]].
  destruct H as [Hsubmit [_ [_ [_ [_ [_ [Horders [Hvendor [Htotal [Hrows [_ [Hmap _]]]]]]]]]]]].
  rewrite Hdb in Horders, Hrows. simpl in Htotal, Hmap.
  exists b', w', order, rows.
  split; [exact Hsubmit|]. split; [exact Horders|]. split; [exact Hvendor|].
  split; [exact Hrows|]. split.
  - rewrite Htotal. unfold getTotalPrice.
    rewrite (fold_left_sum
               (fun item => (OrderItem.price item * OrderItem.quantity item)%Z)).
    simpl.
    apply (f_equal (map (fun t : option uuid * option uuid * string * Z * decimal =>
                           (snd t * snd (fst t))%Z))) in Hmap.
    rewrite !map_map in Hmap. simpl in Hmap. rewrite Hmap. reflexivity.
  - apply (Forall_of_map_eq _ _ _ rows (cart s) Hmap).
    intros r e Hin Hre. injection Hre as Ho Hi Hn Hq Hp.
    split; [exact Ho|].
    destruct Hok as [_ Hall]. unfold cart_priced in Hpriced.
    rewrite Forall_forall in Hall, Hpriced.
    destruct (Hall e Hin) as [item1 [Hin1 [Hid1 Hbound]]].
    destruct (Hpriced e Hin) as [item2 [Hin2 [Hid2 [Hprice Hname]]]].
    rewrite Hs in Hin1, Hin2.
    assert (item2 = item1).
    { apply (nodup_key_eq InventoryItem.id inv); try assumption;
        [apply Hinv|congruence]. }
    subst item2.
    destruct (Hitems item1 Hin1) as [row [Hrow [Hvrow E]]].
    exists row. subst item1. simpl in *.
    split; [exact Hrow|]. split; [congruence|]. split; [exact Hvrow|].
    split; [congruence|]. split; [congruence|]. rewrite Hq. exact Hbound.
Qed.

Lemma booked_items_are_within_the_loaded_stock_witness :
  exists b' w' order rows,
    handleSubmit (Some demo_user)
      (booking_of
         (cart_run demo_clicks
            (match fst (loadInventory 3%N empty_form (demo_world [])) with
             | Returned s0 => s0
             | Thrown _ => empty_form
             end))
         demo_address "2025-07-04" "Morning")
      (snd (loadInventory 3%N empty_form (demo_world [])))
    = (Returned (b', []), w') /\
    orders (db w') = orders demo_store ++ [order] /\
    o_vendor_id order = Some 1%N /\
    o_total order = sumZ (map (fun row => (oi_price row * oi_quantity row)%Z) rows) /\
    Forall (fun row => (1 <= oi_quantity row)%Z) rows.
Proof.
  assert (H1 : undisturbed (demo_world [])) by constructor.
  assert (H2 : NoDup (map i_id (inventory_items (db (demo_world []))))).
  { simpl. repeat constructor. simpl. tauto. }
  assert (H3 : stock_not_negative (db (demo_world []))).
  { unfold stock_not_negative. simpl. repeat constructor. simpl. lia. }
  assert (H4 : actions_on
                 (inventory
                    (match fst (loadInventory 3%N empty_form (demo_world [])) with
                     | Returned s0 => s0
                     | Thrown _ => empty_form
                     end)) demo_clicks).
  { unfold actions_on, demo_clicks. simpl. repeat constructor. }
  destruct (booked_items_are_within_the_loaded_stock 3%N
              {| sa_id := 3%N; sa_name := "North"; sa_vendor_id := Some 1%N;
                 sa_vendor_name := "Aqua Supplies" |}
              1%N demo_clicks demo_user demo_address "2025-07-04" "Morning"
              (match fst (loadInventory 3%N empty_form (demo_world [])) with
               | Returned s0 => s0
               | Thrown _ => empty_form
               end)
              (snd (loadInventory 3%N empty_form (demo_world [])))
              (demo_world []) H1 H2 H3 eq_refl eq_refl eq_refl H4)
    as [b' [w' [order [rows [Hrun [Ho [Hv [_ [Ht Hall]]]]]]]]].
  { simpl. discriminate. }
  { simpl. discriminate. }
  exists b', w', order, rows. split; [exact Hrun|]. split; [exact Ho|].
  split; [exact Hv|]. split; [exact Ht|].
  eapply Forall_impl; [|exact Hall].
  intros row [_ [item [_ [_ [_ [_ [_ Hq]]]]]]]. apply Hq.
Defined.
